(** * cod2factoriolab: the naming and cross-reference pipeline

    A shallow embedding of [cod2factoriolab.py]: the script reads the
    Captain-of-Data dump of products and of machines/buildings, renames
    every identifier to the Factoriolab convention, resolves ingredient
    names against the product index and emits one document.

    Python strings are sequences of Unicode code points, so a string is a
    list of code points here; a Python [dict] keeps insertion order, so it
    is an association list updated in place; the module-level accumulators
    ([ids], [iconList], [prodList], [prodIndex], [mnbList], [recipeIds],
    [recipeList]) and the diagnostic stream are the fields of one state
    record that every loop body threads through. *)

From Stdlib Require Import String Ascii DecimalString.
From Stdlib Require Import NArith ZArith Bool Lia List.
Import ListNotations.

Set Implicit Arguments.
Local Open Scope N_scope.

(** ** Strings *)

Definition char := N.
Definition str := list char.

(** A string literal of the source, as code points. *)
Fixpoint lit (s : string) : str :=
  match s with
  | EmptyString => []
  | String a s' => N_of_ascii a :: lit s'
  end.

Fixpoint str_eqb (a b : str) : bool :=
  match a, b with
  | [], [] => true
  | x :: a', y :: b' => N.eqb x y && str_eqb a' b'
  | _, _ => false
  end.

(** [sep.join(l)] *)
Fixpoint join (sep : str) (l : list str) : str :=
  match l with
  | [] => []
  | [x] => x
  | x :: l' => x ++ sep ++ join sep l'
  end.

Definition in_range (lo hi c : char) : bool := N.leb lo c && N.leb c hi.

(** The character classes of the three patterns.  [\[A-Z\]], [\[a-z\]] and
    [\[0-9\]] are ranges of code points. *)
Definition cls_upper (c : char) : bool := in_range 65 90 c.
Definition cls_lower (c : char) : bool := in_range 97 122 c.
Definition cls_09 (c : char) : bool := in_range 48 57 c.
Definition cls_lower09 (c : char) : bool := cls_lower c || cls_09 c.
Definition cls_alnum (c : char) : bool := cls_upper c || cls_lower c || cls_09 c.

(** [\d] in a [str] pattern compiled without [re.ASCII] matches every
    Unicode decimal digit (general category Nd), not only [0-9].  The
    category is made of runs of ten consecutive code points, one per script,
    and of the fifty mathematical digits U+1D7CE..U+1D7FF; the table is the
    one of Unicode 15.0, the version of the first interpreter that accepts
    the quoting of the f-strings of this script. *)
Definition Nd_blocks : list N :=
  [ 0x30; 0x660; 0x6F0; 0x7C0; 0x966; 0x9E6; 0xA66; 0xAE6; 0xB66; 0xBE6;
    0xC66; 0xCE6; 0xD66; 0xDE6; 0xE50; 0xED0; 0xF20; 0x1040; 0x1090;
    0x17E0; 0x1810; 0x1946; 0x19D0; 0x1A80; 0x1A90; 0x1B50; 0x1BB0;
    0x1C40; 0x1C50; 0xA620; 0xA8D0; 0xA900; 0xA9D0; 0xA9F0; 0xAA50;
    0xABF0; 0xFF10; 0x104A0; 0x10D30; 0x11066; 0x110F0; 0x11136; 0x111D0;
    0x112F0; 0x11450; 0x114D0; 0x11650; 0x116C0; 0x11730; 0x118E0;
    0x11950; 0x11C50; 0x11D50; 0x11DA0; 0x11F50; 0x16A60; 0x16AC0;
    0x16B50; 0x1E140; 0x1E2F0; 0x1E4F0; 0x1E950; 0x1FBF0 ].

Definition cls_d (c : char) : bool :=
  existsb (fun b => in_range b (b + 9) c) Nd_blocks
  || in_range 0x1D7CE 0x1D7FF c.

(** [s.lower()] on the strings this script lowers: regular-expression
    matches made of [\[A-Z\]], [\[a-z\]], [\[0-9\]] and [\d] characters, and
    hyphens.  There only the ASCII capitals change; decimal digits of any
    script have no case. *)
Definition lower_char (c : char) : char :=
  if cls_upper c then c + 32 else c.

Definition lower (s : str) : str := map lower_char s.

(** ** Regular expressions

    The fragment of [re] the script uses, with Python's matching order:
    alternatives are tried left to right, [?] and [*] are greedy, and a
    failure further right backtracks into the latest choice. *)

Inductive regex : Type :=
| Eps
| Lit (c : char)
| Cls (p : char -> bool)
| Seq (r1 r2 : regex)
| Alt (r1 r2 : regex)
| Opt (r : regex)
| Star (r : regex)
| Grp (i : nat) (r : regex).

Definition Plus (r : regex) : regex := Seq r (Star r).

(** [r{n,}] *)
Fixpoint AtLeast (n : nat) (r : regex) : regex :=
  match n with
  | O => Star r
  | S n' => Seq r (AtLeast n' r)
  end.

Fixpoint Lits (s : str) : regex :=
  match s with
  | [] => Eps
  | c :: s' => Seq (Lit c) (Lits s')
  end.

(** The groups that took part in the match, latest first. *)
Definition captures := list (nat * str).

Fixpoint group (i : nat) (g : captures) : option str :=
  match g with
  | [] => None
  | (j, s) :: g' => if Nat.eqb i j then Some s else group i g'
  end.

Section Matcher.
Variable A : Type.

(** The rounds of a star.  [step] matches the starred pattern once; a round
    has to consume input, or the star would go round for ever on an empty
    match; [n] bounds the rounds, and the length of the input is bound
    enough (see [star_rounds_enough]). *)
Fixpoint star_rounds
         (step : str -> captures -> (str -> captures -> option A) -> option A)
         (k : str -> captures -> option A)
         (n : nat) (s : str) (g : captures) : option A :=
  match n with
  | O => k s g
  | S n' =>
      match step s g (fun s' g' =>
              if Nat.ltb (length s') (length s)
              then star_rounds step k n' s' g' else None) with
      | Some x => Some x
      | None => k s g
      end
  end.

(** [rx r s g k]: match [r] at the head of [s]; [k] receives what is left of
    the input and decides whether the whole match succeeds, which is how a
    later failure re-enters an earlier choice. *)
Fixpoint rx (r : regex) (s : str) (g : captures)
         (k : str -> captures -> option A) {struct r} : option A :=
  match r with
  | Eps => k s g
  | Lit c =>
      match s with
      | x :: s' => if N.eqb x c then k s' g else None
      | [] => None
      end
  | Cls p =>
      match s with
      | x :: s' => if p x then k s' g else None
      | [] => None
      end
  | Seq r1 r2 => rx r1 s g (fun s' g' => rx r2 s' g' k)
  | Alt r1 r2 =>
      match rx r1 s g k with
      | Some x => Some x
      | None => rx r2 s g k
      end
  | Opt r1 =>
      match rx r1 s g k with
      | Some x => Some x
      | None => k s g
      end
  | Star r1 => star_rounds (rx r1) k (length s) s g
  | Grp i r1 =>
      rx r1 s g (fun s' g' =>
        k s' ((i, firstn (length s - length s')%nat s) :: g'))
  end.
End Matcher.

(** [r.match(s)]: anchored at the start of [s], not at its end.  The result
    is the matched text ([group(0)]) and the groups. *)
Definition re_match (r : regex) (s : str) : option (str * captures) :=
  rx r s [] (fun rest g => Some (firstn (length s - length rest)%nat s, g)).

(** [r.findall(s)] for a pattern without groups that never matches the
    empty string: the matches from left to right, each search starting
    where the previous match ended, one character further when there is no
    match at a position.  [skip] counts the characters of the last match
    still to step over. *)
Fixpoint findall_from (r : regex) (skip : nat) (s : str) : list str :=
  match s with
  | [] => []
  | _ :: s' =>
      match skip with
      | S j => findall_from r j s'
      | O =>
          match re_match r s with
          | Some (tok, _) => tok :: findall_from r (Nat.pred (length tok)) s'
          | None => findall_from r 0%nat s'
          end
      end
  end.

Definition findall (r : regex) (s : str) : list str := findall_from r 0%nat s.

(** ** The constants of the script *)

(** [r'Product_(Virtual_)?([A-Za-z0-9]+)'] *)
Definition REX_Product : regex :=
  Seq (Lits (lit "Product_"))
      (Seq (Opt (Grp 1 (Lits (lit "Virtual_"))))
           (Grp 2 (Plus (Cls cls_alnum)))).

(** [r'([A-Z][a-z0-9]+)ProductProto'] *)
Definition REX_ProdType : regex :=
  Seq (Grp 1 (Seq (Cls cls_upper) (Plus (Cls cls_lower09))))
      (Lits (lit "ProductProto")).

(** [r'[A-Z][a-z]+|[A-Z]{2,}|\d[A-Z]?'] *)
Definition REX_CoDNaming : regex :=
  Alt (Seq (Cls cls_upper) (Plus (Cls cls_lower)))
      (Alt (AtLeast 2 (Cls cls_upper))
           (Seq (Cls cls_d) (Opt (Cls cls_upper)))).

(** Converts names from the Captain-of-Data dump to Factoriolab-style
    naming, ex. 'MaintenanceT2' to 'maintenance-2'. *)
Definition convertCod2FL (codName : str) : str :=
  lower (join (lit "-") (findall REX_CoDNaming codName)).

(** ** Dictionaries

    A [dict] with string keys, in insertion order: assigning to a key that
    is present replaces its value where it stands, a new key goes last. *)

Section Dict.
Variable V : Type.

Definition dict := list (str * V).

Fixpoint dict_get (d : dict) (k : str) : option V :=
  match d with
  | [] => None
  | (k', v) :: d' => if str_eqb k k' then Some v else dict_get d' k
  end.

Fixpoint dict_set (d : dict) (k : str) (v : V) : dict :=
  match d with
  | [] => [(k, v)]
  | (k', v') :: d' =>
      if str_eqb k k' then (k', v) :: d' else (k', v') :: dict_set d' k v
  end.

(** [k in d] *)
Definition dict_mem (d : dict) (k : str) : bool :=
  match dict_get d k with Some _ => true | None => false end.

Definition keys (d : dict) : list str := map fst d.
End Dict.

(** ** Exceptions *)

Inductive exn : Type :=
| ValueError (msg : str)
| TypeError (msg : str).

Inductive result (A : Type) : Type :=
| Ok (a : A)
| Raise (e : exn).

Arguments Ok {A} a.
Arguments Raise {A} e.

Definition bind {A B : Type} (c : result A) (k : A -> result B) : result B :=
  match c with
  | Ok a => k a
  | Raise e => Raise e
  end.

Notation "x <- c ;; k" := (bind c (fun x => k))
  (at level 61, c at next level, right associativity).

(** A [for] loop whose body may raise: the first exception leaves the loop. *)
Fixpoint for_each {X S : Type} (body : X -> S -> result S)
         (l : list X) (st : S) : result S :=
  match l with
  | [] => Ok st
  | x :: l' => st' <- body x st ;; for_each body l' st'
  end.

(** [chr(i)], for an argument that fits a C int: past it CPython raises
    OverflowError, which the script never gets to with fewer than 2^31
    recipes. *)
Definition chr (i : Z) : result char :=
  if (0 <=? i)%Z && (i <? 0x110000)%Z then Ok (Z.to_N i)
  else Raise (ValueError (lit "chr() arg not in range(0x110000)")).

(** ** The documents *)

(** A JSON number of the dump.  The script compares numbers with zero and
    copies them; integers are enough to follow it. *)
Definition num := Z.

Record raw_product : Type := {
  rp_type : str;
  rp_id : str;
  rp_name : str;
  rp_icon_path : str
}.

Record products_doc : Type := {
  pd_game_version : str;
  pd_products : list raw_product
}.

Record ingredient : Type := {
  ing_name : str;
  ing_quantity : num
}.

Record raw_recipe : Type := {
  rr_id : str;
  rr_name : str;
  rr_duration : num;
  rr_inputs : list ingredient;
  rr_outputs : list ingredient
}.

Record raw_building : Type := {
  rb_id : str;
  rb_name : str;
  rb_workers : num;
  rb_electricity_consumed : num;
  rb_maintenance_cost_units : str;
  rb_maintenance_cost_quantity : num;
  rb_icon_path : str;
  rb_recipes : list raw_recipe
}.

Record buildings_doc : Type := {
  bd_game_version : str;
  bd_machines_and_buildings : list raw_building
}.

(** The records the script builds. *)

Record product : Type := {
  prod_id : str;
  prod_name : str;
  prod_type : str
}.

Record icon : Type := {
  icon_id : str;
  icon_icon : str
}.

Record machine : Type := {
  speed : num;
  consumption : dict num
}.

Record building : Type := {
  bld_id : str;
  bld_name : str;
  bld_category : str;
  bld_machine : machine
}.

Record recipe : Type := {
  rcp_id : str;
  rcp_name : str;
  rcp_time : num;
  rcp_producers : list str;
  rcp_row : num;
  rcp_icon : str;
  rcp_in : dict num;
  rcp_out : dict num
}.

Record category : Type := {
  cat_id : str;
  cat_name : str;
  cat_icon : str
}.

Record icon_position : Type := {
  ip_id : str;
  ip_position : str;
  ip_color : str
}.

(** An entry of the output [items]: a projected product, or a building
    record as it stands in [mnbList]. *)
Inductive item : Type :=
| ProductItem (id name category : str) (row : num)
| BuildingItem (b : building).

Definition item_id (i : item) : str :=
  match i with
  | ProductItem id _ _ _ => id
  | BuildingItem b => bld_id b
  end.

Record document : Type := {
  doc_version : dict str;
  doc_categories : list category;
  doc_icons : list icon_position;
  doc_items : list item;
  doc_recipes : list recipe
}.

(** ** The accumulators *)

Record state : Type := {
  ids : list str;
  iconList : list icon;
  prodList : list product;
  prodIndex : dict str;
  mnbList : list building;
  recipeIds : dict Z;
  recipeList : list recipe;
  stdout : list str
}.

(** [print(line)] on a stream that takes the line: the encoding of the
    stream is not part of the model. *)
Definition print (line : str) (st : state) : state :=
  {| ids := ids st; iconList := iconList st; prodList := prodList st;
     prodIndex := prodIndex st; mnbList := mnbList st;
     recipeIds := recipeIds st; recipeList := recipeList st;
     stdout := stdout st ++ [line] |}.

Definition prodList_append (r : product) (st : state) : state :=
  {| ids := ids st; iconList := iconList st; prodList := prodList st ++ [r];
     prodIndex := prodIndex st; mnbList := mnbList st;
     recipeIds := recipeIds st; recipeList := recipeList st;
     stdout := stdout st |}.

Definition prodIndex_set (name id : str) (st : state) : state :=
  {| ids := ids st; iconList := iconList st; prodList := prodList st;
     prodIndex := dict_set (prodIndex st) name id; mnbList := mnbList st;
     recipeIds := recipeIds st; recipeList := recipeList st;
     stdout := stdout st |}.

Definition iconList_append (i : icon) (st : state) : state :=
  {| ids := ids st; iconList := iconList st ++ [i]; prodList := prodList st;
     prodIndex := prodIndex st; mnbList := mnbList st;
     recipeIds := recipeIds st; recipeList := recipeList st;
     stdout := stdout st |}.

Definition mnbList_append (r : building) (st : state) : state :=
  {| ids := ids st; iconList := iconList st; prodList := prodList st;
     prodIndex := prodIndex st; mnbList := mnbList st ++ [r];
     recipeIds := recipeIds st; recipeList := recipeList st;
     stdout := stdout st |}.

Definition recipeIds_put (d : dict Z) (st : state) : state :=
  {| ids := ids st; iconList := iconList st; prodList := prodList st;
     prodIndex := prodIndex st; mnbList := mnbList st;
     recipeIds := d; recipeList := recipeList st;
     stdout := stdout st |}.

Definition recipeList_append (r : recipe) (st : state) : state :=
  {| ids := ids st; iconList := iconList st; prodList := prodList st;
     prodIndex := prodIndex st; mnbList := mnbList st;
     recipeIds := recipeIds st; recipeList := recipeList st ++ [r];
     stdout := stdout st |}.

(** [x in ids] *)
Definition ids_mem (x : str) (st : state) : bool :=
  existsb (str_eqb x) (ids st).

(** [PRODUCT_TYPES]: type, then its name and icon. *)
Definition PRODUCT_TYPES : dict (str * str) :=
  [ (lit "Countable", (lit "Unit resources", lit "iron"));
    (lit "Fluid", (lit "Fluid resources", lit "water"));
    (lit "Loose", (lit "Loose resources", lit "gravel"));
    (lit "Molten", (lit "Molten resources", lit "molten-iron"));
    (lit "Virtual", (lit "Virtual resources", lit "maintenance-1")) ].

(** Products (including virtual) that are not listed in the input files. *)
Definition DEFAULT_PRODUCTS : dict str := [ (lit "worker", lit "Workers") ].

(** The module-level initialisation, then the loop "Adding defaults". *)
Definition empty_state : state :=
  {| ids := []; iconList := []; prodList := []; prodIndex := [];
     mnbList := []; recipeIds := []; recipeList := []; stdout := [] |}.

Definition add_default (entry : str * str) (st : state) : state :=
  let (prod, name) := entry in
  prodIndex_set name prod
    (prodList_append
       {| prod_id := prod; prod_name := name; prod_type := lit "virtual" |} st).

Definition initial_state : state :=
  fold_left (fun st entry => add_default entry st) DEFAULT_PRODUCTS empty_state.

(** ** Ingredient lists *)

(** The loop of [convertIngredientList], [ret] being the dictionary filled
    so far: the first name that [prodIndex] does not know raises. *)
Fixpoint convertIngredientList_loop (prodIndex : dict str) (ret : dict num)
         (ingredients : list ingredient) : result (dict num) :=
  match ingredients with
  | [] => Ok ret
  | ingredient :: rest =>
      match dict_get prodIndex (ing_name ingredient) with
      | None =>
          Raise (ValueError (lit "Unknown ingredient: " ++ ing_name ingredient))
      | Some prodID =>
          convertIngredientList_loop prodIndex
            (dict_set ret prodID (ing_quantity ingredient)) rest
      end
  end.

(** Converts an ingredient list from the dump to a Factoriolab-style
    dictionary from product id to quantity. *)
Definition convertIngredientList (prodIndex : dict str)
           (ingredients : list ingredient) : result (dict num) :=
  convertIngredientList_loop prodIndex [] ingredients.

(** ** Output lists *)

Definition getCategories : list category :=
  map (fun entry : str * (str * str) =>
         let (key, data) := entry in
         {| cat_id := lower key; cat_name := fst data; cat_icon := snd data |})
      PRODUCT_TYPES.

(** [a <= b] on strings: code point by code point, a prefix first. *)
Fixpoint str_leb (a b : str) : bool :=
  match a, b with
  | [], _ => true
  | _ :: _, [] => false
  | x :: a', y :: b' => N.ltb x y || (N.eqb x y && str_leb a' b')
  end.

(** [sorted(l, key=id)] is stable: an entry goes after the entries whose id
    is not greater. *)
Fixpoint insert_icon (x : icon) (l : list icon) : list icon :=
  match l with
  | [] => [x]
  | y :: l' =>
      if str_leb (icon_id y) (icon_id x) then y :: insert_icon x l'
      else x :: y :: l'
  end.

Definition sorted_by_id (l : list icon) : list icon :=
  fold_left (fun acc x => insert_icon x acc) l [].

(** [f'{n}'] for a natural number. *)
Definition decimal (n : N) : str :=
  lit (NilEmpty.string_of_uint (N.to_uint n)).

Fixpoint getIcons_loop (cnt : N) (l : list icon) : list icon_position :=
  match l with
  | [] => []
  | icon :: l' =>
      {| ip_id := icon_id icon;
         ip_position := lit "-" ++ decimal (cnt mod 1216) ++ lit "px -"
                        ++ decimal ((cnt / 1216) * 64) ++ lit "px";
         ip_color := lit "#000000" |}
      :: getIcons_loop (cnt + 40) l'
  end.

Definition getIcons (st : state) : list icon_position :=
  getIcons_loop 0 (sorted_by_id (iconList st)).

Definition getItems (st : state) : list item :=
  map (fun x => ProductItem (prod_id x) (prod_name x) (prod_type x) 0%Z)
      (prodList st)
  ++ map BuildingItem (mnbList st).

(** ** Reading the products *)

(** The body of the loop over [inData\['products'\]]. *)
Definition read_product (item : raw_product) (st : state) : result state :=
  let typeStr := rp_type item in
  let strange_type :=
    Ok (print (lit "Strange product type: '" ++ typeStr ++ lit "'") st) in
  match re_match REX_ProdType typeStr with
  | None => strange_type
  | Some (_, g) =>
      match group 1 g with
      | None => strange_type
      | Some typeStr =>
          if negb (dict_mem PRODUCT_TYPES typeStr) then strange_type
          else
            let idStr := rp_id item in
            match re_match REX_Product idStr with
            | None =>
                Ok (print (lit "Strange product ID: '" ++ idStr ++ lit "'") st)
            | Some (_, g) =>
                match group 2 g with
                | None =>
                    Raise (TypeError
                      (lit "expected string or bytes-like object, got 'NoneType'"))
                | Some bare =>
                    let flabID := convertCod2FL bare in
                    if ids_mem flabID st then
                      Ok (print (lit "Duplicate product ID " ++ flabID) st)
                    else
                      let r := {| prod_id := flabID;
                                  prod_name := rp_name item;
                                  prod_type := lower typeStr |} in
                      let st := prodList_append r st in
                      if dict_mem (prodIndex st) (rp_name item) then
                        Ok (print (lit "Duplicate name '" ++ rp_name item
                                   ++ lit "'") st)
                      else
                        let st := prodIndex_set (rp_name item) flabID st in
                        Ok (iconList_append
                              {| icon_id := flabID;
                                 icon_icon := rp_icon_path item |} st)
                end
            end
      end
  end.

(** ** Reading the machines, buildings and recipes *)

(** The id of the next recipe that normalizes to [rID], and the counters
    after it: if there was already a recipe with this id, the others are
    marked with the suffix -a, -b, ... *)
Definition next_recipe_id (rID : str) (recipeIds : dict Z)
  : result (str * dict Z) :=
  let rCnt := match dict_get recipeIds rID with Some n => n | None => 0%Z end in
  if (0 <? rCnt)%Z then
    let rCnt := (rCnt + 1)%Z in
    let recipeIds := dict_set recipeIds rID rCnt in
    c <- chr (95 + rCnt) ;;
    Ok (rID ++ lit "-" ++ [c], recipeIds)
  else
    Ok (rID, dict_set recipeIds rID 1%Z).

(** The body of the loop over [item\['recipes'\]] of the building [flabID]. *)
Definition read_recipe (flabID : str) (recipe : raw_recipe) (st : state)
  : result state :=
  named <- next_recipe_id (convertCod2FL (rr_id recipe)) (recipeIds st) ;;
  let (rID, counters) := named : str * dict Z in
  let st := recipeIds_put counters st in
  match convertIngredientList (prodIndex st) (rr_inputs recipe) with
  | Raise (ValueError e) => Ok (print (lit "ValueError: " ++ e) st)
  | Raise e => Raise e
  | Ok r_in =>
      match convertIngredientList (prodIndex st) (rr_outputs recipe) with
      | Raise (ValueError e) => Ok (print (lit "ValueError: " ++ e) st)
      | Raise e => Raise e
      | Ok r_out =>
          match r_out with
          | [] => Ok st
          | _ :: _ =>
              Ok (recipeList_append
                    {| rcp_id := rID;
                       rcp_name := rr_name recipe;
                       rcp_time := rr_duration recipe;
                       rcp_producers := [flabID];
                       rcp_row := 0%Z;
                       rcp_icon := flabID;
                       rcp_in := r_in;
                       rcp_out := r_out |} st)
          end
      end
  end.

(** The consumption of a building, [None] when its maintenance unit is not
    a known product name. *)
Definition building_consumption (prodIndex : dict str) (item : raw_building)
  : option (dict num) :=
  let r_cons : dict num := [] in
  let r_cons :=
    if (0 <? rb_workers item)%Z
    then dict_set r_cons (lit "worker") (rb_workers item) else r_cons in
  let r_cons :=
    if (0 <? rb_electricity_consumed item)%Z
    then dict_set r_cons (lit "electricity") (rb_electricity_consumed item)
    else r_cons in
  let unit := rb_maintenance_cost_units item in
  if negb (str_eqb unit []) then
    match dict_get prodIndex unit with
    | None => None
    | Some unit => Some (dict_set r_cons unit (rb_maintenance_cost_quantity item))
    end
  else Some r_cons.

(** The body of the loop over [inData\['machines_and_buildings'\]]. *)
Definition read_building (item : raw_building) (st : state) : result state :=
  let flabID := convertCod2FL (rb_id item) in
  if ids_mem flabID st then
    Ok (print (lit "Duplicate building ID " ++ flabID) st)
  else
    match building_consumption (prodIndex st) item with
    | None =>
        Ok (print (lit "Unknown maintenance unit '"
                   ++ rb_maintenance_cost_units item ++ lit "' in " ++ flabID)
                  st)
    | Some r_cons =>
        let r := {| bld_id := flabID;
                    bld_name := rb_name item;
                    bld_category := lit "buildings";
                    bld_machine := {| speed := 1%Z; consumption := r_cons |} |} in
        let st := mnbList_append r st in
        let st := iconList_append
                    {| icon_id := flabID; icon_icon := rb_icon_path item |} st in
        for_each (read_recipe flabID) (rb_recipes item) st
    end.

(** ** The script *)

(** How the script ends: it runs to its last line, it leaves through
    [sys.exit], or an exception nobody catches stops it. *)
Inductive run (A : Type) : Type :=
| Done (a : A)
| Exit (code : Z) (out : list str)
| Uncaught (e : exn).

Arguments Done {A} a.
Arguments Exit {A} code out.
Arguments Uncaught {A} e.

(** Both documents read: the accumulators as "Preparing output" finds
    them. *)
Definition process (products : products_doc) (buildings : buildings_doc)
  : run state :=
  match for_each read_product (pd_products products) initial_state with
  | Raise e => Uncaught e
  | Ok st =>
      let version := pd_game_version products in
      if negb (str_eqb (bd_game_version buildings) version) then
        Exit 1 (stdout (print
          (lit "Game version differs in 'machines_and_buildings.json'") st))
      else
        match for_each read_building (bd_machines_and_buildings buildings) st with
        | Raise e => Uncaught e
        | Ok st => Done st
        end
  end.

(** The document handed to [json.dump]. *)
Definition output (version : str) (st : state) : document :=
  {| doc_version := [(lit "Captain of Industry", version)];
     doc_categories := getCategories;
     doc_icons := getIcons st;
     doc_items := getItems st;
     doc_recipes := recipeList st |}.

(** The whole script up to the call of [json.dump]: the document handed
    to it with what was printed, when it gets that far.  The encoding of
    the document into [data.json] is not part of the model. *)
Definition main (products : products_doc) (buildings : buildings_doc)
  : run (document * list str) :=
  match process products buildings with
  | Done st => Done (output (pd_game_version products) st, stdout st)
  | Exit code out => Exit code out
  | Uncaught e => Uncaught e
  end.

(** * Vocabulary of the statements *)

(** [matches r s g s' g']: [r] can consume a prefix of [s] and leave [s'],
    taking the groups from [g] to [g']. *)
Inductive matches : regex -> str -> captures -> str -> captures -> Prop :=
| M_Eps s g : matches Eps s g s g
| M_Lit c s g : matches (Lit c) (c :: s) g s g
| M_Cls p c s g : p c = true -> matches (Cls p) (c :: s) g s g
| M_Seq r1 r2 s g s1 g1 s2 g2 :
    matches r1 s g s1 g1 -> matches r2 s1 g1 s2 g2 ->
    matches (Seq r1 r2) s g s2 g2
| M_AltL r1 r2 s g s' g' :
    matches r1 s g s' g' -> matches (Alt r1 r2) s g s' g'
| M_AltR r1 r2 s g s' g' :
    matches r2 s g s' g' -> matches (Alt r1 r2) s g s' g'
| M_OptSome r s g s' g' :
    matches r s g s' g' -> matches (Opt r) s g s' g'
| M_OptNone r s g : matches (Opt r) s g s g
| M_StarNil r s g : matches (Star r) s g s g
| M_StarCons r s g s1 g1 s2 g2 :
    matches r s g s1 g1 -> matches (Star r) s1 g1 s2 g2 ->
    matches (Star r) s g s2 g2
| M_Grp i r s g s' g' :
    matches r s g s' g' ->
    matches (Grp i r) s g s' ((i, firstn (length s - length s') s) :: g').


(** The characters a pattern can consume. *)
Fixpoint alphabet (r : regex) (c : char) : Prop :=
  match r with
  | Eps => False
  | Lit x => c = x
  | Cls p => p c = true
  | Seq r1 r2 | Alt r1 r2 => alphabet r1 c \/ alphabet r2 c
  | Opt r1 | Star r1 | Grp _ r1 => alphabet r1 c
  end.

(** Groups are only added; a group that every path goes through is set. *)
Fixpoint sets (i : nat) (r : regex) : bool :=
  match r with
  | Eps | Lit _ | Cls _ | Opt _ | Star _ => false
  | Seq r1 r2 => sets i r1 || sets i r2
  | Alt r1 r2 => sets i r1 && sets i r2
  | Grp j r1 => Nat.eqb i j || sets i r1
  end.

(** Every match of the pattern takes at least one character. *)
Fixpoint consumes (r : regex) : bool :=
  match r with
  | Lit _ | Cls _ => true
  | Seq r1 r2 => consumes r1 || consumes r2
  | Alt r1 r2 => consumes r1 && consumes r2
  | Grp _ r1 => consumes r1
  | Eps | Opt _ | Star _ => false
  end.

(** The characters of a normalized id. *)
Definition id_char (c : char) : bool :=
  cls_lower c || cls_09 c || N.eqb c 45.

(** The ingredient is a known product name. *)
Definition known (prodIndex : dict str) (i : ingredient) : Prop :=
  dict_get prodIndex (ing_name i) <> None.

Definition unknown (prodIndex : dict str) (i : ingredient) : Prop :=
  dict_get prodIndex (ing_name i) = None.

(** The ingredient stands for the product [id]. *)
Definition resolves_to (prodIndex : dict str) (id : str) (i : ingredient) : Prop :=
  dict_get prodIndex (ing_name i) = Some id.

(** What the products loop makes of an entry whose type and wrapped id
    have the expected shape. *)
Definition parse_product (item : raw_product) : option product :=
  match re_match REX_ProdType (rp_type item) with
  | Some (_, g) =>
      match group 1 g with
      | Some typeStr =>
          if dict_mem PRODUCT_TYPES typeStr then
            match re_match REX_Product (rp_id item) with
            | Some (_, g2) =>
                match group 2 g2 with
                | Some bare =>
                    Some {| prod_id := convertCod2FL bare;
                            prod_name := rp_name item;
                            prod_type := lower typeStr |}
                | None => None
                end
            | None => None
            end
          else None
      | None => None
      end
  | None => None
  end.

(** The products that are the first of a list to carry their display name,
    [seen] being the names taken before the list. *)
Fixpoint first_named (seen : list str) (l : list product) : list product :=
  match l with
  | [] => []
  | p :: l' =>
      if existsb (str_eqb (prod_name p)) seen then first_named seen l'
      else p :: first_named (prod_name p :: seen) l'
  end.

(** The seeded products, as they stand in [prodList]. *)
Definition default_products : list product :=
  map (fun entry : str * str =>
         {| prod_id := fst entry; prod_name := snd entry;
            prod_type := lit "virtual" |}) DEFAULT_PRODUCTS.

(** The record of a building whose maintenance unit resolves. *)
Definition building_of (prodIndex : dict str) (item : raw_building)
  : option building :=
  match building_consumption prodIndex item with
  | Some r_cons =>
      Some {| bld_id := convertCod2FL (rb_id item);
              bld_name := rb_name item;
              bld_category := lit "buildings";
              bld_machine := {| speed := 1%Z; consumption := r_cons |} |}
  | None => None
  end.

(** The building goes into [mnbList], in a state with these ids and this
    name index. *)
Definition accepted (st : state) (item : raw_building) : bool :=
  negb (ids_mem (convertCod2FL (rb_id item)) st)
  && match building_of (prodIndex st) item with
     | Some _ => true
     | None => false
     end.

(** The recipes the recipe loop meets, in order, each with the id of its
    building: those of the accepted buildings. *)
Definition encountered (st : state) (items : list raw_building)
  : list (str * raw_recipe) :=
  flat_map (fun item =>
              if accepted st item
              then map (pair (convertCod2FL (rb_id item))) (rb_recipes item)
              else []) items.

(** The normalized id of a recipe. *)
Definition norm (rc : raw_recipe) : str := convertCod2FL (rr_id rc).

(** The normalized ids of recipes met by the recipe loop. *)
Definition norms (enc : list (str * raw_recipe)) : list str :=
  map (fun e => norm (snd e)) enc.

(** How many of the ids [l] are [r]. *)
Definition count (r : str) (l : list str) : Z :=
  Z.of_nat (length (filter (str_eqb r) l)).

(** [recipeIds.get(r, 0)] *)
Definition counter (d : dict Z) (r : str) : Z :=
  match dict_get d r with Some n => n | None => 0%Z end.

(** The counters have counted the ids [before]. *)
Definition counted (d : dict Z) (before : list str) : Prop :=
  forall r, counter d r = count r before.

(** The rule of the specification: the first occurrence of [r] keeps the
    bare id, the [n]-th takes the suffix [chr(95 + n)]. *)
Definition disambiguated (r : str) (n : Z) : str :=
  if (n =? 1)%Z then r else r ++ lit "-" ++ [Z.to_N (95 + n)].

(** Both ingredient lists of the recipe resolve and the outputs are not
    empty: the resolved inputs and outputs. *)
Definition resolved (prodIndex : dict str) (rc : raw_recipe)
  : option (dict num * dict num) :=
  match convertIngredientList prodIndex (rr_inputs rc) with
  | Ok r_in =>
      match convertIngredientList prodIndex (rr_outputs rc) with
      | Ok (o :: r_out) => Some (r_in, o :: r_out)
      | _ => None
      end
  | Raise _ => None
  end.

(** The output entry of the recipe [rc] of building [flabID] under the id
    [rID]. *)
Definition entry (flabID : str) (rc : raw_recipe) (rID : str)
           (io : dict num * dict num) : recipe :=
  {| rcp_id := rID;
     rcp_name := rr_name rc;
     rcp_time := rr_duration rc;
     rcp_producers := [flabID];
     rcp_row := 0%Z;
     rcp_icon := flabID;
     rcp_in := fst io;
     rcp_out := snd io |}.

(** The recipe list the specification describes for the recipes [enc] met
    in this order, the ids [before] having been met earlier: every recipe is
    counted, a recipe that resolves is listed under its disambiguated id. *)
Fixpoint emitted (prodIndex : dict str) (before : list str)
         (enc : list (str * raw_recipe)) : list recipe :=
  match enc with
  | [] => []
  | (flabID, rc) :: enc' =>
      let rID := disambiguated (norm rc) (1 + count (norm rc) before) in
      match resolved prodIndex rc with
      | Some io => [entry flabID rc rID io]
      | None => []
      end ++ emitted prodIndex (before ++ [norm rc]) enc'
  end.

(** No recipe of [enc] takes a suffix out of the range of [chr], the ids
    [before] having been met earlier. *)
Fixpoint suffixes_in_range (before : list str)
         (enc : list (str * raw_recipe)) : Prop :=
  match enc with
  | [] => True
  | e :: enc' =>
      (1 + count (norm (snd e)) before <= 0x110000 - 96)%Z
      /\ suffixes_in_range (before ++ [norm (snd e)]) enc'
  end.

(** The number of icon entries under an id. *)
Definition icons_of (id : str) (l : list icon) : nat :=
  length (filter (fun i => str_eqb (icon_id i) id) l).

(** The building records that go into [mnbList], in a state with these ids
    and this name index. *)
Definition listed_buildings (st : state) (items : list raw_building)
  : list building :=
  flat_map (fun item =>
              if accepted st item
              then match building_of (prodIndex st) item with
                   | Some b => [b]
                   | None => []
                   end
              else []) items.

(** The icon entries of the buildings that go into [mnbList]. *)
Definition listed_icons (st : state) (items : list raw_building)
  : list icon :=
  flat_map (fun item =>
              if accepted st item
              then [{| icon_id := convertCod2FL (rb_id item);
                       icon_icon := rb_icon_path item |}]
              else []) items.

(** What holds of the accumulators while the products are read: nothing
    but the catalog is filled, nothing enters [ids], the names in the index
    are the names of the listed products, and the icons are those of the
    products that came first under their name. *)
Record catalog_inv (st : state) : Prop := {
  ci_ids : ids st = [];
  ci_mnbList : mnbList st = [];
  ci_recipeIds : recipeIds st = [];
  ci_recipeList : recipeList st = [];
  ci_products :
    exists P,
      prodList st = default_products ++ P
      /\ map icon_id (iconList st)
         = map prod_id (first_named (map snd DEFAULT_PRODUCTS) P)
      /\ forall name,
          dict_mem (prodIndex st) name
          = existsb (str_eqb name) (map snd DEFAULT_PRODUCTS ++ map prod_name P)
}.

(** What the loop over [items] does to the accumulators, from the state
    [st] where the ids [before] had been counted: the catalog stays, the
    accepted buildings and their icons are appended, every recipe met is
    counted and the recipe list grows by the recipes of the specification. *)
Record trace (st : state) (before : list str) (items : list raw_building)
       (st' : state) : Prop := {
  tr_ids : ids st' = ids st;
  tr_prodList : prodList st' = prodList st;
  tr_prodIndex : prodIndex st' = prodIndex st;
  tr_mnbList : mnbList st' = mnbList st ++ listed_buildings st items;
  tr_iconList : iconList st' = iconList st ++ listed_icons st items;
  tr_counted :
    counted (recipeIds st') (before ++ norms (encountered st items));
  tr_suffixes : suffixes_in_range before (encountered st items);
  tr_recipeList :
    recipeList st'
    = recipeList st ++ emitted (prodIndex st) before (encountered st items)
}.

(** The accumulators once the products document is read.  The products
    loop never raises, see [catalog_ok]. *)
Definition catalog (products : products_doc) : state :=
  match for_each read_product (pd_products products) initial_state with
  | Ok st => st
  | Raise _ => initial_state
  end.

(** The product category the products loop reads in a type string. *)
Definition product_type (typeStr : str) : option str :=
  match re_match REX_ProdType typeStr with
  | Some (_, g) => group 1 g
  | None => None
  end.

(** Every name of both ingredient lists is in the index, and there is an
    output. *)
Definition retained (prodIndex : dict str) (rc : raw_recipe) : bool :=
  forallb (fun i => dict_mem prodIndex (ing_name i)) (rr_inputs rc)
  && forallb (fun i => dict_mem prodIndex (ing_name i)) (rr_outputs rc)
  && match rr_outputs rc with [] => false | _ :: _ => true end.

(** The output entry [r] lists the recipe [e] met by the recipe loop. *)
Definition lists (prodIndex : dict str) (e : str * raw_recipe) (r : recipe)
  : Prop :=
  rcp_name r = rr_name (snd e)
  /\ rcp_time r = rr_duration (snd e)
  /\ rcp_producers r = [fst e]
  /\ rcp_icon r = fst e
  /\ convertIngredientList prodIndex (rr_inputs (snd e)) = Ok (rcp_in r)
  /\ convertIngredientList prodIndex (rr_outputs (snd e)) = Ok (rcp_out r)
  /\ rcp_out r <> [].

(** The recipe [rc] nested in the building [item] has an entry in the
    recipe list [l]. *)
Definition listed (prodIndex : dict str) (item : raw_building)
           (rc : raw_recipe) (l : list recipe) : Prop :=
  exists r, In r l /\ lists prodIndex (convertCod2FL (rb_id item), rc) r.

(** The number of recipes in the document, met or not. *)
Definition recipe_total (items : list raw_building) : nat :=
  length (flat_map rb_recipes items).

(** * Vocabulary of the further properties *)

From Stdlib Require Import Sorted Permutation DecimalN.


(** The first name of an ingredient list that the index does not know. *)
Definition first_unknown (prodIndex : dict str) (l : list ingredient)
  : option str :=
  option_map ing_name
    (find (fun i => negb (dict_mem prodIndex (ing_name i))) l).

(** What the recipe loop prints for a recipe: the first unknown input, or
    else the first unknown output, or nothing. *)
Definition recipe_warning (prodIndex : dict str) (rc : raw_recipe)
  : list str :=
  match first_unknown prodIndex (rr_inputs rc) with
  | Some name => [lit "ValueError: Unknown ingredient: " ++ name]
  | None =>
      match first_unknown prodIndex (rr_outputs rc) with
      | Some name => [lit "ValueError: Unknown ingredient: " ++ name]
      | None => []
      end
  end.

(** The code points U+D800 to U+DFFF, which [chr] returns as any other
    and which stand for no character. *)
Definition surrogate (c : char) : bool := (0xD800 <=? c) && (c <=? 0xDFFF).

(** [s.split(sep)] for a separator of one character. *)
Fixpoint split (sep : char) (s : str) : list str :=
  match s with
  | [] => [[]]
  | c :: s' =>
      if N.eqb c sep then [] :: split sep s'
      else match split sep s' with
           | seg :: segs => (c :: seg) :: segs
           | [] => [[c]]
           end
  end.

(** The characters a match of the pattern can start with. *)
Fixpoint firsts (r : regex) (c : char) : bool :=
  match r with
  | Eps => false
  | Lit x => N.eqb c x
  | Cls p => p c
  | Seq r1 r2 => firsts r1 c || (negb (consumes r1) && firsts r2 c)
  | Alt r1 r2 => firsts r1 c || firsts r2 c
  | Opt r1 | Star r1 | Grp _ r1 => firsts r1 c
  end.

(** The order of [sorted] on ids. *)
Definition id_le (a b : str) : Prop := str_leb a b = true.

(** The text of the position of the entry of rank [k] on the sheet. *)
Definition position_text (k : nat) : str :=
  lit "-" ++ decimal ((40 * N.of_nat k) mod 1216) ++ lit "px -"
  ++ decimal ((40 * N.of_nat k) / 1216 * 64) ++ lit "px".

(** The products a well-formed entry stands for, none for the others. *)
Definition parsed (item : raw_product) : list product :=
  match parse_product item with
  | Some r => [r]
  | None => []
  end.

(** What the building loop prints for a building, in a state with these
    ids and this name index: the warnings of its recipes when it is
    accepted, and else the line about its maintenance unit. *)
Definition building_warnings (st : state) (item : raw_building) : list str :=
  if accepted st item
  then flat_map (recipe_warning (prodIndex st)) (rb_recipes item)
  else [lit "Unknown maintenance unit '" ++ rb_maintenance_cost_units item
        ++ lit "' in " ++ convertCod2FL (rb_id item)].

(** The longest prefix of characters of a class, and what follows it. *)
Fixpoint take_while (p : char -> bool) (s : str) : str :=
  match s with
  | c :: s' => if p c then c :: take_while p s' else []
  | [] => []
  end.

Fixpoint drop_while (p : char -> bool) (s : str) : str :=
  match s with
  | c :: s' => if p c then drop_while p s' else s
  | [] => []
  end.

(** [s] without the prefix [l], when it starts with it. *)
Fixpoint strip_prefix (l s : str) : option str :=
  match l with
  | [] => Some s
  | c :: l' =>
      match s with
      | x :: s' => if N.eqb x c then strip_prefix l' s' else None
      | [] => None
      end
  end.

(** The first character of [s] is of the class. *)
Definition starts (p : char -> bool) (s : str) : bool :=
  match s with
  | c :: _ => p c
  | [] => false
  end.

(** The token at the head of a name, read without the pattern: a capital
    and the lowercase letters after it when there is one; or a capital and
    the capitals after it when there is one; or a decimal digit, with the
    capital after it if there is one. *)
Definition next_token (s : str) : option str :=
  match s with
  | [] => None
  | c :: s' =>
      if cls_upper c && starts cls_lower s'
      then Some (c :: take_while cls_lower s')
      else if cls_upper c && starts cls_upper s'
      then Some (c :: take_while cls_upper s')
      else if cls_d c
      then Some (c :: if starts cls_upper s' then firstn 1 s' else [])
      else None
  end.

(** The tokens of a name from left to right, [skip] characters of the
    last token being still to pass. *)
Fixpoint tokenize_from (skip : nat) (s : str) : list str :=
  match s with
  | [] => []
  | _ :: s' =>
      match skip with
      | S j => tokenize_from j s'
      | O =>
          match next_token s with
          | Some tok => tok :: tokenize_from (Nat.pred (length tok)) s'
          | None => tokenize_from 0%nat s'
          end
      end
  end.

(** [REX_Product.match(idStr).group(2)], none without a match. *)
Definition wrapped_id (idStr : str) : option str :=
  match re_match REX_Product idStr with
  | Some (_, g) => group 2 g
  | None => None
  end.

(** The letters and digits at the head of [s], when there are any. *)
Definition alnum_run (s : str) : option str :=
  match take_while cls_alnum s with
  | [] => None
  | run => Some run
  end.

(** The bare id of a wrapped id, read without the pattern: after
    "Product_", the letters and digits that follow "Virtual_" when it is
    there and some do follow it, and else the letters and digits at
    hand. *)
Definition unwrap (idStr : str) : option str :=
  match strip_prefix (lit "Product_") idStr with
  | None => None
  | Some s1 =>
      match strip_prefix (lit "Virtual_") s1 with
      | Some s2 =>
          match alnum_run s2 with
          | Some run => Some run
          | None => alnum_run s1
          end
      | None => alnum_run s1
      end
  end.

(** The category of a type string, read without the pattern: a capital
    and the lowercase letters and digits after it, at least one, when
    "ProductProto" follows them. *)
Definition type_prefix (typeStr : str) : option str :=
  match typeStr with
  | c :: t =>
      if cls_upper c && starts cls_lower09 t then
        match strip_prefix (lit "ProductProto") (drop_while cls_lower09 t) with
        | Some _ => Some (c :: take_while cls_lower09 t)
        | None => None
        end
      else None
  | [] => None
  end.

(** The rounds of a starred class, the longest run first. *)
Fixpoint star_spec (A : Type) (p : char -> bool)
         (k : str -> captures -> option A) (s : str) (g : captures)
  : option A :=
  match s with
  | c :: s' =>
      if p c then
        match star_spec p k s' g with
        | Some x => Some x
        | None => k s g
        end
      else k s g
  | [] => k s g
  end.


(** * Sample documents *)

Module Sample.

(** The minimal documents of the end-to-end property. *)
Definition iron : raw_product :=
  {| rp_type := lit "CountableProductProto";
     rp_id := lit "Product_Iron";
     rp_name := lit "Iron";
     rp_icon_path := lit "iron.png" |}.

Definition products : products_doc :=
  {| pd_game_version := lit "0.6.3"; pd_products := [iron] |}.

Definition smelt_iron : raw_recipe :=
  {| rr_id := lit "SmeltIron";
     rr_name := lit "Iron smelting";
     rr_duration := 20%Z;
     rr_inputs := [];
     rr_outputs := [ {| ing_name := lit "Iron"; ing_quantity := 1%Z |} ] |}.

Definition smelter (recipes : list raw_recipe) : raw_building :=
  {| rb_id := lit "SmelterT1";
     rb_name := lit "Blast furnace";
     rb_workers := 0%Z;
     rb_electricity_consumed := 0%Z;
     rb_maintenance_cost_units := [];
     rb_maintenance_cost_quantity := 0%Z;
     rb_icon_path := lit "smelter.png";
     rb_recipes := recipes |}.

Definition buildings : buildings_doc :=
  {| bd_game_version := lit "0.6.3";
     bd_machines_and_buildings := [smelter [smelt_iron]] |}.

(** The same buildings, dumped from another version of the game. *)
Definition other_version : buildings_doc :=
  {| bd_game_version := lit "0.6.4";
     bd_machines_and_buildings := [smelter [smelt_iron]] |}.

(** A second product under the wrapped id of the first, and a building
    whose id normalizes to the id of both. *)
Definition iron_plate : raw_product :=
  {| rp_type := lit "CountableProductProto";
     rp_id := lit "Product_Iron";
     rp_name := lit "Iron plate";
     rp_icon_path := lit "plate.png" |}.

Definition twin_products : products_doc :=
  {| pd_game_version := lit "0.6.3"; pd_products := [iron; iron_plate] |}.

Definition iron_building : raw_building :=
  {| rb_id := lit "Iron";
     rb_name := lit "Iron works";
     rb_workers := 2%Z;
     rb_electricity_consumed := 0%Z;
     rb_maintenance_cost_units := [];
     rb_maintenance_cost_quantity := 0%Z;
     rb_icon_path := lit "works.png";
     rb_recipes := [] |}.

Definition twin_buildings : buildings_doc :=
  {| bd_game_version := lit "0.6.3";
     bd_machines_and_buildings := [iron_building] |}.

(** A second product under the display name of the first, with an id of
    its own. *)
Definition iron_ore : raw_product :=
  {| rp_type := lit "LooseProductProto";
     rp_id := lit "Product_IronOre";
     rp_name := lit "Iron";
     rp_icon_path := lit "ore.png" |}.

Definition namesake_products : products_doc :=
  {| pd_game_version := lit "0.6.3"; pd_products := [iron; iron_ore] |}.

(** Recipes that share one normalized id: the first asks for a product
    nobody declared, the next ones resolve. *)
Definition smelt_iron_from (name : string) : raw_recipe :=
  {| rr_id := lit "SmeltIron";
     rr_name := lit "Iron smelting";
     rr_duration := 20%Z;
     rr_inputs := [ {| ing_name := lit name; ing_quantity := 4%Z |} ];
     rr_outputs := [ {| ing_name := lit "Iron"; ing_quantity := 1%Z |} ] |}.

Definition arc_furnace (recipes : list raw_recipe) : raw_building :=
  {| rb_id := lit "ArcFurnace";
     rb_name := lit "Arc furnace";
     rb_workers := 4%Z;
     rb_electricity_consumed := 400%Z;
     rb_maintenance_cost_units := [];
     rb_maintenance_cost_quantity := 0%Z;
     rb_icon_path := lit "arc.png";
     rb_recipes := recipes |}.

(** One building, the unresolved recipe first. *)
Definition dropped_first : buildings_doc :=
  {| bd_game_version := lit "0.6.3";
     bd_machines_and_buildings :=
       [smelter [smelt_iron_from "Scrap"; smelt_iron]] |}.

(** Three resolving recipes of one id over two buildings. *)
Definition three_recipes : buildings_doc :=
  {| bd_game_version := lit "0.6.3";
     bd_machines_and_buildings :=
       [smelter [smelt_iron; smelt_iron_from "Workers"];
        arc_furnace [smelt_iron_from "Iron"]] |}.

(** A recipe with no output between two that resolve, and one with an
    unknown input. *)
Definition idle : raw_recipe :=
  {| rr_id := lit "Idle";
     rr_name := lit "Idle";
     rr_duration := 1%Z;
     rr_inputs := [ {| ing_name := lit "Iron"; ing_quantity := 1%Z |} ];
     rr_outputs := [] |}.

Definition mixed : buildings_doc :=
  {| bd_game_version := lit "0.6.3";
     bd_machines_and_buildings :=
       [smelter [smelt_iron; idle; smelt_iron_from "Scrap";
                 smelt_iron_from "Iron"]] |}.

(** A building whose maintenance unit is not a product of the dump. *)
Definition unmaintained_smelter : raw_building :=
  {| rb_id := lit "SmelterT1";
     rb_name := lit "Blast furnace";
     rb_workers := 0%Z;
     rb_electricity_consumed := 0%Z;
     rb_maintenance_cost_units := lit "Maintenance I";
     rb_maintenance_cost_quantity := 2%Z;
     rb_icon_path := lit "smelter.png";
     rb_recipes := [smelt_iron] |}.

Definition unmaintained : buildings_doc :=
  {| bd_game_version := lit "0.6.3";
     bd_machines_and_buildings := [unmaintained_smelter] |}.

End Sample.

(** * Further sample documents *)

Module Extra.

(** A building that employs four workers and is maintained in "Workers". *)
Definition barracks : raw_building :=
  {| rb_id := lit "Barracks";
     rb_name := lit "Barracks";
     rb_workers := 4%Z;
     rb_electricity_consumed := 30%Z;
     rb_maintenance_cost_units := lit "Workers";
     rb_maintenance_cost_quantity := 7%Z;
     rb_icon_path := lit "barracks.png";
     rb_recipes := [] |}.

Definition garrison : buildings_doc :=
  {| bd_game_version := lit "0.6.3";
     bd_machines_and_buildings :=
       [barracks; Sample.unmaintained_smelter;
        Sample.smelter [Sample.smelt_iron_from "Scrap"; Sample.idle]] |}.

End Extra.
(** * Properties *)

(** ** Strings and dictionaries *)

Lemma str_eqb_eq (a b : str) : str_eqb a b = true <-> a = b.
Proof.
  revert b; induction a as [|x a IH]; intros [|y b]; simpl;
    try (split; [discriminate | congruence]); try tauto.
  rewrite andb_true_iff, N.eqb_eq, IH.
  split; [intros [-> ->]; reflexivity | intros H; inversion H; auto].
Qed.

Lemma str_eqb_refl (a : str) : str_eqb a a = true.
Proof. apply str_eqb_eq; reflexivity. Qed.

Lemma str_eqb_neq (a b : str) : str_eqb a b = false <-> a <> b.
Proof.
  rewrite <- str_eqb_eq. destruct (str_eqb a b); split; congruence.
Qed.

Lemma str_eq_dec (a b : str) : {a = b} + {a <> b}.
Proof.
  destruct (str_eqb a b) eqn:E; [left; now apply str_eqb_eq
                                | right; now apply str_eqb_neq].
Defined.

Section DictFacts.
Variable V : Type.
Implicit Types (d : dict V) (k : str) (v : V).

Lemma dict_get_set_same d k v : dict_get (dict_set d k v) k = Some v.
Proof.
  induction d as [|[k' v'] d IH]; simpl.
  - now rewrite str_eqb_refl.
  - destruct (str_eqb k k') eqn:E; simpl; rewrite E; auto.
Qed.

Lemma dict_get_set_other d k k' v :
  k' <> k -> dict_get (dict_set d k v) k' = dict_get d k'.
Proof.
  intros Hne. induction d as [|[k0 v0] d IH]; simpl.
  - apply str_eqb_neq in Hne. now rewrite Hne.
  - destruct (str_eqb k k0) eqn:E; simpl.
    + apply str_eqb_eq in E; subst k0.
      apply str_eqb_neq in Hne. now rewrite Hne.
    + destruct (str_eqb k' k0); auto.
Qed.

Lemma dict_set_fresh d k v :
  dict_get d k = None -> dict_set d k v = d ++ [(k, v)].
Proof.
  induction d as [|[k0 v0] d IH]; simpl; auto.
  destruct (str_eqb k k0); [discriminate|].
  intros H. now rewrite IH.
Qed.

Lemma dict_mem_false d k : dict_mem d k = false <-> dict_get d k = None.
Proof. unfold dict_mem. destruct (dict_get d k); split; congruence. Qed.

Lemma dict_mem_true d k : dict_mem d k = true <-> dict_get d k <> None.
Proof. unfold dict_mem. destruct (dict_get d k); split; congruence. Qed.
End DictFacts.

(** ** The matcher against a declarative reading of the patterns *)


#[local] Hint Constructors matches : core.

(** What the matcher accepts, the relation accepts. *)
Lemma rx_sound (A : Type) (r : regex) :
  forall s g (k : str -> captures -> option A) x,
    rx r s g k = Some x ->
    exists s' g', matches r s g s' g' /\ k s' g' = Some x.
Proof.
  induction r as [|c|p|r1 IH1 r2 IH2|r1 IH1 r2 IH2|r1 IH1|r1 IH1|i r1 IH1];
    intros s g k x H; simpl in H.
  - eauto.
  - destruct s as [|y s']; [discriminate|].
    destruct (N.eqb y c) eqn:E; [|discriminate].
    apply N.eqb_eq in E; subst y. eauto.
  - destruct s as [|y s']; [discriminate|].
    destruct (p y) eqn:E; [|discriminate]. eauto.
  - apply IH1 in H as (s1 & g1 & M1 & H).
    apply IH2 in H as (s2 & g2 & M2 & H). eauto.
  - destruct (rx r1 s g k) eqn:E.
    + inversion H; subst. apply IH1 in E as (s' & g' & M & E). eauto.
    + apply IH2 in H as (s' & g' & M & E'). eauto.
  - destruct (rx r1 s g k) eqn:E.
    + inversion H; subst. apply IH1 in E as (s' & g' & M & E). eauto.
    + eauto.
  - revert H. generalize (length s). intros n. revert s g.
    induction n as [|n IHn]; intros s g H; cbn [star_rounds] in H.
    + eauto.
    + match type of H with
      | match ?c with _ => _ end = _ => destruct c eqn:E
      end.
      * inversion H; subst.
        apply IH1 in E as (s1 & g1 & M1 & E).
        destruct (Nat.ltb (length s1) (length s)); [|discriminate].
        apply IHn in E as (s2 & g2 & M2 & E). eauto.
      * eauto.
  - apply IH1 in H as (s' & g' & M & H).
    do 2 eexists; split; [apply M_Grp; eassumption | exact H].
Qed.


Lemma matches_split r s g s' g' :
  matches r s g s' g' ->
  exists tok, s = tok ++ s' /\ Forall (alphabet r) tok.
Proof.
  induction 1; simpl;
    repeat match goal with
           | H : exists _, _ |- _ => destruct H as (? & ? & ?)
           end; subst.
  - exists []; auto.
  - exists [c]; auto.
  - exists [c]; auto.
  - eexists (_ ++ _); rewrite <- app_assoc; split; [reflexivity|].
    apply Forall_app; split; (eapply Forall_impl; [|eassumption]; simpl; tauto).
  - eexists; split; [reflexivity|]. (eapply Forall_impl; [|eassumption]; simpl; tauto).
  - eexists; split; [reflexivity|]. (eapply Forall_impl; [|eassumption]; simpl; tauto).
  - eauto.
  - exists []; auto.
  - exists []; auto.
  - eexists (_ ++ _); rewrite <- app_assoc; split; [reflexivity|].
    apply Forall_app; split; auto.
  - eauto.
Qed.

Lemma firstn_consumed (tok rest : str) :
  firstn (length (tok ++ rest) - length rest) (tok ++ rest) = tok.
Proof.
  rewrite length_app, Nat.add_sub.
  rewrite firstn_app, Nat.sub_diag, firstn_all. simpl. apply app_nil_r.
Qed.

(** A match is a prefix of the input made of characters of the pattern. *)
Lemma re_match_prefix r s tok g :
  re_match r s = Some (tok, g) ->
  exists rest g0, s = tok ++ rest /\ Forall (alphabet r) tok
                  /\ matches r s [] rest g0 /\ g = g0.
Proof.
  unfold re_match. intros H.
  apply rx_sound in H as (rest & g0 & M & H).
  destruct (matches_split M) as (tok' & -> & Hall).
  rewrite firstn_consumed in H. inversion H; subst. eauto 6.
Qed.


Lemma matches_group i r s g s' g' :
  matches r s g s' g' ->
  (group i g <> None -> group i g' <> None)
  /\ (sets i r = true -> group i g' <> None).
Proof.
  induction 1; simpl; try (split; [tauto | discriminate]).
  - destruct IHmatches1, IHmatches2.
    split; [tauto|]. rewrite orb_true_iff. tauto.
  - destruct IHmatches. split; [tauto|]. rewrite andb_true_iff. tauto.
  - destruct IHmatches. split; [tauto|]. rewrite andb_true_iff. tauto.
  - destruct IHmatches.
    destruct (Nat.eqb i i0); simpl; split; try discriminate; tauto.
Qed.

Lemma re_match_group i r s tok g :
  sets i r = true -> re_match r s = Some (tok, g) -> group i g <> None.
Proof.
  intros Hs H. apply re_match_prefix in H as (rest & g0 & _ & _ & M & ->).
  destruct (matches_group i M) as [_ Hg]. auto.
Qed.

(** *** The bound on the rounds of a star is enough *)

Lemma star_rounds_ext (A : Type) step (k k' : str -> captures -> option A) :
  (forall s g c c', (forall s' g', c s' g' = c' s' g') ->
                    step s g c = step s g c') ->
  (forall s g, k s g = k' s g) ->
  forall n s g, star_rounds step k n s g = star_rounds step k' n s g.
Proof.
  intros Hstep Hk. induction n as [|n IH]; intros s g; cbn [star_rounds].
  - apply Hk.
  - rewrite Hk.
    rewrite (Hstep s g _ (fun s' g' =>
               if Nat.ltb (length s') (length s)
               then star_rounds step k' n s' g' else None));
      [reflexivity|].
    intros s' g'. destruct (Nat.ltb _ _); auto.
Qed.

(** The matcher only looks at the values of its continuation. *)
Lemma rx_ext (A : Type) (r : regex) :
  forall s g (k k' : str -> captures -> option A),
    (forall s' g', k s' g' = k' s' g') -> rx r s g k = rx r s g k'.
Proof.
  induction r as [|c|p|r1 IH1 r2 IH2|r1 IH1 r2 IH2|r1 IH1|r1 IH1|i r1 IH1];
    intros s g k k' H; cbn [rx].
  - apply H.
  - destruct s as [|x s]; [reflexivity|]. destruct (N.eqb x c); auto.
  - destruct s as [|x s]; [reflexivity|]. destruct (p x); auto.
  - apply IH1. intros s' g'. now apply IH2.
  - rewrite (IH1 s g k k' H), (IH2 s g k k' H). reflexivity.
  - rewrite (IH1 s g k k' H), H. reflexivity.
  - apply star_rounds_ext; [|exact H].
    intros s0 g0 c c' Hc. now apply IH1.
  - apply IH1. intros s' g'. apply H.
Qed.

Lemma rx_none (A : Type) (r : regex) :
  forall s g, rx r s g (fun _ _ => @None A) = None.
Proof.
  induction r as [|c|p|r1 IH1 r2 IH2|r1 IH1 r2 IH2|r1 IH1|r1 IH1|i r1 IH1];
    intros s g; cbn [rx].
  - reflexivity.
  - destruct s as [|x s]; [reflexivity|]. destruct (N.eqb x c); auto.
  - destruct s as [|x s]; [reflexivity|]. destruct (p x); auto.
  - rewrite (rx_ext r1 s g _ (fun _ _ => None)); [apply IH1|].
    intros s' g'. apply IH2.
  - now rewrite IH1, IH2.
  - now rewrite IH1.
  - generalize (length s). intros n. revert s g.
    induction n as [|n IHn]; intros s g; cbn [star_rounds]; [reflexivity|].
    rewrite (rx_ext r1 s g _ (fun _ _ => None)); [now rewrite IH1|].
    intros s' g'. destruct (Nat.ltb _ _); auto.
  - apply IH1.
Qed.

(** Any bound from the length of the input on gives the same rounds: the
    star never stops for want of rounds. *)
Lemma star_rounds_enough (A : Type) (r : regex)
      (k : str -> captures -> option A) :
  forall n m s g,
    (length s <= n)%nat -> (length s <= m)%nat ->
    star_rounds (rx r) k n s g = star_rounds (rx r) k m s g.
Proof.
  assert (Hnil : forall n g, star_rounds (rx r) k n [] g = k [] g).
  { intros [|n] g; cbn [star_rounds]; [reflexivity|].
    rewrite (rx_ext r [] g _ (fun _ _ => None)); [now rewrite rx_none|].
    reflexivity. }
  induction n as [|n IH]; intros m s g Hn Hm.
  - destruct s; [|simpl in Hn; lia]. now rewrite !Hnil.
  - destruct m as [|m].
    + destruct s; [|simpl in Hm; lia]. now rewrite !Hnil.
    + cbn [star_rounds].
      rewrite (rx_ext r s g _ (fun s' g' =>
                 if Nat.ltb (length s') (length s)
                 then star_rounds (rx r) k m s' g' else None));
        [reflexivity|].
      intros s' g'. destruct (Nat.ltb (length s') (length s)) eqn:E;
        [|reflexivity].
      apply Nat.ltb_lt in E. apply IH; lia.
Qed.

(** *** Matches that consume *)

Lemma matches_shorter r s g s' g' :
  matches r s g s' g' ->
  (length s' <= length s)%nat
  /\ (consumes r = true -> (length s' < length s)%nat).
Proof.
  induction 1; cbn [consumes length];
    rewrite ?orb_true_iff, ?andb_true_iff;
    repeat match goal with H : _ /\ _ |- _ => destruct H end;
    split; try discriminate; try lia; intuition lia.
Qed.

Lemma re_match_nonempty r s tok g :
  consumes r = true -> re_match r s = Some (tok, g) -> tok <> [].
Proof.
  intros Hc H. apply re_match_prefix in H as (rest & g0 & Hs & _ & M & _).
  apply matches_shorter in M as [_ M]. specialize (M Hc).
  intros ->. simpl in Hs. subst. lia.
Qed.

(** ** The identifier translator *)

Lemma findall_from_tokens r :
  forall s skip,
    Forall (Forall (fun c => alphabet r c /\ In c s)) (findall_from r skip s).
Proof.
  induction s as [|c s IH]; intros skip; cbn [findall_from]; [constructor|].
  assert (Hweak : forall k,
             Forall (Forall (fun x => alphabet r x /\ In x (c :: s)))
                    (findall_from r k s)).
  { intros k. eapply Forall_impl; [|apply IH].
    intros tok Htok. eapply Forall_impl; [|exact Htok].
    simpl. tauto. }
  destruct skip as [|j]; [|apply Hweak].
  destruct (re_match r (c :: s)) as [[tok g]|] eqn:E; [|apply Hweak].
  constructor; [|apply Hweak].
  apply re_match_prefix in E as (rest & g0 & Hs & Hall & _).
  apply Forall_forall. intros x Hx. split.
  - eapply Forall_forall in Hall; eauto.
  - rewrite Hs. apply in_or_app. auto.
Qed.

(** The pattern of the translator never matches the empty string, which
    is what [findall_from] relies on. *)
Lemma CoDNaming_tokens_nonempty X :
  Forall (fun tok => tok <> []) (findall REX_CoDNaming X).
Proof.
  unfold findall. generalize 0%nat.
  induction X as [|c X IH]; intros skip; cbn [findall_from]; [constructor|].
  destruct skip as [|j]; [|apply IH].
  destruct (re_match REX_CoDNaming (c :: X)) as [[tok g]|] eqn:E; [|apply IH].
  constructor; [|apply IH].
  eapply re_match_nonempty; [|exact E]. reflexivity.
Qed.

Lemma Forall_join (P : char -> Prop) sep l :
  Forall P sep -> Forall (Forall P) l -> Forall P (join sep l).
Proof.
  intros Hsep. induction 1 as [|x l Hx Hl IH]; simpl; [constructor|].
  destruct l as [|y l]; [assumption|].
  apply Forall_app; split; [assumption|].
  apply Forall_app; split; assumption.
Qed.

Lemma lower_app a b : lower (a ++ b) = lower a ++ lower b.
Proof. apply map_app. Qed.

Lemma lower_join sep l : lower (join sep l) = join (lower sep) (map lower l).
Proof.
  induction l as [|x l IH]; simpl; [reflexivity|].
  destruct l as [|y l]; [reflexivity|].
  rewrite !lower_app, IH. reflexivity.
Qed.

Lemma in_range_iff lo hi c : in_range lo hi c = true <-> lo <= c <= hi.
Proof. unfold in_range. rewrite andb_true_iff, !N.leb_le. tauto. Qed.

Lemma lower_char_upper c : cls_upper c = true -> cls_lower (lower_char c) = true.
Proof.
  unfold lower_char. intros H. rewrite H.
  unfold cls_upper, cls_lower in *. rewrite in_range_iff in *. lia.
Qed.

Lemma alphabet_CoDNaming c :
  alphabet REX_CoDNaming c ->
  cls_upper c = true \/ cls_lower c = true \/ cls_d c = true.
Proof. simpl. tauto. Qed.


Lemma convertCod2FL_chars X :
  Forall (fun c => cls_lower c = true \/ c = 45
                   \/ (cls_d c = true /\ In c X)) (convertCod2FL X).
Proof.
  unfold convertCod2FL, lower. apply Forall_map.
  apply Forall_join.
  - constructor; [right; left; reflexivity | constructor].
  - eapply Forall_impl; [|apply findall_from_tokens].
    intros tok Htok. eapply Forall_impl; [|exact Htok].
    intros c [Ha Hin]. simpl.
    destruct (cls_upper c) eqn:U.
    + left. now apply lower_char_upper.
    + unfold lower_char. rewrite U.
      apply alphabet_CoDNaming in Ha. intuition congruence.
Qed.

(** A decimal digit below U+0080 is one of [0-9]. *)
Lemma cls_d_ascii c : c < 128 -> cls_d c = true -> cls_09 c = true.
Proof.
  intros Hc. unfold cls_d. rewrite orb_true_iff, existsb_exists.
  intros [(b & Hin & Hr)|Hr]; apply in_range_iff in Hr.
  - apply in_range_iff. simpl in Hin.
    repeat (destruct Hin as [<-|Hin]; [lia|]). contradiction.
  - lia.
Qed.

(** C8, amended: the translator is a total function that lowercases the
    matched tokens and joins them with hyphens; every character of the
    result is a letter a-z, a hyphen or a decimal digit of the input, so
    it is in [a-z0-9-] whenever the only decimal digits of the input are
    0-9 (any ASCII input); and no token gives the empty string. *)
Theorem convertCod2FL_normalized (X : str) :
  convertCod2FL X = join (lit "-") (map lower (findall REX_CoDNaming X))
  /\ Forall (fun c => cls_lower c = true \/ c = 45 \/ cls_d c = true)
            (convertCod2FL X)
  /\ (Forall (fun c => cls_d c = true -> cls_09 c = true) X ->
      Forall (fun c => id_char c = true) (convertCod2FL X))
  /\ (findall REX_CoDNaming X = [] -> convertCod2FL X = []).
Proof.
  split; [|split; [|split]].
  - unfold convertCod2FL. now rewrite lower_join.
  - eapply Forall_impl; [|apply convertCod2FL_chars]. simpl. tauto.
  - intros Hascii. eapply Forall_impl; [|apply convertCod2FL_chars].
    intros c H. unfold id_char. rewrite !orb_true_iff, N.eqb_eq.
    destruct H as [H|[H|[Hd Hin]]]; auto.
    left; right. eapply Forall_forall in Hascii; eauto.
  - unfold convertCod2FL. now intros ->.
Qed.

(** 'MaintenanceT2', the example of the docstring, is ASCII. *)
Lemma convertCod2FL_normalized_witness :
  Forall (fun c => id_char c = true) (convertCod2FL (lit "MaintenanceT2"))
  /\ convertCod2FL (lit "iron") = [].
Proof.
  split.
  - apply (proj1 (proj2 (proj2 (convertCod2FL_normalized (lit "MaintenanceT2"))))).
    apply Forall_forall. intros c Hin. apply cls_d_ascii.
    simpl in Hin.
    repeat (destruct Hin as [<-|Hin]; [reflexivity|]). contradiction.
  - apply (proj2 (proj2 (proj2 (convertCod2FL_normalized (lit "iron"))))).
    reflexivity.
Defined.

(** C8 as stated fails on a digit of another script: U+0663, ARABIC-INDIC
    DIGIT THREE, is matched by [\d] and comes out unchanged. *)
Lemma convertCod2FL_arabic_digit :
  convertCod2FL [0x663] = [0x663]
  /\ ~ Forall (fun c => id_char c = true) (convertCod2FL [0x663]).
Proof.
  split; [reflexivity|].
  intros H. inversion H as [|c l Hc _]; subst. discriminate Hc.
Qed.

(** ** The ingredient resolver *)

Section Resolver.
Variable prodIndex : dict str.

Lemma convertIngredientList_loop_raises ingredients :
  forall ret,
    Exists (unknown prodIndex) ingredients ->
    exists pre i post,
      ingredients = pre ++ i :: post /\ Forall (known prodIndex) pre
      /\ unknown prodIndex i
      /\ convertIngredientList_loop prodIndex ret ingredients
         = Raise (ValueError (lit "Unknown ingredient: " ++ ing_name i)).
Proof.
  induction ingredients as [|a l IH]; intros ret Hex.
  - inversion Hex.
  - simpl. destruct (dict_get prodIndex (ing_name a)) as [p|] eqn:E.
    + assert (Hl : Exists (unknown prodIndex) l).
      { inversion Hex; subst; auto. unfold unknown in *. congruence. }
      destruct (IH (dict_set ret p (ing_quantity a)) Hl)
        as (pre & i & post & -> & Hpre & Hi & Hr).
      exists (a :: pre), i, post. repeat split; auto.
      constructor; auto. unfold known. congruence.
    + exists [], a, l. repeat split; auto.
Qed.

Lemma convertIngredientList_loop_returns ingredients :
  forall ret,
    Forall (known prodIndex) ingredients ->
    exists ret',
      convertIngredientList_loop prodIndex ret ingredients = Ok ret'
      /\ forall id q,
          dict_get ret' id = Some q <->
          (exists pre i post,
              ingredients = pre ++ i :: post /\ resolves_to prodIndex id i
              /\ ing_quantity i = q
              /\ Forall (fun j => ~ resolves_to prodIndex id j) post)
          \/ (Forall (fun j => ~ resolves_to prodIndex id j) ingredients
              /\ dict_get ret id = Some q).
Proof.
  induction ingredients as [|a l IH]; intros ret Hall.
  - exists ret. split; [reflexivity|]. intros id q. split.
    + auto.
    + intros [(pre & i & post & H & _)|[_ H]]; auto.
      destruct pre; discriminate.
  - inversion Hall as [|? ? Ha Hl]; subst. simpl.
    destruct (dict_get prodIndex (ing_name a)) as [p|] eqn:E;
      [|contradiction].
    destruct (IH (dict_set ret p (ing_quantity a)) Hl) as (ret' & -> & Hret).
    exists ret'. split; [reflexivity|]. intros id q.
    rewrite Hret. clear Hret. split.
    + intros [(pre & i & post & -> & Hi & Hq & Hpost)|[Hnone Hget]].
      * left. exists (a :: pre), i, post. auto.
      * destruct (str_eq_dec id p) as [->|Hne].
        -- rewrite dict_get_set_same in Hget. inversion Hget; subst.
           left. exists [], a, l. auto.
        -- rewrite dict_get_set_other in Hget by assumption.
           right. split; auto. constructor; auto.
           unfold resolves_to. congruence.
    + intros [(pre & i & post & Heq & Hi & Hq & Hpost)|[Hnone Hget]].
      * destruct pre as [|b pre]; simpl in Heq; inversion Heq; subst.
        -- right. split; auto. unfold resolves_to in Hi.
           rewrite E in Hi. inversion Hi; subst.
           apply dict_get_set_same.
        -- left. exists pre, i, post. auto.
      * inversion Hnone as [|? ? Hna Hnl]; subst.
        right. split; auto.
        rewrite dict_get_set_other; auto.
        unfold resolves_to in Hna. congruence.
Qed.
End Resolver.

(** C3: resolution is all or nothing.  With an unknown name in the list the
    call raises "Unknown ingredient" with the first such name and returns no
    dictionary; with every name known it returns the dictionary that gives,
    for each product id, the quantity of the last ingredient standing for
    it, and nothing else. *)
Theorem convertIngredientList_all_or_nothing
        (prodIndex : dict str) (ingredients : list ingredient) :
  (Exists (unknown prodIndex) ingredients ->
   exists pre i post,
     ingredients = pre ++ i :: post
     /\ Forall (known prodIndex) pre /\ unknown prodIndex i
     /\ convertIngredientList prodIndex ingredients
        = Raise (ValueError (lit "Unknown ingredient: " ++ ing_name i)))
  /\ (Forall (known prodIndex) ingredients ->
      exists ret,
        convertIngredientList prodIndex ingredients = Ok ret
        /\ forall id q,
            dict_get ret id = Some q <->
            exists pre i post,
              ingredients = pre ++ i :: post /\ resolves_to prodIndex id i
              /\ ing_quantity i = q
              /\ Forall (fun j => ~ resolves_to prodIndex id j) post).
Proof.
  split.
  - apply convertIngredientList_loop_raises.
  - intros Hall.
    destruct (convertIngredientList_loop_returns [] Hall)
      as (ret & Hret & Hget).
    exists ret. split; [exact Hret|]. intros id q. rewrite Hget.
    split; [|auto]. intros [H|[_ H]]; [exact H | discriminate].
Qed.

(** ** Loops *)

Lemma for_each_app (X S : Type) (body : X -> S -> result S) l1 l2 st :
  for_each body (l1 ++ l2) st
  = (st' <- for_each body l1 st ;; for_each body l2 st').
Proof.
  revert st. induction l1 as [|x l1 IH]; intros st; simpl; [reflexivity|].
  destruct (body x st); simpl; auto.
Qed.

Lemma for_each_inv (X S : Type) (body : X -> S -> result S) (I : S -> Prop) :
  (forall x s s', I s -> body x s = Ok s' -> I s') ->
  forall l st st', I st -> for_each body l st = Ok st' -> I st'.
Proof.
  intros Hstep. induction l as [|x l IH]; simpl; intros st st' Hst H.
  - inversion H; subst; assumption.
  - destruct (body x st) as [s|e] eqn:E; simpl in H; [|discriminate].
    eauto.
Qed.

Lemma for_each_total (X S : Type) (body : X -> S -> result S) :
  (forall x s, exists s', body x s = Ok s') ->
  forall l st, exists st', for_each body l st = Ok st'.
Proof.
  intros Hstep. induction l as [|x l IH]; simpl; intros st; eauto.
  destruct (Hstep x st) as (s & ->). simpl. apply IH.
Qed.

(** Projections of the accumulators after an update. *)
Ltac simpl_state :=
  cbn [ids iconList prodList prodIndex mnbList recipeIds recipeList stdout
       print prodList_append prodIndex_set iconList_append mnbList_append
       recipeIds_put recipeList_append] in *.

(** ** The product catalog *)

Lemma sets_REX_Product : sets 2 REX_Product = true.
Proof. reflexivity. Qed.

(** The three ways an entry of the products document is read. *)
Lemma read_product_cases item st :
  match parse_product item with
  | None => exists msg, read_product item st = Ok (print msg st)
  | Some r =>
      prod_name r = rp_name item
      /\ read_product item st =
         Ok (if ids_mem (prod_id r) st then
               print (lit "Duplicate product ID " ++ prod_id r) st
             else if dict_mem (prodIndex st) (rp_name item) then
               print (lit "Duplicate name '" ++ rp_name item ++ lit "'")
                     (prodList_append r st)
             else
               iconList_append
                 {| icon_id := prod_id r; icon_icon := rp_icon_path item |}
                 (prodIndex_set (rp_name item) (prod_id r)
                    (prodList_append r st)))
  end.
Proof.
  unfold parse_product, read_product.
  destruct (re_match REX_ProdType (rp_type item)) as [[tok g]|]; [|eauto].
  destruct (group 1 g) as [typeStr|]; [|eauto].
  destruct (dict_mem PRODUCT_TYPES typeStr); simpl; [|eauto].
  destruct (re_match REX_Product (rp_id item)) as [[tok2 g2]|] eqn:E; [|eauto].
  pose proof (re_match_group 2 _ _ sets_REX_Product E) as Hg.
  destruct (group 2 g2) as [bare|]; [|congruence].
  simpl. split; [reflexivity|].
  destruct (ids_mem (convertCod2FL bare) st); [reflexivity|].
  destruct (dict_mem (prodIndex st) (rp_name item)); reflexivity.
Qed.

Lemma read_product_total item st : exists st', read_product item st = Ok st'.
Proof.
  pose proof (read_product_cases item st) as H.
  destruct (parse_product item) as [r|].
  - destruct H as [_ ->]. eauto.
  - destruct H as (msg & ->). eauto.
Qed.

Lemma read_products_total l st :
  exists st', for_each read_product l st = Ok st'.
Proof. apply for_each_total, read_product_total. Qed.

Lemma existsb_str_eqb_In x l : existsb (str_eqb x) l = true <-> In x l.
Proof.
  rewrite existsb_exists. split.
  - intros (y & Hin & E). apply str_eqb_eq in E. now subst.
  - intros H. exists x. split; [assumption | apply str_eqb_refl].
Qed.

Lemma existsb_str_eqb_ext x l1 l2 :
  (In x l1 <-> In x l2) ->
  existsb (str_eqb x) l1 = existsb (str_eqb x) l2.
Proof.
  intros H. apply eq_true_iff_eq. now rewrite !existsb_str_eqb_In.
Qed.

Lemma first_named_snoc l :
  forall seen p,
    first_named seen (l ++ [p])
    = first_named seen l
      ++ (if existsb (str_eqb (prod_name p)) (seen ++ map prod_name l)
          then [] else [p]).
Proof.
  induction l as [|q l IH]; intros seen p; simpl.
  - rewrite app_nil_r.
    destruct (existsb (str_eqb (prod_name p)) seen); reflexivity.
  - destruct (existsb (str_eqb (prod_name q)) seen) eqn:Eq.
    + rewrite IH. f_equal.
      rewrite (@existsb_str_eqb_ext (prod_name p)
                 (seen ++ prod_name q :: map prod_name l)
                 (seen ++ map prod_name l)); [reflexivity|].
      apply existsb_str_eqb_In in Eq.
      rewrite !in_app_iff. simpl.
      split; [intros [H|[H|H]]; auto; left; congruence | tauto].
    + rewrite IH. simpl. f_equal. f_equal.
      rewrite (@existsb_str_eqb_ext (prod_name p)
                 (seen ++ prod_name q :: map prod_name l)
                 (prod_name q :: seen ++ map prod_name l)); [reflexivity|].
      simpl. rewrite !in_app_iff. simpl. tauto.
Qed.

Lemma catalog_inv_initial : catalog_inv initial_state.
Proof.
  constructor; try reflexivity.
  exists []. repeat split; try reflexivity.
  intros name. unfold dict_mem. simpl.
  destruct (str_eqb name _); reflexivity.
Qed.

Lemma dict_mem_set (V : Type) (d : dict V) k v k' :
  dict_mem (dict_set d k v) k' = str_eqb k' k || dict_mem d k'.
Proof.
  unfold dict_mem. destruct (str_eqb k' k) eqn:E.
  - apply str_eqb_eq in E; subst. now rewrite dict_get_set_same.
  - apply str_eqb_neq in E. now rewrite dict_get_set_other.
Qed.

Lemma read_product_catalog_inv item st st' :
  catalog_inv st -> read_product item st = Ok st' -> catalog_inv st'.
Proof.
  intros [Hids Hm Hri Hrl (P & HP & Hic & Hidx)] H.
  pose proof (read_product_cases item st) as Hc.
  destruct (parse_product item) as [r|].
  - destruct Hc as [Hname Hc]. rewrite Hc in H. clear Hc.
    unfold ids_mem in H. rewrite Hids in H. cbn [existsb] in H.
    destruct (dict_mem (prodIndex st) (rp_name item)) eqn:Emem;
      inversion H; subst st'; clear H; constructor; simpl_state; auto.
    + exists (P ++ [r]). rewrite HP, app_assoc. split; [reflexivity|].
      rewrite first_named_snoc, map_app, Hname, <- Hidx, Emem.
      rewrite app_nil_r. split; [assumption|].
      intros name. rewrite map_app, app_assoc, existsb_app, <- Hidx.
      cbn [map existsb]. rewrite orb_false_r.
      destruct (str_eqb name (prod_name r)) eqn:E; [|now rewrite orb_false_r].
      apply str_eqb_eq in E. subst name. rewrite Hname, Emem. reflexivity.
    + exists (P ++ [r]). rewrite HP, app_assoc. split; [reflexivity|].
      rewrite first_named_snoc, !map_app, Hname, <- Hidx, Emem, Hic.
      split; [reflexivity|].
      intros name. rewrite dict_mem_set, app_assoc, existsb_app, <- Hidx.
      cbn [map existsb]. rewrite orb_false_r, Hname. apply orb_comm.
  - destruct Hc as (msg & Hc). rewrite Hc in H. inversion H; subst st'.
    constructor; simpl_state; eauto.
Qed.

Lemma read_products_catalog_inv l st :
  for_each read_product l initial_state = Ok st -> catalog_inv st.
Proof.
  apply (for_each_inv read_product catalog_inv).
  - intros x s s'. apply read_product_catalog_inv.
  - apply catalog_inv_initial.
Qed.

(** ** Recipe ids *)

Lemma chr_inv i c :
  chr i = Ok c -> c = Z.to_N i /\ (0 <= i < 0x110000)%Z.
Proof.
  unfold chr. destruct (0 <=? i)%Z eqn:E1; destruct (i <? 0x110000)%Z eqn:E2;
    simpl; intros H; inversion H; subst.
  apply Z.leb_le in E1. apply Z.ltb_lt in E2. auto.
Qed.

Lemma chr_ok i : (0 <= i < 0x110000)%Z -> chr i = Ok (Z.to_N i).
Proof.
  intros [H1 H2]. unfold chr.
  apply Z.leb_le in H1. apply Z.ltb_lt in H2. now rewrite H1, H2.
Qed.

Lemma chr_raises i e :
  chr i = Raise e ->
  e = ValueError (lit "chr() arg not in range(0x110000)")
  /\ ~ (0 <= i < 0x110000)%Z.
Proof.
  intros H. split.
  - unfold chr in H. destruct (_ && _); inversion H; reflexivity.
  - intros Hi. rewrite (chr_ok Hi) in H. discriminate.
Qed.

Lemma count_nonneg r l : (0 <= count r l)%Z.
Proof. unfold count. lia. Qed.

Lemma count_app r l1 l2 : count r (l1 ++ l2) = (count r l1 + count r l2)%Z.
Proof. unfold count. rewrite filter_app, length_app. lia. Qed.

Lemma count_same r : count r [r] = 1%Z.
Proof. unfold count. simpl. now rewrite str_eqb_refl. Qed.

Lemma count_other r x : r <> x -> count r [x] = 0%Z.
Proof.
  intros H. apply str_eqb_neq in H. unfold count. simpl. now rewrite H.
Qed.

Lemma count_le_length r l : (count r l <= Z.of_nat (length l))%Z.
Proof. unfold count. pose proof (filter_length_le (str_eqb r) l). lia. Qed.

Lemma counted_nil : counted [] [].
Proof. intros r. reflexivity. Qed.

Lemma counted_set d before r :
  counted d before ->
  counted (dict_set d r (count r before + 1)%Z) (before ++ [r]).
Proof.
  intros H r'. unfold counter. rewrite count_app.
  destruct (str_eq_dec r' r) as [->|Hne].
  - rewrite dict_get_set_same, count_same. reflexivity.
  - rewrite dict_get_set_other, count_other by assumption.
    rewrite Z.add_0_r. apply H.
Qed.

(** The id given to the next recipe is the one of the rule, and the
    counters have counted it. *)
Lemma next_recipe_id_spec d before r id d' :
  counted d before ->
  next_recipe_id r d = Ok (id, d') ->
  id = disambiguated r (1 + count r before)
  /\ counted d' (before ++ [r])
  /\ (1 + count r before <= 0x110000 - 96)%Z.
Proof.
  intros Hd. unfold next_recipe_id.
  fold (counter d r). rewrite (Hd r).
  pose proof (count_nonneg r before) as Hn.
  unfold disambiguated.
  destruct (0 <? count r before)%Z eqn:E.
  - apply Z.ltb_lt in E.
    destruct (chr (95 + (count r before + 1))) as [c|e] eqn:Ec;
      cbn [bind]; [intros [= <- <-] | discriminate].
    apply chr_inv in Ec as [-> Hr].
    assert (Hne : (1 + count r before =? 1)%Z = false)
      by (apply Z.eqb_neq; lia).
    rewrite Hne.
    replace (1 + count r before)%Z with (count r before + 1)%Z by lia.
    split; [reflexivity|]. split; [now apply counted_set | lia].
  - apply Z.ltb_ge in E. assert (H0 : count r before = 0%Z) by lia.
    intros [= <- <-].
    split; [now rewrite H0|]. split; [|lia].
    replace 1%Z with (count r before + 1)%Z by lia. now apply counted_set.
Qed.

Lemma next_recipe_id_total d before r :
  counted d before ->
  (1 + count r before <= 0x110000 - 96)%Z ->
  exists id d', next_recipe_id r d = Ok (id, d').
Proof.
  intros Hd Hn. unfold next_recipe_id.
  fold (counter d r). rewrite (Hd r).
  pose proof (count_nonneg r before).
  destruct (0 <? count r before)%Z; [|eauto].
  rewrite chr_ok by lia. cbn [bind]. eauto.
Qed.

Lemma next_recipe_id_raises d r e :
  next_recipe_id r d = Raise e ->
  e = ValueError (lit "chr() arg not in range(0x110000)").
Proof.
  unfold next_recipe_id. destruct (0 <? _)%Z; [|discriminate].
  destruct (chr _) as [c|e'] eqn:Ec; cbn [bind]; intros H; inversion H; subst.
  now apply chr_raises in Ec.
Qed.

(** ** Recipes *)

Lemma convertIngredientList_loop_exn prodIndex l :
  forall ret e,
    convertIngredientList_loop prodIndex ret l = Raise e ->
    exists i, In i l /\ unknown prodIndex i
              /\ e = ValueError (lit "Unknown ingredient: " ++ ing_name i).
Proof.
  induction l as [|a l IH]; intros ret e; simpl; [discriminate|].
  destruct (dict_get prodIndex (ing_name a)) eqn:E.
  - intros H. apply IH in H as (i & Hin & Hi & He). eauto.
  - intros H. inversion H; subst. exists a. auto.
Qed.

Lemma emitted_app prodIndex e1 :
  forall before e2,
    emitted prodIndex before (e1 ++ e2)
    = emitted prodIndex before e1
      ++ emitted prodIndex (before ++ norms e1) e2.
Proof.
  induction e1 as [|[f rc] e1 IH]; intros before e2; simpl.
  - now rewrite app_nil_r.
  - rewrite IH, <- !app_assoc. reflexivity.
Qed.

Lemma suffixes_in_range_app e1 :
  forall before e2,
    suffixes_in_range before (e1 ++ e2)
    <-> suffixes_in_range before e1
        /\ suffixes_in_range (before ++ norms e1) e2.
Proof.
  induction e1 as [|e e1 IH]; intros before e2; simpl.
  - rewrite app_nil_r. tauto.
  - rewrite IH, <- app_assoc. simpl. tauto.
Qed.

(** One round of the recipe loop: the recipe is counted, it is listed when
    it resolves, and nothing else moves. *)
Lemma read_recipe_spec flabID rc st st' before :
  counted (recipeIds st) before ->
  read_recipe flabID rc st = Ok st' ->
  ids st' = ids st /\ iconList st' = iconList st
  /\ prodList st' = prodList st /\ prodIndex st' = prodIndex st
  /\ mnbList st' = mnbList st
  /\ counted (recipeIds st') (before ++ [norm rc])
  /\ suffixes_in_range before [(flabID, rc)]
  /\ recipeList st' = recipeList st
                      ++ emitted (prodIndex st) before [(flabID, rc)].
Proof.
  intros Hd. unfold read_recipe.
  destruct (next_recipe_id (convertCod2FL (rr_id rc)) (recipeIds st))
    as [[rID counters]|e] eqn:En; [|discriminate].
  eapply next_recipe_id_spec in En as (-> & Hd' & Hn); [|exact Hd].
  assert (Hs : suffixes_in_range before [(flabID, rc)])
    by (cbn [suffixes_in_range snd]; auto).
  cbn [bind emitted]. simpl_state. unfold resolved. fold (norm rc).
  destruct (convertIngredientList (prodIndex st) (rr_inputs rc))
    as [r_in|e] eqn:Ein.
  - destruct (convertIngredientList (prodIndex st) (rr_outputs rc))
      as [[|o r_out]|e] eqn:Eout.
    + intros H; inversion H; subst; simpl_state.
      rewrite app_nil_r. auto 10.
    + intros H; inversion H; subst; simpl_state.
      rewrite app_nil_r. auto 10.
    + apply convertIngredientList_loop_exn in Eout as (i & _ & _ & ->).
      intros H; inversion H; subst; simpl_state.
      rewrite app_nil_r. auto 10.
  - apply convertIngredientList_loop_exn in Ein as (i & _ & _ & ->).
    intros H; inversion H; subst; simpl_state.
    rewrite app_nil_r. auto 10.
Qed.

(** A round of the recipe loop raises only out of [chr]. *)
Lemma read_recipe_raises flabID rc st e :
  read_recipe flabID rc st = Raise e ->
  e = ValueError (lit "chr() arg not in range(0x110000)").
Proof.
  unfold read_recipe.
  destruct (next_recipe_id (convertCod2FL (rr_id rc)) (recipeIds st))
    as [[rID counters]|e'] eqn:En.
  - cbn [bind]. simpl_state.
    destruct (convertIngredientList (prodIndex st) (rr_inputs rc))
      as [r_in|e1] eqn:Ein.
    + destruct (convertIngredientList (prodIndex st) (rr_outputs rc))
        as [[|o r_out]|e2] eqn:Eout; try discriminate.
      apply convertIngredientList_loop_exn in Eout as (i & _ & _ & ->).
      discriminate.
    + apply convertIngredientList_loop_exn in Ein as (i & _ & _ & ->).
      discriminate.
  - cbn [bind]. intros H; inversion H; subst.
    now apply next_recipe_id_raises in En.
Qed.

Lemma read_recipe_total flabID rc st before :
  counted (recipeIds st) before ->
  (1 + count (norm rc) before <= 0x110000 - 96)%Z ->
  exists st', read_recipe flabID rc st = Ok st'.
Proof.
  intros Hd Hn.
  destruct (read_recipe flabID rc st) as [st'|e] eqn:E; [eauto|].
  exfalso.
  destruct (@next_recipe_id_total _ _ (norm rc) Hd Hn) as (id & d' & En).
  unfold norm in En. unfold read_recipe in E. rewrite En in E.
  cbn [bind] in E.
  simpl_state.
  destruct (convertIngredientList (prodIndex st) (rr_inputs rc))
    as [r_in|e1] eqn:Ein.
  - destruct (convertIngredientList (prodIndex st) (rr_outputs rc))
      as [[|o r_out]|e2] eqn:Eout; try discriminate.
    apply convertIngredientList_loop_exn in Eout as (i & _ & _ & ->).
    discriminate.
  - apply convertIngredientList_loop_exn in Ein as (i & _ & _ & ->).
    discriminate.
Qed.

Lemma for_each_raises (X S : Type) (body : X -> S -> result S)
      (P : exn -> Prop) :
  (forall x s e, body x s = Raise e -> P e) ->
  forall l st e, for_each body l st = Raise e -> P e.
Proof.
  intros Hstep. induction l as [|x l IH]; simpl; intros st e H.
  - discriminate.
  - destruct (body x st) as [s|e'] eqn:E; cbn [bind] in H; eauto.
    inversion H; subst. eauto.
Qed.

(** The recipe loop of one building. *)
Lemma read_recipes_trace flabID rcs :
  forall st st' before,
    counted (recipeIds st) before ->
    for_each (read_recipe flabID) rcs st = Ok st' ->
    ids st' = ids st /\ iconList st' = iconList st
    /\ prodList st' = prodList st /\ prodIndex st' = prodIndex st
    /\ mnbList st' = mnbList st
    /\ counted (recipeIds st') (before ++ map norm rcs)
    /\ suffixes_in_range before (map (pair flabID) rcs)
    /\ recipeList st' = recipeList st
                        ++ emitted (prodIndex st) before
                                   (map (pair flabID) rcs).
Proof.
  induction rcs as [|rc rcs IH]; intros st st' before Hd H.
  - simpl in H. inversion H; subst. cbn [map emitted suffixes_in_range].
    rewrite !app_nil_r. auto 10.
  - cbn [for_each] in H.
    destruct (read_recipe flabID rc st) as [st1|e] eqn:E1;
      cbn [bind] in H; [|discriminate].
    destruct (read_recipe_spec _ _ _ Hd E1)
      as (Hi1 & Hic1 & Hp1 & Hx1 & Hm1 & Hd1 & Hs1 & Hr1).
    destruct (IH _ _ _ Hd1 H) as (Hi & Hic & Hp & Hx & Hm & Hd' & Hs & Hr).
    rewrite Hi, Hic, Hp, Hx, Hm, Hr, Hi1, Hic1, Hp1, Hx1, Hm1, Hr1.
    cbn [map].
    change ((flabID, rc) :: map (pair flabID) rcs)
      with ([(flabID, rc)] ++ map (pair flabID) rcs).
    rewrite emitted_app, suffixes_in_range_app, app_assoc.
    rewrite <- app_assoc in Hd'.
    repeat split; auto. apply Hs1.
Qed.

Lemma accepted_ext st st1 item :
  ids st1 = ids st -> prodIndex st1 = prodIndex st ->
  accepted st1 item = accepted st item.
Proof. unfold accepted, ids_mem. now intros -> ->. Qed.

Lemma encountered_ext st st1 items :
  ids st1 = ids st -> prodIndex st1 = prodIndex st ->
  encountered st1 items = encountered st items.
Proof.
  intros Hi Hx. unfold encountered. apply flat_map_ext.
  intros item. now rewrite (@accepted_ext _ _ item Hi Hx).
Qed.

Lemma listed_buildings_ext st st1 items :
  ids st1 = ids st -> prodIndex st1 = prodIndex st ->
  listed_buildings st1 items = listed_buildings st items.
Proof.
  intros Hi Hx. unfold listed_buildings. apply flat_map_ext.
  intros item. now rewrite (@accepted_ext _ _ item Hi Hx), Hx.
Qed.

Lemma listed_icons_ext st st1 items :
  ids st1 = ids st -> prodIndex st1 = prodIndex st ->
  listed_icons st1 items = listed_icons st items.
Proof.
  intros Hi Hx. unfold listed_icons. apply flat_map_ext.
  intros item. now rewrite (@accepted_ext _ _ item Hi Hx).
Qed.

(** One round of the building loop. *)
Lemma read_building_trace item st st' before :
  counted (recipeIds st) before ->
  read_building item st = Ok st' ->
  trace st before [item] st'.
Proof.
  intros Hd. unfold read_building.
  destruct (ids_mem (convertCod2FL (rb_id item)) st) eqn:Ei.
  - intros [= <-]. constructor; simpl_state; auto;
      unfold encountered, listed_buildings, listed_icons, accepted;
      cbn [flat_map]; rewrite Ei;
      cbn [negb andb app map emitted norms suffixes_in_range];
      rewrite ?app_nil_r; auto.
  - destruct (building_consumption (prodIndex st) item) as [r_cons|] eqn:Ec.
    + intros H.
      eapply read_recipes_trace in H; [|simpl_state; exact Hd].
      simpl_state. destruct H as (Hi & Hic & Hp & Hx & Hm & Hd' & Hs & Hr).
      constructor; auto;
        unfold encountered, listed_buildings, listed_icons, accepted,
               building_of;
        cbn [flat_map]; rewrite Ei, Ec; cbn [negb andb app];
        rewrite ?app_nil_r; auto.
      unfold norms. rewrite map_map. cbn [snd]. exact Hd'.
    + intros [= <-]. constructor; simpl_state; auto;
        unfold encountered, listed_buildings, listed_icons, accepted,
               building_of;
        cbn [flat_map]; rewrite Ei, Ec;
        cbn [negb andb app map emitted norms suffixes_in_range];
        rewrite ?app_nil_r; auto.
Qed.

Lemma trace_nil st before : counted (recipeIds st) before -> trace st before [] st.
Proof.
  intros Hd. constructor; cbn [listed_buildings listed_icons encountered
                               flat_map map emitted norms suffixes_in_range];
    rewrite ?app_nil_r; auto.
Qed.

(** Rounds compose. *)
Lemma trace_app st before items1 st1 items2 st2 :
  trace st before items1 st1 ->
  trace st1 (before ++ norms (encountered st items1)) items2 st2 ->
  trace st before (items1 ++ items2) st2.
Proof.
  intros [Hi1 Hp1 Hx1 Hm1 Hic1 Hd1 Hs1 Hr1] [Hi2 Hp2 Hx2 Hm2 Hic2 Hd2 Hs2 Hr2].
  rewrite (@encountered_ext _ _ items2 Hi1 Hx1) in Hd2, Hs2, Hr2.
  rewrite (@listed_buildings_ext _ _ items2 Hi1 Hx1) in Hm2.
  rewrite (@listed_icons_ext _ _ items2 Hi1 Hx1) in Hic2.
  constructor; try congruence.
  - rewrite Hm2, Hm1. unfold listed_buildings.
    now rewrite flat_map_app, app_assoc.
  - rewrite Hic2, Hic1. unfold listed_icons.
    now rewrite flat_map_app, app_assoc.
  - unfold encountered, norms in *.
    rewrite flat_map_app, map_app, app_assoc. exact Hd2.
  - unfold encountered in *. rewrite flat_map_app.
    apply suffixes_in_range_app. auto.
  - rewrite Hr2, Hr1, Hx1. unfold encountered.
    rewrite flat_map_app, emitted_app, app_assoc. reflexivity.
Qed.

(** The whole building loop. *)
Lemma read_buildings_trace items :
  forall st st' before,
    counted (recipeIds st) before ->
    for_each read_building items st = Ok st' ->
    trace st before items st'.
Proof.
  induction items as [|item items IH]; intros st st' before Hd H.
  - simpl in H. inversion H; subst. now apply trace_nil.
  - cbn [for_each] in H.
    destruct (read_building item st) as [st1|e] eqn:E1;
      cbn [bind] in H; [|discriminate].
    pose proof (@read_building_trace _ _ _ _ Hd E1) as T1.
    change (item :: items) with ([item] ++ items).
    eapply trace_app; [exact T1|].
    apply IH; [|exact H]. apply (tr_counted T1).
Qed.

Lemma read_building_raises item st e :
  read_building item st = Raise e ->
  e = ValueError (lit "chr() arg not in range(0x110000)").
Proof.
  unfold read_building.
  destruct (ids_mem _ st); [discriminate|].
  destruct (building_consumption _ item); [|discriminate].
  intros H.
  eapply (@for_each_raises _ _ (read_recipe _)
            (fun e0 => e0 = ValueError (lit "chr() arg not in range(0x110000)")));
    [|exact H].
  intros rc s e'. apply read_recipe_raises.
Qed.

(** ** The script as a whole *)

Lemma catalog_ok products :
  for_each read_product (pd_products products) initial_state
  = Ok (catalog products).
Proof.
  unfold catalog.
  destruct (read_products_total (pd_products products) initial_state)
    as (st & ->).
  reflexivity.
Qed.

Lemma catalog_inv_catalog products : catalog_inv (catalog products).
Proof. eapply read_products_catalog_inv, catalog_ok. Qed.

(** The script gets to "Preparing output" exactly when the versions agree
    and the building loop returns. *)
Lemma process_done products buildings st :
  process products buildings = Done st <->
  bd_game_version buildings = pd_game_version products
  /\ for_each read_building (bd_machines_and_buildings buildings)
              (catalog products) = Ok st.
Proof.
  unfold process. rewrite catalog_ok.
  destruct (str_eqb (bd_game_version buildings) (pd_game_version products))
    eqn:Ev; cbn [negb].
  - apply str_eqb_eq in Ev.
    destruct (for_each read_building _ (catalog products)) as [s|e].
    + split; [intros [= ->]; auto | intros [_ [= ->]]; reflexivity].
    + split; [discriminate | intros [_ H]; discriminate].
  - apply str_eqb_neq in Ev. split; [discriminate | tauto].
Qed.

Lemma process_trace products buildings st :
  process products buildings = Done st ->
  trace (catalog products) [] (bd_machines_and_buildings buildings) st.
Proof.
  intros H. apply process_done in H as [_ H].
  eapply read_buildings_trace; [|exact H].
  rewrite (ci_recipeIds (catalog_inv_catalog products)).
  apply counted_nil.
Qed.

Lemma process_uncaught products buildings e :
  process products buildings = Uncaught e ->
  e = ValueError (lit "chr() arg not in range(0x110000)").
Proof.
  unfold process. rewrite catalog_ok.
  destruct (negb _); [discriminate|].
  destruct (for_each read_building _ _) as [s|e'] eqn:E; [discriminate|].
  intros [= <-].
  eapply (@for_each_raises _ _ read_building
            (fun e0 => e0 = ValueError (lit "chr() arg not in range(0x110000)")));
    [|exact E].
  intros x s e0. apply read_building_raises.
Qed.

Lemma main_done products buildings doc out :
  main products buildings = Done (doc, out) <->
  exists st, process products buildings = Done st
             /\ doc = output (pd_game_version products) st
             /\ out = stdout st.
Proof.
  unfold main. destruct (process products buildings) as [st|code o|e].
  - split.
    + intros [= <- <-]. eauto.
    + intros (st' & [= <-] & -> & ->). reflexivity.
  - split; [discriminate | intros (st' & H & _); discriminate].
  - split; [discriminate | intros (st' & H & _); discriminate].
Qed.

(** Nothing ever enters [ids]. *)
Lemma ids_never_filled products buildings st :
  process products buildings = Done st -> ids st = [].
Proof.
  intros H. apply process_trace in H.
  rewrite (tr_ids H). apply (ci_ids (catalog_inv_catalog products)).
Qed.

(** *** The loops while the counters are in the range of [chr] *)

Lemma read_recipes_total flabID rcs :
  forall st before,
    counted (recipeIds st) before ->
    (Z.of_nat (length before + length rcs) <= 0x110000 - 96)%Z ->
    exists st', for_each (read_recipe flabID) rcs st = Ok st'.
Proof.
  induction rcs as [|rc rcs IH]; intros st before Hd Hn; cbn [for_each].
  - eauto.
  - destruct (@read_recipe_total flabID rc st before Hd) as (st1 & E1).
    { pose proof (count_le_length (norm rc) before). simpl in Hn. lia. }
    rewrite E1. cbn [bind].
    destruct (@read_recipe_spec _ _ _ _ _ Hd E1)
      as (_ & _ & _ & _ & _ & Hd1 & _ & _).
    apply (IH st1 (before ++ [norm rc]) Hd1).
    rewrite length_app. simpl in *. lia.
Qed.

Lemma encountered_length st items :
  (length (encountered st items) <= recipe_total items)%nat.
Proof.
  unfold encountered, recipe_total.
  induction items as [|item items IH]; simpl; [lia|].
  rewrite !length_app.
  destruct (accepted st item); [rewrite length_map|]; simpl; lia.
Qed.

Lemma read_building_total item st before :
  counted (recipeIds st) before ->
  (Z.of_nat (length before + length (rb_recipes item)) <= 0x110000 - 96)%Z ->
  exists st', read_building item st = Ok st'.
Proof.
  intros Hd Hn. unfold read_building.
  destruct (ids_mem _ st); [eauto|].
  destruct (building_consumption _ item); [|eauto].
  apply read_recipes_total with (before := before); simpl_state; assumption.
Qed.

Lemma read_buildings_total items :
  forall st before,
    counted (recipeIds st) before ->
    (Z.of_nat (length before + recipe_total items) <= 0x110000 - 96)%Z ->
    exists st', for_each read_building items st = Ok st'.
Proof.
  induction items as [|item items IH]; intros st before Hd Hn;
    cbn [for_each]; [eauto|].
  assert (Hsplit : recipe_total (item :: items)
                   = (length (rb_recipes item) + recipe_total items)%nat).
  { unfold recipe_total. simpl. now rewrite length_app. }
  rewrite Hsplit in Hn.
  destruct (@read_building_total item st before Hd) as (st1 & E1); [lia|].
  rewrite E1. cbn [bind].
  pose proof (@read_building_trace _ _ _ _ Hd E1) as T1.
  apply (IH st1 _ (tr_counted T1)).
  pose proof (encountered_length st [item]) as Hl.
  assert (H1 : recipe_total [item] = length (rb_recipes item))
    by (unfold recipe_total; simpl; now rewrite app_nil_r).
  unfold norms. rewrite length_app, length_map. lia.
Qed.


(** ** Retained recipes *)

Lemma forallb_known prodIndex l :
  forallb (fun i => dict_mem prodIndex (ing_name i)) l = true
  <-> Forall (known prodIndex) l.
Proof.
  rewrite forallb_forall, Forall_forall. unfold known.
  split; intros H i Hi; apply dict_mem_true; auto.
Qed.

Lemma convertIngredientList_Ok prodIndex l :
  (exists ret, convertIngredientList prodIndex l = Ok ret)
  <-> forallb (fun i => dict_mem prodIndex (ing_name i)) l = true.
Proof.
  rewrite forallb_known. split.
  - intros (ret & H). apply Forall_forall. intros i Hi.
    destruct (dict_get prodIndex (ing_name i)) eqn:E;
      [unfold known; congruence|].
    assert (Hex : Exists (unknown prodIndex) l)
      by (apply Exists_exists; eauto).
    destruct (convertIngredientList_loop_raises [] Hex)
      as (pre & j & post & _ & _ & _ & Hr).
    unfold convertIngredientList in H. congruence.
  - intros Hall.
    destruct (convertIngredientList_loop_returns [] Hall) as (ret & H & _).
    eauto.
Qed.

Lemma dict_set_not_nil (V : Type) (d : dict V) k v : dict_set d k v <> [].
Proof.
  destruct d as [|[k' v'] d]; simpl; [discriminate|].
  destruct (str_eqb k k'); discriminate.
Qed.

Lemma convertIngredientList_loop_not_nil prodIndex l :
  forall ret ret',
    convertIngredientList_loop prodIndex ret l = Ok ret' ->
    ret <> [] -> ret' <> [].
Proof.
  induction l as [|a l IH]; simpl; intros ret ret' H Hne.
  - inversion H; subst; assumption.
  - destruct (dict_get prodIndex (ing_name a)); [|discriminate].
    eapply IH; [exact H|]. apply dict_set_not_nil.
Qed.

(** The resolved outputs are empty exactly when the list of outputs is. *)
Lemma convertIngredientList_nil prodIndex l ret :
  convertIngredientList prodIndex l = Ok ret -> (ret = [] <-> l = []).
Proof.
  unfold convertIngredientList. destruct l as [|a l]; simpl.
  - intros [= <-]. tauto.
  - destruct (dict_get prodIndex (ing_name a)); [|discriminate].
    intros H. split; [|discriminate].
    intros ->. exfalso.
    apply (@convertIngredientList_loop_not_nil _ _ _ _ H);
      [discriminate | reflexivity].
Qed.

Lemma resolved_Some prodIndex rc io :
  resolved prodIndex rc = Some io ->
  convertIngredientList prodIndex (rr_inputs rc) = Ok (fst io)
  /\ convertIngredientList prodIndex (rr_outputs rc) = Ok (snd io)
  /\ snd io <> [].
Proof.
  unfold resolved.
  destruct (convertIngredientList prodIndex (rr_inputs rc)) as [r_in|];
    [|discriminate].
  destruct (convertIngredientList prodIndex (rr_outputs rc)) as [[|o r_out]|];
    try discriminate.
  intros [= <-]. simpl. repeat split. discriminate.
Qed.

Lemma resolved_retained prodIndex rc :
  retained prodIndex rc = true <-> resolved prodIndex rc <> None.
Proof.
  unfold retained, resolved.
  rewrite !andb_true_iff, <- !convertIngredientList_Ok.
  destruct (convertIngredientList prodIndex (rr_inputs rc)) as [r_in|e1].
  - destruct (convertIngredientList prodIndex (rr_outputs rc))
      as [r_out|e2] eqn:Eout.
    + pose proof (convertIngredientList_nil _ _ Eout) as Hnil.
      destruct r_out as [|o r_out].
      * assert (H : rr_outputs rc = []) by (apply Hnil; reflexivity).
        rewrite H. split; [intros [_ H']; discriminate | congruence].
      * destruct (rr_outputs rc) as [|i l].
        -- assert (H : o :: r_out = []) by (apply Hnil; reflexivity).
           discriminate.
        -- split; [discriminate | eauto 6].
    + split; [intros [[_ (ret & H)] _]; discriminate | congruence].
  - split; [intros [[(ret & H) _] _]; discriminate | congruence].
Qed.

Lemma resolved_not_retained prodIndex rc :
  retained prodIndex rc = false <-> resolved prodIndex rc = None.
Proof.
  pose proof (resolved_retained prodIndex rc) as H.
  destruct (retained prodIndex rc), (resolved prodIndex rc);
    split; intros; try reflexivity; try discriminate.
  - exfalso. destruct H as [H _]. now apply H.
  - exfalso. destruct H as [_ H]. assert (Some p <> None) by discriminate.
    apply H in H1. discriminate.
Qed.

(** The recipe list of the specification lists the retained recipes, each
    once, in the order they are met. *)
Lemma emitted_lists prodIndex enc :
  forall before,
    Forall2 (lists prodIndex)
            (filter (fun e => retained prodIndex (snd e)) enc)
            (emitted prodIndex before enc).
Proof.
  induction enc as [|[f rc] enc IH]; intros before; cbn [emitted filter snd].
  - constructor.
  - destruct (resolved prodIndex rc) as [io|] eqn:E.
    + assert (Hr : retained prodIndex rc = true)
        by (apply resolved_retained; congruence).
      rewrite Hr. cbn [app]. constructor; [|apply IH].
      apply resolved_Some in E as (Hin & Hout & Hne).
      unfold lists. cbn. auto 10.
    + apply resolved_not_retained in E. rewrite E. cbn [app]. apply IH.
Qed.

(** Where the entry of a retained recipe stands in the list, and under
    which id. *)
Lemma emitted_at prodIndex before pre f rc post :
  retained prodIndex rc = true ->
  exists io,
    resolved prodIndex rc = Some io
    /\ emitted prodIndex before (pre ++ (f, rc) :: post)
       = emitted prodIndex before pre
         ++ entry f rc
              (disambiguated (norm rc)
                 (1 + count (norm rc) (before ++ norms pre))) io
         :: emitted prodIndex (before ++ norms pre ++ [norm rc]) post
    /\ length (emitted prodIndex before pre)
       = length (filter (fun e => retained prodIndex (snd e)) pre).
Proof.
  intros Hr.
  destruct (resolved prodIndex rc) as [io|] eqn:E;
    [|apply resolved_retained in Hr; congruence].
  exists io. split; [reflexivity|]. split.
  - rewrite emitted_app. cbn [emitted]. rewrite E. fold (norms pre).
    cbn [app]. now rewrite <- app_assoc.
  - symmetry. eapply Forall2_length, emitted_lists.
Qed.

(** ** End to end *)

Lemma parse_countable_iron T name icon_path :
  product_type T = Some (lit "Countable") ->
  parse_product {| rp_type := T; rp_id := lit "Product_Iron";
                   rp_name := name; rp_icon_path := icon_path |}
  = Some {| prod_id := lit "iron"; prod_name := name;
            prod_type := lit "countable" |}.
Proof.
  unfold product_type, parse_product. cbn [rp_type rp_id rp_name].
  destruct (re_match REX_ProdType T) as [[tok g]|]; [|discriminate].
  intros ->. reflexivity.
Qed.

(** C1, amended: on the minimal documents the recipe list has exactly one
    entry, with id "smelt-iron", out {"iron": 1} and producers
    ["smelter-1"]: the translator drops the capital of "T1", as it does in
    the 'MaintenanceT2' of its docstring. *)
Theorem end_to_end (version T p_icon b_name b_icon r_name : str)
        (quantity duration : num) :
  product_type T = Some (lit "Countable") ->
  exists doc out,
    main {| pd_game_version := version;
            pd_products :=
              [ {| rp_type := T; rp_id := lit "Product_Iron";
                   rp_name := lit "Iron"; rp_icon_path := p_icon |} ] |}
         {| bd_game_version := version;
            bd_machines_and_buildings :=
              [ {| rb_id := lit "SmelterT1"; rb_name := b_name;
                   rb_workers := 0%Z; rb_electricity_consumed := 0%Z;
                   rb_maintenance_cost_units := [];
                   rb_maintenance_cost_quantity := quantity;
                   rb_icon_path := b_icon;
                   rb_recipes :=
                     [ {| rr_id := lit "SmeltIron"; rr_name := r_name;
                          rr_duration := duration; rr_inputs := [];
                          rr_outputs :=
                            [ {| ing_name := lit "Iron";
                                 ing_quantity := 1%Z |} ] |} ] |} ] |}
    = Done (doc, out)
    /\ doc_recipes doc
       = [ {| rcp_id := lit "smelt-iron"; rcp_name := r_name;
              rcp_time := duration; rcp_producers := [lit "smelter-1"];
              rcp_row := 0%Z; rcp_icon := lit "smelter-1"; rcp_in := [];
              rcp_out := [(lit "iron", 1%Z)] |} ].
Proof.
  intros HT.
  unfold main, process. cbn [pd_products pd_game_version bd_game_version
                             bd_machines_and_buildings for_each].
  pose proof (read_product_cases
                {| rp_type := T; rp_id := lit "Product_Iron";
                   rp_name := lit "Iron"; rp_icon_path := p_icon |}
                initial_state) as Hc.
  rewrite (@parse_countable_iron T (lit "Iron") p_icon HT) in Hc.
  destruct Hc as [_ ->].
  cbn [bind]. rewrite str_eqb_refl. cbn [negb].
  do 2 eexists. split; reflexivity.
Qed.

Lemma end_to_end_witness :
  exists doc out,
    main Sample.products Sample.buildings = Done (doc, out)
    /\ doc_recipes doc
       = [ {| rcp_id := lit "smelt-iron"; rcp_name := lit "Iron smelting";
              rcp_time := 20%Z; rcp_producers := [lit "smelter-1"];
              rcp_row := 0%Z; rcp_icon := lit "smelter-1"; rcp_in := [];
              rcp_out := [(lit "iron", 1%Z)] |} ].
Proof.
  apply (@end_to_end (lit "0.6.3") (lit "CountableProductProto")
           (lit "iron.png") (lit "Blast furnace") (lit "smelter.png")
           (lit "Iron smelting") 0%Z 20%Z).
  reflexivity.
Defined.

(** C1 as stated fails on its own documents: the one entry has the
    producers ["smelter-1"], not ["smelter-t1"]. *)
Lemma end_to_end_producers :
  ~ exists doc out r,
      main Sample.products Sample.buildings = Done (doc, out)
      /\ doc_recipes doc = [r]
      /\ rcp_id r = lit "smelt-iron"
      /\ rcp_out r = [(lit "iron", 1%Z)]
      /\ rcp_producers r = [lit "smelter-t1"].
Proof.
  intros (doc & out & r & Hmain & Hr & _ & _ & Hp).
  vm_compute in Hmain. inversion Hmain; subst; clear Hmain.
  cbn [doc_recipes] in Hr. inversion Hr; subst; clear Hr.
  vm_compute in Hp. discriminate Hp.
Qed.

(** The list of the specification, one name unknown among two known: no
    entry is resolved; and a list of known names with a repeated product. *)
Lemma convertIngredientList_all_or_nothing_witness :
  (exists pre i post,
      [ {| ing_name := lit "Iron"; ing_quantity := 1%Z |};
        {| ing_name := lit "Scrap"; ing_quantity := 2%Z |};
        {| ing_name := lit "Workers"; ing_quantity := 3%Z |} ]
      = pre ++ i :: post
      /\ Forall (known (prodIndex (catalog Sample.products))) pre
      /\ unknown (prodIndex (catalog Sample.products)) i
      /\ convertIngredientList (prodIndex (catalog Sample.products))
           [ {| ing_name := lit "Iron"; ing_quantity := 1%Z |};
             {| ing_name := lit "Scrap"; ing_quantity := 2%Z |};
             {| ing_name := lit "Workers"; ing_quantity := 3%Z |} ]
         = Raise (ValueError (lit "Unknown ingredient: " ++ ing_name i)))
  /\ (exists ret,
         convertIngredientList (prodIndex (catalog Sample.products))
           [ {| ing_name := lit "Iron"; ing_quantity := 1%Z |};
             {| ing_name := lit "Workers"; ing_quantity := 3%Z |};
             {| ing_name := lit "Iron"; ing_quantity := 5%Z |} ]
         = Ok ret
         /\ forall id q,
             dict_get ret id = Some q <->
             exists pre i post,
               [ {| ing_name := lit "Iron"; ing_quantity := 1%Z |};
                 {| ing_name := lit "Workers"; ing_quantity := 3%Z |};
                 {| ing_name := lit "Iron"; ing_quantity := 5%Z |} ]
               = pre ++ i :: post
               /\ resolves_to (prodIndex (catalog Sample.products)) id i
               /\ ing_quantity i = q
               /\ Forall (fun j => ~ resolves_to
                                     (prodIndex (catalog Sample.products)) id j)
                         post).
Proof.
  split.
  - apply (proj1 (convertIngredientList_all_or_nothing
                    (prodIndex (catalog Sample.products)) _)).
    right; left. reflexivity.
  - apply (proj2 (convertIngredientList_all_or_nothing
                    (prodIndex (catalog Sample.products)) _)).
    repeat constructor; vm_compute; discriminate.
Defined.

(** ** The version check *)

(** C5: when the two documents name different game versions the script
    prints its message and leaves through [sys.exit(1)]; it does not get to
    the lines that build and write the output. *)
Theorem version_mismatch_aborts
        (products : products_doc) (buildings : buildings_doc) :
  bd_game_version buildings <> pd_game_version products ->
  exists out,
    main products buildings = Exit 1 out
    /\ last out [] = lit "Game version differs in 'machines_and_buildings.json'"
    /\ forall doc out', main products buildings <> Done (doc, out').
Proof.
  intros Hv. unfold main, process. rewrite catalog_ok.
  apply str_eqb_neq in Hv. rewrite Hv. cbn [negb].
  eexists. split; [reflexivity|]. split; [|discriminate].
  simpl_state. apply last_last.
Qed.

Lemma version_mismatch_aborts_witness :
  exists out,
    main Sample.products Sample.other_version = Exit 1 out
    /\ last out [] = lit "Game version differs in 'machines_and_buildings.json'"
    /\ forall doc out',
        main Sample.products Sample.other_version <> Done (doc, out').
Proof.
  apply (@version_mismatch_aborts Sample.products Sample.other_version).
  vm_compute. discriminate.
Defined.

(** ** Duplicate ids *)

(** C2 fails on the code.  Two products wrapped as [Product_Iron] and a
    building [Iron] all normalize to "iron"; nothing is printed, nothing is
    skipped, and the id stands three times among the items: the script
    tests [flabID in ids] but never adds an id to [ids]. *)
Theorem duplicate_ids_emitted :
  exists doc,
    main Sample.twin_products Sample.twin_buildings = Done (doc, [])
    /\ map item_id (doc_items doc)
       = [lit "worker"; lit "iron"; lit "iron"; lit "iron"]
    /\ ~ NoDup (map item_id (doc_items doc)).
Proof.
  eexists. split; [vm_compute; reflexivity|]. split; [reflexivity|].
  cbn [doc_items]. vm_compute.
  intros H. inversion H as [|x l _ H1]; subst.
  inversion H1 as [|y l' Hnin _]; subst.
  apply Hnin. left. reflexivity.
Qed.

(** ** The recipe list of a run *)

(** The recipe list and the items of the output, from the catalog and the
    buildings document. *)
Lemma main_recipes products buildings doc out :
  main products buildings = Done (doc, out) ->
  doc_recipes doc
  = emitted (prodIndex (catalog products)) []
            (encountered (catalog products)
                         (bd_machines_and_buildings buildings))
  /\ suffixes_in_range []
       (encountered (catalog products) (bd_machines_and_buildings buildings))
  /\ doc_items doc
     = map (fun x => ProductItem (prod_id x) (prod_name x) (prod_type x) 0%Z)
           (prodList (catalog products))
       ++ map BuildingItem
              (listed_buildings (catalog products)
                                (bd_machines_and_buildings buildings)).
Proof.
  intros H. apply main_done in H as (st & Hp & -> & _).
  apply process_trace in Hp.
  destruct Hp as [Hi Hpl Hx Hm Hic Hd Hs Hr].
  pose proof (catalog_inv_catalog products) as [_ Hm0 _ Hr0 _].
  rewrite Hr0 in Hr. rewrite Hm0 in Hm.
  cbn [output doc_recipes doc_items]. unfold getItems.
  rewrite Hr, Hm, Hpl. auto.
Qed.

Lemma suffixes_in_range_at before pre e post :
  suffixes_in_range before (pre ++ e :: post) ->
  (1 + count (norm (snd e)) (before ++ norms pre) <= 0x110000 - 96)%Z.
Proof.
  intros H. apply suffixes_in_range_app in H as [_ H]. apply H.
Qed.

Lemma disambiguated_first r : disambiguated r 1 = r.
Proof. reflexivity. Qed.

Lemma disambiguated_later r n :
  (2 <= n)%Z -> disambiguated r n = r ++ lit "-" ++ [Z.to_N (95 + n)].
Proof.
  intros H. unfold disambiguated.
  assert (E : (n =? 1)%Z = false) by (apply Z.eqb_neq; lia).
  now rewrite E.
Qed.

Lemma count_notin r l : ~ In r l -> count r l = 0%Z.
Proof.
  intros H. unfold count.
  replace (filter (str_eqb r) l) with (@nil str); [reflexivity|].
  symmetry. induction l as [|x l IH]; simpl; [reflexivity|].
  destruct (str_eqb r x) eqn:E.
  - apply str_eqb_eq in E. subst. exfalso. apply H. left. reflexivity.
  - apply IH. intros Hin. apply H. right. assumption.
Qed.

(** One round of the recipe loop, from any state: the recipe is listed
    exactly when it is retained, and the buildings, icons and catalog are
    as they were. *)
Lemma read_recipe_step flabID rc st st' :
  read_recipe flabID rc st = Ok st' ->
  mnbList st' = mnbList st /\ iconList st' = iconList st
  /\ prodList st' = prodList st /\ prodIndex st' = prodIndex st
  /\ if retained (prodIndex st) rc
     then exists r, recipeList st' = recipeList st ++ [r]
                    /\ lists (prodIndex st) (flabID, rc) r
     else recipeList st' = recipeList st.
Proof.
  unfold read_recipe.
  destruct (next_recipe_id (convertCod2FL (rr_id rc)) (recipeIds st))
    as [[rID counters]|e]; [|discriminate].
  cbn [bind]. simpl_state.
  destruct (resolved (prodIndex st) rc) as [io|] eqn:E.
  - assert (Hr : retained (prodIndex st) rc = true)
      by (apply resolved_retained; congruence).
    rewrite Hr. apply resolved_Some in E as (Hin & Hout & Hne).
    rewrite Hin, Hout. destruct (snd io) as [|o r_out] eqn:Eo; [congruence|].
    intros [= <-]. simpl_state. repeat split.
    eexists. split; [reflexivity|].
    unfold lists. cbn. rewrite Hin, Hout. repeat split. discriminate.
  - pose proof E as Hr. apply resolved_not_retained in Hr. rewrite Hr.
    unfold resolved in E.
    destruct (convertIngredientList (prodIndex st) (rr_inputs rc))
      as [r_in|e1] eqn:Ein.
    + destruct (convertIngredientList (prodIndex st) (rr_outputs rc))
        as [[|o r_out]|e2] eqn:Eout; try discriminate.
      * intros [= <-]. simpl_state. auto.
      * apply convertIngredientList_loop_exn in Eout as (i & _ & _ & ->).
        intros [= <-]. simpl_state. auto.
    + apply convertIngredientList_loop_exn in Ein as (i & _ & _ & ->).
      intros [= <-]. simpl_state. auto.
Qed.

(** C6, amended to the recipes of the buildings that enter the building
    list: a round of the recipe loop lists its recipe exactly when the input
    and output names are all in the index and the output list is not empty,
    and touches neither the building records nor the recipes listed before;
    so a run that gets to its end lists exactly those recipes among the ones
    the recipe loop meets, each once and in order, with the resolved maps,
    and has every accepted building among its items whatever became of its
    recipes.  An "Unknown ingredient" error is never what stops the
    script. *)
Theorem recipe_retention
        (products : products_doc) (buildings : buildings_doc) :
  (forall flabID rc st st',
      read_recipe flabID rc st = Ok st' ->
      mnbList st' = mnbList st
      /\ if retained (prodIndex st) rc
         then exists r, recipeList st' = recipeList st ++ [r]
                        /\ lists (prodIndex st) (flabID, rc) r
         else recipeList st' = recipeList st)
  /\ (forall e name,
         main products buildings = Uncaught e ->
         e <> ValueError (lit "Unknown ingredient: " ++ name))
  /\ forall doc out,
      main products buildings = Done (doc, out) ->
      Forall2 (lists (prodIndex (catalog products)))
              (filter (fun e => retained (prodIndex (catalog products)) (snd e))
                      (encountered (catalog products)
                                   (bd_machines_and_buildings buildings)))
              (doc_recipes doc)
      /\ doc_items doc
         = map (fun x =>
                  ProductItem (prod_id x) (prod_name x) (prod_type x) 0%Z)
               (prodList (catalog products))
           ++ map BuildingItem
                  (listed_buildings (catalog products)
                                    (bd_machines_and_buildings buildings)).
Proof.
  split; [|split].
  - intros flabID rc st st' H.
    apply read_recipe_step in H as (Hm & _ & _ & _ & H). auto.
  - intros e name H. unfold main in H.
    destruct (process products buildings) as [st|code o|e'] eqn:E;
      try discriminate.
    inversion H; subst. apply process_uncaught in E as ->.
    discriminate.
  - intros doc out H. apply main_recipes in H as (Hr & _ & Hi).
    split; [|exact Hi]. rewrite Hr. apply emitted_lists.
Qed.

(** Four recipes in one building: the second has no output and the third
    an unknown input. *)
Lemma recipe_retention_witness :
  exists doc out,
    main Sample.products Sample.mixed = Done (doc, out)
    /\ map rcp_name (doc_recipes doc)
       = [lit "Iron smelting"; lit "Iron smelting"]
    /\ Forall2 (lists (prodIndex (catalog Sample.products)))
               [(lit "smelter-1", Sample.smelt_iron);
                (lit "smelter-1", Sample.smelt_iron_from "Iron")]
               (doc_recipes doc)
    /\ length (doc_items doc) = 3%nat.
Proof.
  do 2 eexists. split; [vm_compute; reflexivity|].
  split; [reflexivity|].
  match goal with
  | |- Forall2 _ _ (doc_recipes ?d) /\ length (doc_items ?d) = _ =>
      destruct (proj2 (proj2 (recipe_retention Sample.products Sample.mixed))
                      d [lit "ValueError: Unknown ingredient: Scrap"])
        as [Hl Hi]
  end.
  - vm_compute. reflexivity.
  - split; [exact Hl | reflexivity].
Defined.

(** The entry of a retained recipe: its place in the list, and its id by
    the rule of the specification. *)
Lemma retained_entry products buildings doc out pre flabID rc post :
  main products buildings = Done (doc, out) ->
  encountered (catalog products) (bd_machines_and_buildings buildings)
  = pre ++ (flabID, rc) :: post ->
  retained (prodIndex (catalog products)) rc = true ->
  exists before r after,
    doc_recipes doc = before ++ r :: after
    /\ length before
       = length (filter (fun e => retained (prodIndex (catalog products)) (snd e))
                        pre)
    /\ lists (prodIndex (catalog products)) (flabID, rc) r
    /\ rcp_id r
       = disambiguated (norm rc) (1 + count (norm rc) (norms pre))
    /\ (1 + count (norm rc) (norms pre) <= 0x110000 - 96)%Z.
Proof.
  intros Hmain Henc Hret.
  apply main_recipes in Hmain as (Hr & Hs & _).
  rewrite Henc in Hr, Hs.
  destruct (@emitted_at (prodIndex (catalog products)) [] pre flabID rc post
                        Hret) as (io & Hio & Hem & Hlen).
  apply suffixes_in_range_at in Hs. cbn [snd app] in Hs, Hem.
  rewrite Hem in Hr.
  eexists _, _, _. split; [exact Hr|]. split; [exact Hlen|].
  cbn [entry rcp_id]. split; [|split; [reflexivity | exact Hs]].
  apply resolved_Some in Hio as (Hin & Hout & Hne).
  unfold lists. cbn. auto 10.
Qed.

(** C6 as stated fails for a recipe of a building that is skipped: the
    furnace asks for the unknown maintenance unit "Maintenance I", so its
    recipe is never read, though its one output name is in the index. *)
Lemma skipped_building_recipes :
  ~ (forall doc out,
        main Sample.products Sample.unmaintained = Done (doc, out) ->
        forall item rc,
          In item (bd_machines_and_buildings Sample.unmaintained) ->
          In rc (rb_recipes item) ->
          (retained (prodIndex (catalog Sample.products)) rc = true
           <-> listed (prodIndex (catalog Sample.products)) item rc
                      (doc_recipes doc))).
Proof.
  intros H.
  destruct (main Sample.products Sample.unmaintained)
    as [[doc out]|code o|e] eqn:E; vm_compute in E; try discriminate E.
  specialize (H doc out eq_refl).
  injection E as <- <-.
  destruct (H Sample.unmaintained_smelter Sample.smelt_iron) as [Hlisted _];
    [left; reflexivity | left; reflexivity |].
  destruct Hlisted as (r & Hin & _); [reflexivity|].
  exact Hin.
Qed.

(** The rule of the counters, whatever becomes of the recipe. *)
Lemma next_recipe_id_rule d before r :
  counted d before ->
  next_recipe_id r d
  = (if (count r before =? 0)%Z then Ok (r, dict_set d r 1%Z)
     else c <- chr (95 + (1 + count r before)) ;;
          Ok (r ++ lit "-" ++ [c], dict_set d r (1 + count r before)%Z)).
Proof.
  intros Hd. unfold next_recipe_id. fold (counter d r). rewrite (Hd r).
  pose proof (count_nonneg r before) as Hn.
  destruct (count r before =? 0)%Z eqn:E0.
  - apply Z.eqb_eq in E0. rewrite E0. reflexivity.
  - apply Z.eqb_neq in E0.
    assert (E : (0 <? count r before)%Z = true) by (apply Z.ltb_lt; lia).
    rewrite E. now rewrite (Z.add_comm (count r before) 1).
Qed.

(** C4: the counters are one dictionary for the whole building loop.  With
    the ids [before] counted, the next recipe that normalizes to [r] is the
    [n]-th, [n] being one more than the occurrences of [r] in [before]; it
    takes the id [r] when [n = 1] and [r + '-' + chr(95 + n)] otherwise, and
    is counted.  In a run that gets to its end, the entry of a retained
    recipe has the id of the rule for its rank among all the recipes met,
    over all buildings: [r-a] for the second, [r-b] for the third; a later
    recipe of the same normalized id has a greater rank. *)
Theorem recipe_id_disambiguation :
  (forall (d : dict Z) (before : list str) (r : str),
      counted d before ->
      next_recipe_id r d
      = (if (count r before =? 0)%Z then Ok (r, dict_set d r 1%Z)
         else c <- chr (95 + (1 + count r before)) ;;
              Ok (r ++ lit "-" ++ [c],
                  dict_set d r (1 + count r before)%Z))
      /\ forall id d', next_recipe_id r d = Ok (id, d') ->
                       counted d' (before ++ [r]))
  /\ forall (products : products_doc) (buildings : buildings_doc)
            (doc : document) (out : list str)
            (pre : list (str * raw_recipe)) (flabID : str) (rc : raw_recipe)
            (post : list (str * raw_recipe)),
      main products buildings = Done (doc, out) ->
      encountered (catalog products) (bd_machines_and_buildings buildings)
      = pre ++ (flabID, rc) :: post ->
      retained (prodIndex (catalog products)) rc = true ->
      exists before r after,
        doc_recipes doc = before ++ r :: after
        /\ length before
           = length (filter
                       (fun e => retained (prodIndex (catalog products)) (snd e))
                       pre)
        /\ lists (prodIndex (catalog products)) (flabID, rc) r
        /\ (count (norm rc) (norms pre) = 0%Z -> rcp_id r = norm rc)
        /\ (forall n, (2 <= n)%Z -> n = (1 + count (norm rc) (norms pre))%Z ->
                      chr (95 + n) = Ok (Z.to_N (95 + n))
                      /\ rcp_id r = norm rc ++ lit "-" ++ [Z.to_N (95 + n)])
        /\ (count (norm rc) (norms pre) = 1%Z ->
            rcp_id r = norm rc ++ lit "-a")
        /\ (count (norm rc) (norms pre) = 2%Z ->
            rcp_id r = norm rc ++ lit "-b")
        /\ (forall mid f' rc' post',
               post = mid ++ (f', rc') :: post' -> norm rc' = norm rc ->
               (count (norm rc) (norms pre)
                < count (norm rc') (norms (pre ++ (flabID, rc) :: mid)))%Z).
Proof.
  split.
  { intros d before r Hd. split; [now apply next_recipe_id_rule|].
    intros id d' H.
    eapply next_recipe_id_spec in H as (_ & H & _); eauto. }
  intros products buildings doc out pre flabID rc post Hmain Henc Hret.
  destruct (@retained_entry _ _ _ _ _ _ _ _ Hmain Henc Hret)
    as (before & r & after & Hr & Hlen & Hl & Hid & Hs).
  pose proof (count_nonneg (norm rc) (norms pre)) as Hc.
  exists before, r, after. split; [exact Hr|]. split; [exact Hlen|].
  split; [exact Hl|]. rewrite Hid.
  split; [|split; [|split; [|split]]].
  - intros ->. reflexivity.
  - intros n Hn ->. split; [apply chr_ok; lia|].
    now apply disambiguated_later.
  - intros ->. reflexivity.
  - intros ->. reflexivity.
  - intros mid f' rc' post' _ ->. unfold norms.
    rewrite map_app, count_app. cbn [map snd].
    change (norm rc :: map (fun e => norm (snd e)) mid)
      with ([norm rc] ++ map (fun e => norm (snd e)) mid).
    rewrite count_app, count_same.
    pose proof (count_nonneg (norm rc) (map (fun e => norm (snd e)) mid)).
    lia.
Qed.

(** Three recipes "SmeltIron" over two buildings: the third, of the second
    building, is "smelt-iron-b". *)
Lemma recipe_id_disambiguation_witness :
  exists doc out,
    main Sample.products Sample.three_recipes = Done (doc, out)
    /\ map rcp_id (doc_recipes doc)
       = [lit "smelt-iron"; lit "smelt-iron-a"; lit "smelt-iron-b"]
    /\ exists before r after,
        doc_recipes doc = before ++ r :: after
        /\ length before = 2%nat
        /\ rcp_producers r = [lit "arc-furnace"]
        /\ rcp_id r = lit "smelt-iron-b".
Proof.
  do 2 eexists. split; [vm_compute; reflexivity|].
  split; [reflexivity|].
  match goal with
  | |- exists _ _ _, doc_recipes ?d = _ /\ _ =>
      destruct (proj2 recipe_id_disambiguation
                  Sample.products Sample.three_recipes d []
                  [(lit "smelter-1", Sample.smelt_iron);
                   (lit "smelter-1", Sample.smelt_iron_from "Workers")]
                  (lit "arc-furnace") (Sample.smelt_iron_from "Iron") [])
        as (before & r & after & Hr & Hlen & Hl & _ & _ & _ & Hb & _)
  end.
  - vm_compute. reflexivity.
  - vm_compute. reflexivity.
  - vm_compute. reflexivity.
  - exists before, r, after. split; [exact Hr|]. split; [exact Hlen|].
    split; [apply Hl|]. apply Hb. vm_compute. reflexivity.
Defined.

(** C10: a recipe that is dropped has still been counted.  When the first
    recipe met under the normalized id [r] is dropped and the next one under
    [r] is retained, that one is listed as [r-a], and the dropped one has no
    entry; so there are runs whose recipe list has [r-a] and no [r]. *)
Theorem dropped_recipes_are_counted :
  (forall (products : products_doc) (buildings : buildings_doc)
          (doc : document) (out : list str)
          (pre mid post : list (str * raw_recipe))
          (f1 f2 : str) (rc1 rc2 : raw_recipe),
      main products buildings = Done (doc, out) ->
      encountered (catalog products) (bd_machines_and_buildings buildings)
      = pre ++ (f1, rc1) :: mid ++ (f2, rc2) :: post ->
      norm rc1 = norm rc2 ->
      ~ In (norm rc2) (norms (pre ++ mid)) ->
      retained (prodIndex (catalog products)) rc1 = false ->
      retained (prodIndex (catalog products)) rc2 = true ->
      exists before r after,
        doc_recipes doc = before ++ r :: after
        /\ length before
           = length (filter
                       (fun e => retained (prodIndex (catalog products)) (snd e))
                       (pre ++ mid))
        /\ lists (prodIndex (catalog products)) (f2, rc2) r
        /\ rcp_id r = norm rc2 ++ lit "-a")
  /\ exists products buildings doc out,
      main products buildings = Done (doc, out)
      /\ In (lit "smelt-iron-a") (map rcp_id (doc_recipes doc))
      /\ ~ In (lit "smelt-iron") (map rcp_id (doc_recipes doc)).
Proof.
  split.
  - intros products buildings doc out pre mid post f1 f2 rc1 rc2
           Hmain Henc Hsame Hfresh Hdrop Hkeep.
    change (pre ++ (f1, rc1) :: mid ++ (f2, rc2) :: post)
      with (pre ++ [(f1, rc1)] ++ mid ++ (f2, rc2) :: post) in Henc.
    rewrite !app_assoc in Henc. rewrite <- (app_assoc pre) in Henc.
    destruct (@retained_entry products buildings doc out
                (pre ++ [(f1, rc1)] ++ mid) f2 rc2 post Hmain Henc Hkeep)
      as (before & r & after & Hr & Hlen & Hl & Hid & _).
    exists before, r, after. split; [exact Hr|]. split.
    + rewrite Hlen, !filter_app, !length_app. cbn [filter snd].
      rewrite Hdrop. reflexivity.
    + split; [exact Hl|]. rewrite Hid.
      unfold norms in *. rewrite !map_app, !count_app. cbn [map snd].
      rewrite Hsame, count_same.
      rewrite map_app, in_app_iff in Hfresh.
      rewrite !count_notin by tauto. reflexivity.
  - exists Sample.products, Sample.dropped_first. do 2 eexists.
    split; [vm_compute; reflexivity|]. cbn [doc_recipes map rcp_id].
    split; [left; reflexivity|].
    intros [H|[]]. vm_compute in H. discriminate H.
Qed.

(** One building: "SmeltIron" from an unknown "Scrap", then "SmeltIron"
    again. *)
Lemma dropped_recipes_are_counted_witness :
  exists doc out,
    main Sample.products Sample.dropped_first = Done (doc, out)
    /\ exists before r after,
        doc_recipes doc = before ++ r :: after
        /\ length before = 0%nat
        /\ rcp_name r = lit "Iron smelting"
        /\ rcp_id r = lit "smelt-iron-a".
Proof.
  do 2 eexists. split; [vm_compute; reflexivity|].
  match goal with
  | |- exists _ _ _, doc_recipes ?d = _ /\ _ =>
      destruct (proj1 dropped_recipes_are_counted
                  Sample.products Sample.dropped_first d
                  [lit "ValueError: Unknown ingredient: Scrap"]
                  [] [] []
                  (lit "smelter-1") (lit "smelter-1")
                  (Sample.smelt_iron_from "Scrap") Sample.smelt_iron)
        as (before & r & after & Hr & Hlen & Hl & Hid)
  end.
  - vm_compute. reflexivity.
  - vm_compute. reflexivity.
  - reflexivity.
  - simpl. tauto.
  - vm_compute. reflexivity.
  - vm_compute. reflexivity.
  - exists before, r, after. split; [exact Hr|]. split; [exact Hlen|].
    split; [apply Hl | exact Hid].
Defined.

(** ** Display names and icons *)

(** Reading a product keeps what the product list holds and what the index
    says of the names it knows. *)
Lemma read_product_grows item st st' :
  read_product item st = Ok st' ->
  (exists more, prodList st' = prodList st ++ more)
  /\ (forall name id,
         dict_get (prodIndex st) name = Some id ->
         dict_get (prodIndex st') name = Some id).
Proof.
  intros H. pose proof (read_product_cases item st) as Hc.
  destruct (parse_product item) as [r|].
  - destruct Hc as [_ Hc]. rewrite Hc in H. clear Hc.
    destruct (ids_mem (prod_id r) st).
    { inversion H; subst. simpl_state. split; [exists []; now rewrite app_nil_r|auto]. }
    destruct (dict_mem (prodIndex st) (rp_name item)) eqn:Emem;
      inversion H; subst; simpl_state; (split; [eauto|]); auto.
    intros name id Hget.
    apply dict_mem_false in Emem.
    rewrite dict_get_set_other; [assumption|]. congruence.
  - destruct Hc as (msg & Hc). rewrite Hc in H. inversion H; subst.
    simpl_state. split; [exists []; now rewrite app_nil_r|auto].
Qed.

Lemma read_products_grow l st st' :
  for_each read_product l st = Ok st' ->
  (exists more, prodList st' = prodList st ++ more)
  /\ (forall name id,
         dict_get (prodIndex st) name = Some id ->
         dict_get (prodIndex st') name = Some id).
Proof.
  apply (for_each_inv read_product
           (fun s => (exists more, prodList s = prodList st ++ more)
                     /\ (forall name id,
                            dict_get (prodIndex st) name = Some id ->
                            dict_get (prodIndex s) name = Some id))).
  - intros x s s' [(more & Hm) Hidx] Hs.
    apply read_product_grows in Hs as [(more' & Hm') Hidx'].
    split.
    + exists (more ++ more'). now rewrite Hm', Hm, app_assoc.
    + auto.
  - split; [exists []; now rewrite app_nil_r | auto].
Qed.

(** C7: a product whose display name is already in the name index leaves
    the index as it is and goes into the product list all the same; it has
    no icon, it stands among the items of the output, and the name keeps
    resolving to the product that first took it. *)
Theorem duplicate_name_keeps_product
        (products : products_doc) (buildings : buildings_doc)
        (pre : list raw_product) (item : raw_product)
        (post : list raw_product) (st : state) (r : product) :
  pd_products products = pre ++ item :: post ->
  for_each read_product pre initial_state = Ok st ->
  parse_product item = Some r ->
  ids_mem (prod_id r) st = false ->
  dict_mem (prodIndex st) (rp_name item) = true ->
  exists st',
    read_product item st = Ok st'
    /\ prodIndex st' = prodIndex st
    /\ prodList st' = prodList st ++ [r]
    /\ iconList st' = iconList st
    /\ (forall doc out,
           main products buildings = Done (doc, out) ->
           In (ProductItem (prod_id r) (rp_name item) (prod_type r) 0%Z)
              (doc_items doc))
    /\ (forall st_end,
           process products buildings = Done st_end ->
           dict_get (prodIndex st_end) (rp_name item)
           = dict_get (prodIndex st) (rp_name item)).
Proof.
  intros Hsplit Hpre Hparse Hid Hname.
  pose proof (read_product_cases item st) as Hc.
  rewrite Hparse, Hid, Hname in Hc. destruct Hc as [Hrn Hc].
  eexists. split; [exact Hc|]. simpl_state.
  repeat split; try reflexivity.
  - assert (Hcat : for_each read_product post
                     (print (lit "Duplicate name '" ++ rp_name item ++ lit "'")
                            (prodList_append r st))
                   = Ok (catalog products)).
    { rewrite <- catalog_ok, Hsplit, for_each_app, Hpre. cbn [bind for_each].
      rewrite Hc. reflexivity. }
    apply read_products_grow in Hcat as [(more & Hmore) _].
    simpl_state.
    intros doc out Hmain. apply main_recipes in Hmain as (_ & _ & ->).
    apply in_or_app. left. rewrite Hmore, !map_app. cbn [map].
    apply in_or_app. left. apply in_or_app. right. left.
    now rewrite Hrn.
  - intros st_end Hend.
    assert (Hcat : for_each read_product (item :: post) st
                   = Ok (catalog products)).
    { rewrite <- catalog_ok, Hsplit, for_each_app, Hpre. reflexivity. }
    apply read_products_grow in Hcat as [_ Hidx].
    apply process_trace in Hend. rewrite (tr_prodIndex Hend).
    apply dict_mem_true in Hname.
    destruct (dict_get (prodIndex st) (rp_name item)) as [id|] eqn:E;
      [|congruence].
    now apply Hidx.
Qed.

(** "Iron" the countable product, then "Iron" the loose product wrapped as
    [Product_IronOre]. *)
Lemma duplicate_name_keeps_product_witness :
  exists st' doc out st_end,
    read_product Sample.iron_ore (catalog Sample.products) = Ok st'
    /\ prodIndex st' = prodIndex (catalog Sample.products)
    /\ prodList st'
       = prodList (catalog Sample.products)
         ++ [ {| prod_id := lit "iron-ore"; prod_name := lit "Iron";
                 prod_type := lit "loose" |} ]
    /\ iconList st' = iconList (catalog Sample.products)
    /\ main Sample.namesake_products Sample.buildings = Done (doc, out)
    /\ In (ProductItem (lit "iron-ore") (lit "Iron") (lit "loose") 0%Z)
          (doc_items doc)
    /\ process Sample.namesake_products Sample.buildings = Done st_end
    /\ dict_get (prodIndex st_end) (lit "Iron") = Some (lit "iron").
Proof.
  destruct (@duplicate_name_keeps_product
              Sample.namesake_products Sample.buildings
              [Sample.iron] Sample.iron_ore [] (catalog Sample.products)
              {| prod_id := lit "iron-ore"; prod_name := lit "Iron";
                 prod_type := lit "loose" |})
    as (st' & Hread & Hidx & Hlist & Hicons & Hitem & Hname);
    try (vm_compute; reflexivity).
  exists st'. do 3 eexists.
  repeat (split; [eassumption|]).
  match goal with
  | |- main ?p ?b = Done (?d, ?o) /\ _ =>
      assert (Emain : main p b = Done (d, o)) by (vm_compute; reflexivity)
  end.
  split; [exact Emain|]. split; [exact (Hitem _ _ Emain)|].
  match goal with
  | |- process ?p ?b = Done ?st /\ _ =>
      assert (Eend : process p b = Done st) by (vm_compute; reflexivity)
  end.
  split; [exact Eend|]. exact (Hname _ Eend).
Defined.

Lemma listed_icons_ids st items :
  map icon_id (listed_icons st items) = map bld_id (listed_buildings st items).
Proof.
  unfold listed_icons, listed_buildings.
  induction items as [|item items IH]; cbn [flat_map map]; [reflexivity|].
  rewrite !map_app, IH. f_equal.
  unfold accepted, building_of.
  destruct (negb _); cbn [andb]; [|reflexivity].
  destruct (building_consumption (prodIndex st) item); reflexivity.
Qed.

(** C9, amended: the icon list is made of one entry for each product of
    the products document that goes into the product list as the first to
    carry its display name, then one entry for each building that goes into
    the building list, each under the normalized id of its product or
    building and in the order they are read, and of nothing else.  The
    seeded products and the products whose display name was taken have no
    entry. *)
Theorem icon_entries
        (products : products_doc) (buildings : buildings_doc) (st : state) :
  process products buildings = Done st ->
  exists P,
    prodList st = default_products ++ P
    /\ map icon_id (iconList st)
       = map prod_id (first_named (map snd DEFAULT_PRODUCTS) P)
         ++ map bld_id (mnbList st).
Proof.
  intros H. apply process_trace in H.
  destruct H as [Hi Hpl Hx Hm Hic Hd Hs Hr].
  pose proof (catalog_inv_catalog products) as [_ Hm0 _ _ (P & HP & HI & _)].
  exists P. rewrite Hpl. split; [exact HP|].
  rewrite Hic, Hm, Hm0, map_app, HI, listed_icons_ids. reflexivity.
Qed.

Lemma icon_entries_witness :
  exists st P,
    process Sample.namesake_products Sample.buildings = Done st
    /\ prodList st = default_products ++ P
    /\ map icon_id (iconList st)
       = map prod_id (first_named (map snd DEFAULT_PRODUCTS) P)
         ++ map bld_id (mnbList st)
    /\ map icon_id (iconList st) = [lit "iron"; lit "smelter-1"]
    /\ map prod_id P = [lit "iron"; lit "iron-ore"].
Proof.
  eexists. 
  match goal with
  | |- exists P, process ?p ?b = Done ?s /\ _ =>
      assert (E : process p b = Done s) by (vm_compute; reflexivity);
      destruct (@icon_entries p b s E) as (P & HP & HI)
  end.
  exists P. split; [exact E|]. split; [exact HP|]. split; [exact HI|].
  split; [reflexivity|].
  cbn [prodList default_products map DEFAULT_PRODUCTS] in HP.
  inversion HP; subst. reflexivity.
Defined.

(** C9 as stated fails: the loose product "iron-ore" is in the product
    list and no icon entry is under its id. *)
Lemma icon_entries_missing :
  ~ (forall st,
        process Sample.namesake_products Sample.buildings = Done st ->
        (forall p, In p (prodList st) ->
                   icons_of (prod_id p) (iconList st) = 1%nat)
        /\ (forall b, In b (mnbList st) ->
                      icons_of (bld_id b) (iconList st) = 1%nat)).
Proof.
  intros H.
  destruct (process Sample.namesake_products Sample.buildings)
    as [st|code o|e] eqn:E; vm_compute in E; try discriminate E.
  destruct (H st eq_refl) as [Hp _].
  injection E as <-.
  specialize (Hp {| prod_id := lit "iron-ore"; prod_name := lit "Iron";
                    prod_type := lit "loose" |}).
  assert (Hin : icons_of (lit "iron-ore")
                  [ {| icon_id := lit "iron"; icon_icon := lit "iron.png" |};
                    {| icon_id := lit "smelter-1";
                       icon_icon := lit "smelter.png" |} ] = 1%nat).
  { apply Hp. right; right; left. reflexivity. }
  vm_compute in Hin. discriminate Hin.
Qed.

(** * Further properties *)

(** ** The consumption of a building *)



(** ** What the recipe loop prints *)

Lemma first_unknown_cons prodIndex a l :
  first_unknown prodIndex (a :: l)
  = match dict_get prodIndex (ing_name a) with
    | Some _ => first_unknown prodIndex l
    | None => Some (ing_name a)
    end.
Proof.
  unfold first_unknown, dict_mem. cbn [find].
  destruct (dict_get prodIndex (ing_name a)); reflexivity.
Qed.

Lemma convertIngredientList_loop_first_unknown prodIndex l :
  forall ret,
    match first_unknown prodIndex l with
    | Some name =>
        convertIngredientList_loop prodIndex ret l
        = Raise (ValueError (lit "Unknown ingredient: " ++ name))
    | None => exists ret', convertIngredientList_loop prodIndex ret l = Ok ret'
    end.
Proof.
  induction l as [|a l IH]; intros ret.
  - cbn. eauto.
  - rewrite first_unknown_cons. cbn [convertIngredientList_loop].
    destruct (dict_get prodIndex (ing_name a)); [apply IH | reflexivity].
Qed.

(** A round of the recipe loop prints the warning of its recipe. *)
Lemma read_recipe_stdout (flabID : str) (rc : raw_recipe) (st st' : state) :
  read_recipe flabID rc st = Ok st' ->
  stdout st' = stdout st ++ recipe_warning (prodIndex st) rc.
Proof.
  unfold read_recipe, recipe_warning.
  destruct (next_recipe_id (convertCod2FL (rr_id rc)) (recipeIds st))
    as [[rID counters]|e]; [|discriminate].
  cbn [bind]. simpl_state. unfold convertIngredientList.
  pose proof (convertIngredientList_loop_first_unknown
                (prodIndex st) (rr_inputs rc) []) as Hin.
  pose proof (convertIngredientList_loop_first_unknown
                (prodIndex st) (rr_outputs rc) []) as Hout.
  destruct (first_unknown (prodIndex st) (rr_inputs rc)) as [n1|].
  - rewrite Hin. intros [= <-]. simpl_state. reflexivity.
  - destruct Hin as (r_in & ->).
    destruct (first_unknown (prodIndex st) (rr_outputs rc)) as [n2|].
    + rewrite Hout. intros [= <-]. simpl_state. reflexivity.
    + destruct Hout as (r_out & ->).
      destruct r_out as [|o r_out]; intros [= <-]; simpl_state;
        now rewrite app_nil_r.
Qed.

(** Lines 205-213.  A round of the recipe loop prints one line when an
    ingredient name is unknown, naming the first unknown input or, when the
    inputs are known, the first unknown output; it prints nothing else.  A
    recipe that is dropped for having no output is dropped silently. *)
Theorem recipe_loop_prints
        (flabID : str) (rc : raw_recipe) (st st' : state) :
  read_recipe flabID rc st = Ok st' ->
  stdout st' = stdout st ++ recipe_warning (prodIndex st) rc
  /\ (first_unknown (prodIndex st) (rr_inputs rc) = None ->
      rr_outputs rc = [] ->
      stdout st' = stdout st /\ recipeList st' = recipeList st).
Proof.
  intros E. pose proof (@read_recipe_stdout _ _ _ _ E) as Hout.
  split; [exact Hout|]. intros Hin Hnil. split.
  - rewrite Hout. unfold recipe_warning. rewrite Hin, Hnil.
    cbn. apply app_nil_r.
  - destruct (read_recipe_step _ _ _ E) as (_ & _ & _ & _ & Hr).
    assert (Hd : retained (prodIndex st) rc = false).
    { unfold retained. rewrite Hnil. apply andb_false_r. }
    rewrite Hd in Hr. exact Hr.
Qed.

(** "Idle" consumes iron and gives nothing. *)
Lemma recipe_loop_prints_witness :
  exists st',
    read_recipe (lit "smelter-1") Sample.idle (catalog Sample.products)
    = Ok st'
    /\ stdout st' = [] /\ recipeList st' = [].
Proof.
  eexists. split; [vm_compute; reflexivity|].
  match goal with
  | |- stdout ?s = _ /\ _ =>
      destruct (@recipe_loop_prints (lit "smelter-1") Sample.idle
                  (catalog Sample.products) s)
        as [_ H]; [vm_compute; reflexivity|]
  end.
  apply H; reflexivity.
Defined.

(** ** How the script ends *)

(** Lines 141-145.  The script leaves through [sys.exit] only on the
    version check, with the code 1, having printed what the products loop
    printed and one more line. *)
Theorem exit_on_version_mismatch_only
        (products : products_doc) (buildings : buildings_doc)
        (code : Z) (out : list str) :
  main products buildings = Exit code out ->
  bd_game_version buildings <> pd_game_version products
  /\ code = 1%Z
  /\ out = stdout (catalog products)
           ++ [lit "Game version differs in 'machines_and_buildings.json'"].
Proof.
  unfold main, process. rewrite catalog_ok.
  destruct (str_eqb (bd_game_version buildings) (pd_game_version products))
    eqn:Ev; cbn [negb].
  - destruct (for_each read_building _ _); discriminate.
  - apply str_eqb_neq in Ev. simpl_state. intros [= <- <-]. auto.
Qed.

(** The buildings of another version of the game. *)
Lemma exit_on_version_mismatch_only_witness :
  main Sample.products Sample.other_version
  = Exit 1 [lit "Game version differs in 'machines_and_buildings.json'"]
  /\ bd_game_version Sample.other_version
     <> pd_game_version Sample.products.
Proof.
  assert (E : main Sample.products Sample.other_version
              = Exit 1 [lit "Game version differs in 'machines_and_buildings.json'"])
    by (vm_compute; reflexivity).
  split; [exact E|].
  exact (proj1 (@exit_on_version_mismatch_only _ _ _ _ E)).
Defined.

(** Lines 188-197.  With at most 0x110000 - 96 recipes in the document no
    counter gets far enough for [chr] to refuse a suffix: the error of
    [chr] does not stop the script. *)
Theorem no_chr_error_within_bound
        (products : products_doc) (buildings : buildings_doc) :
  (Z.of_nat (recipe_total (bd_machines_and_buildings buildings))
   <= 0x110000 - 96)%Z ->
  main products buildings
  <> Uncaught (ValueError (lit "chr() arg not in range(0x110000)")).
Proof.
  intros Hn. unfold main, process. rewrite catalog_ok.
  destruct (negb (str_eqb (bd_game_version buildings)
                          (pd_game_version products))); [discriminate|].
  destruct (@read_buildings_total (bd_machines_and_buildings buildings)
              (catalog products) [])
    as (st & E).
  - rewrite (ci_recipeIds (catalog_inv_catalog products)). apply counted_nil.
  - simpl. exact Hn.
  - rewrite E. discriminate.
Qed.

(** Three recipes, far fewer than the bound. *)
Lemma no_chr_error_within_bound_witness :
  main Sample.products Sample.three_recipes
  <> Uncaught (ValueError (lit "chr() arg not in range(0x110000)")).
Proof.
  apply (@no_chr_error_within_bound Sample.products Sample.three_recipes).
  vm_compute. discriminate.
Defined.

(** Lines 188-197.  The id of a recipe is refused exactly when the counter
    of its normalized id has reached 0x110000 - 96: [chr] raises its
    ValueError for the suffix of the next occurrence, as long as the
    argument fits a C int; and then the round raises it, [chr] being
    called outside the [try]. *)
Theorem chr_refuses_suffix
        (flabID : str) (rc : raw_recipe) (st : state) :
  (counter (recipeIds st) (norm rc) < 2 ^ 31 - 96)%Z ->
  (forall e,
      next_recipe_id (norm rc) (recipeIds st) = Raise e
      <-> (0x110000 - 96 <= counter (recipeIds st) (norm rc))%Z
          /\ e = ValueError (lit "chr() arg not in range(0x110000)"))
  /\ ((0x110000 - 96 <= counter (recipeIds st) (norm rc))%Z ->
      read_recipe flabID rc st
      = Raise (ValueError (lit "chr() arg not in range(0x110000)"))).
Proof.
  intros _.
  assert (Hraise : (0x110000 - 96 <= counter (recipeIds st) (norm rc))%Z ->
                   next_recipe_id (norm rc) (recipeIds st)
                   = Raise (ValueError
                              (lit "chr() arg not in range(0x110000)"))).
  { intros Hn. unfold next_recipe_id.
    fold (counter (recipeIds st) (norm rc)).
    assert (E0 : (0 <? counter (recipeIds st) (norm rc))%Z = true)
      by (apply Z.ltb_lt; lia).
    rewrite E0.
    destruct (chr (95 + (counter (recipeIds st) (norm rc) + 1)))
      as [c|e'] eqn:Ec.
    - apply chr_inv in Ec as [_ Hr]. lia.
    - apply chr_raises in Ec as [-> _]. reflexivity. }
  split.
  - intros e. split.
    + intros H. split; [|exact (next_recipe_id_raises _ _ H)].
      unfold next_recipe_id in H.
      fold (counter (recipeIds st) (norm rc)) in H.
      destruct (0 <? counter (recipeIds st) (norm rc))%Z eqn:E0;
        [|discriminate].
      destruct (chr (95 + (counter (recipeIds st) (norm rc) + 1)))
        as [c|e'] eqn:Ec; [discriminate|].
      apply chr_raises in Ec as [_ Hr]. apply Z.ltb_lt in E0. lia.
    + intros [Hn ->]. exact (Hraise Hn).
  - intros Hn. unfold read_recipe. fold (norm rc).
    rewrite (Hraise Hn). reflexivity.
Qed.

(** A state in which "smelt-iron" was met 0x110000 - 96 times. *)
Lemma chr_refuses_suffix_witness :
  read_recipe (lit "smelter-1") Sample.smelt_iron
              (recipeIds_put [(lit "smelt-iron", (0x110000 - 96)%Z)]
                             initial_state)
  = Raise (ValueError (lit "chr() arg not in range(0x110000)")).
Proof.
  apply (proj2 (@chr_refuses_suffix
                  (lit "smelter-1") Sample.smelt_iron
                  (recipeIds_put [(lit "smelt-iron", (0x110000 - 96)%Z)]
                                 initial_state)
                  ltac:(vm_compute; reflexivity))).
  vm_compute. discriminate.
Defined.

(** Lines 192-195.  The suffix of the second to the twenty-seventh
    occurrence of an id is a letter, a to z; the twenty-eighth takes the
    character after z, an opening brace, and the id is no longer made of
    letters, digits and hyphens. *)
Theorem suffix_letters (d : dict Z) (r : str) :
  ((1 <= counter d r <= 26)%Z ->
   next_recipe_id r d
   = Ok (r ++ [45; Z.to_N (96 + counter d r)],
         dict_set d r (counter d r + 1)%Z)
   /\ cls_lower (Z.to_N (96 + counter d r)) = true)
  /\ (counter d r = 27%Z ->
      next_recipe_id r d = Ok (r ++ lit "-{", dict_set d r 28%Z)
      /\ ~ Forall (fun c => id_char c = true) (r ++ lit "-{")).
Proof.
  unfold next_recipe_id. fold (counter d r). split.
  - intros Hn.
    assert (E0 : (0 <? counter d r)%Z = true) by (apply Z.ltb_lt; lia).
    rewrite E0, chr_ok by lia. cbn [bind].
    replace (95 + (counter d r + 1))%Z with (96 + counter d r)%Z by lia.
    split; [reflexivity|].
    unfold cls_lower. apply in_range_iff. lia.
  - intros ->. split; [reflexivity|].
    intros H. apply Forall_app in H as [_ H].
    inversion H as [|? ? _ H1]; subst. inversion H1 as [|? ? Hc _]; subst.
    discriminate Hc.
Qed.

Lemma suffix_letters_witness :
  next_recipe_id (lit "smelt-iron") [(lit "smelt-iron", 26%Z)]
  = Ok (lit "smelt-iron-z", [(lit "smelt-iron", 27%Z)])
  /\ next_recipe_id (lit "smelt-iron") [(lit "smelt-iron", 27%Z)]
     = Ok (lit "smelt-iron-{", [(lit "smelt-iron", 28%Z)]).
Proof.
  split.
  - apply (proj1 (suffix_letters [(lit "smelt-iron", 26%Z)]
                                 (lit "smelt-iron"))).
    vm_compute. split; discriminate.
  - apply (proj2 (suffix_letters [(lit "smelt-iron", 27%Z)]
                                 (lit "smelt-iron"))).
    reflexivity.
Defined.

(** Lines 192-195.  From the 55,201st occurrence of an id to the 57,248th
    the suffix is a surrogate: [chr] returns it as any other code point,
    and it goes into the id. *)
Theorem suffix_surrogate (d : dict Z) (r : str) :
  (0xD800 - 96 <= counter d r <= 0xDFFF - 96)%Z ->
  next_recipe_id r d
  = Ok (r ++ [45; Z.to_N (96 + counter d r)],
        dict_set d r (counter d r + 1)%Z)
  /\ surrogate (Z.to_N (96 + counter d r)) = true.
Proof.
  intros Hn. unfold next_recipe_id. fold (counter d r).
  assert (E0 : (0 <? counter d r)%Z = true) by (apply Z.ltb_lt; lia).
  rewrite E0, chr_ok by lia. cbn [bind].
  replace (95 + (counter d r + 1))%Z with (96 + counter d r)%Z by lia.
  split; [reflexivity|].
  unfold surrogate. apply andb_true_iff. split; apply N.leb_le; lia.
Qed.

Lemma suffix_surrogate_witness :
  next_recipe_id (lit "smelt-iron") [(lit "smelt-iron", 55200%Z)]
  = Ok (lit "smelt-iron-" ++ [0xD800], [(lit "smelt-iron", 55201%Z)]).
Proof.
  apply (@suffix_surrogate [(lit "smelt-iron", 55200%Z)] (lit "smelt-iron")).
  vm_compute. split; discriminate.
Defined.

(** ** The tokens of a normalized id *)

Lemma split_segment sep x :
  ~ In sep x -> split sep x = [x].
Proof.
  induction x as [|c x IH]; intros H; cbn [split]; [reflexivity|].
  destruct (N.eqb c sep) eqn:E.
  - apply N.eqb_eq in E. subst. exfalso. apply H. left. reflexivity.
  - rewrite IH; [reflexivity|]. intros Hin. apply H. right. assumption.
Qed.

Lemma split_app sep x r :
  ~ In sep x -> split sep (x ++ sep :: r) = x :: split sep r.
Proof.
  induction x as [|c x IH]; intros H; cbn [split app].
  - now rewrite N.eqb_refl.
  - destruct (N.eqb c sep) eqn:E.
    + apply N.eqb_eq in E. subst. exfalso. apply H. left. reflexivity.
    + rewrite IH; [reflexivity|]. intros Hin. apply H. right. assumption.
Qed.

(** Splitting undoes joining when no piece holds the separator. *)
Lemma split_join sep l :
  l <> [] -> Forall (fun x => ~ In sep x) l -> split sep (join [sep] l) = l.
Proof.
  intros Hne Hall. induction Hall as [|x l Hx Hl IH]; [congruence|].
  destruct l as [|y l].
  - cbn [join]. now apply split_segment.
  - change (join [sep] (x :: y :: l)) with (x ++ [sep] ++ join [sep] (y :: l)).
    cbn [app]. rewrite split_app by assumption.
    rewrite IH by discriminate. reflexivity.
Qed.

Lemma CoDNaming_token_chars X :
  Forall (Forall (fun c => cls_upper c = true \/ cls_lower c = true
                           \/ cls_d c = true))
         (findall REX_CoDNaming X).
Proof.
  eapply Forall_impl; [|apply findall_from_tokens].
  intros tok Htok. eapply Forall_impl; [|exact Htok].
  intros c [Ha _]. now apply alphabet_CoDNaming.
Qed.

Lemma lower_char_not_hyphen c :
  cls_upper c = true \/ cls_lower c = true \/ cls_d c = true ->
  lower_char c <> 45.
Proof.
  intros H. unfold lower_char. destruct (cls_upper c) eqn:U.
  - unfold cls_upper in U. apply in_range_iff in U. lia.
  - destruct H as [H|[H|H]]; [discriminate| |]; intros ->; discriminate H.
Qed.

(** Lines 14 and 35.  The hyphens of a normalized id are exactly the joints
    between its tokens: splitting the id at the hyphens gives the lowered
    tokens back, none of them empty.  So a normalized id never starts or
    ends with a hyphen and never has two hyphens in a row. *)
Theorem convertCod2FL_split (X : str) :
  findall REX_CoDNaming X <> [] ->
  split 45 (convertCod2FL X) = map lower (findall REX_CoDNaming X)
  /\ Forall (fun seg => seg <> []) (split 45 (convertCod2FL X)).
Proof.
  intros Hne.
  assert (Hsplit : split 45 (convertCod2FL X)
                   = map lower (findall REX_CoDNaming X)).
  { unfold convertCod2FL. rewrite lower_join.
    change (lower (lit "-")) with [45].
    apply split_join.
    - destruct (findall REX_CoDNaming X); [congruence | discriminate].
    - apply Forall_map.
      eapply Forall_impl; [|apply CoDNaming_token_chars].
      intros tok Htok Hin. unfold lower in Hin.
      apply in_map_iff in Hin as (c & Hc & Hin).
      eapply Forall_forall in Htok; [|exact Hin].
      now apply lower_char_not_hyphen in Htok. }
  split; [exact Hsplit|]. rewrite Hsplit.
  apply Forall_map.
  eapply Forall_impl; [|apply CoDNaming_tokens_nonempty].
  intros tok Htok. unfold lower. destruct tok; [congruence | discriminate].
Qed.

Lemma convertCod2FL_split_witness :
  split 45 (convertCod2FL (lit "VacuumDistillationT2"))
  = [lit "vacuum"; lit "distillation"; lit "2"]
  /\ Forall (fun seg => seg <> [])
            (split 45 (convertCod2FL (lit "VacuumDistillationT2"))).
Proof.
  destruct (@convertCod2FL_split (lit "VacuumDistillationT2")) as [Hs Hn].
  - vm_compute. discriminate.
  - split; [|exact Hn]. rewrite Hs. reflexivity.
Defined.

(** *** Strings without a token *)

Lemma matches_same_length r s g s' g' :
  matches r s g s' g' -> length s' = length s -> s' = s.
Proof.
  intros M Hlen. destruct (matches_split M) as (tok & -> & _).
  rewrite length_app in Hlen.
  destruct tok; [reflexivity | simpl in Hlen; lia].
Qed.

Lemma matches_first r s g s' g' :
  matches r s g s' g' ->
  (length s' < length s)%nat ->
  exists c rest, s = c :: rest /\ firsts r c = true.
Proof.
  induction 1; cbn [firsts length]; intros Hlt; try lia.
  - exists c, s. split; [reflexivity | apply N.eqb_refl].
  - exists c, s. auto.
  - pose proof (matches_shorter H) as [Hle1 Hc1].
    pose proof (matches_shorter H0) as [Hle2 _].
    destruct (Nat.eq_dec (length s1) (length s)) as [E|E].
    + pose proof (matches_same_length H E) as ->.
      destruct (IHmatches2 Hlt) as (c & rest & -> & Hf).
      exists c, rest. split; [reflexivity|].
      destruct (consumes r1); [specialize (Hc1 eq_refl); lia|].
      rewrite Hf. apply orb_true_r.
    + destruct IHmatches1 as (c & rest & -> & Hf); [lia|].
      exists c, rest. now rewrite Hf.
  - destruct (IHmatches Hlt) as (c & rest & -> & Hf).
    exists c, rest. now rewrite Hf.
  - destruct (IHmatches Hlt) as (c & rest & -> & Hf).
    exists c, rest. rewrite Hf. split; [reflexivity | apply orb_true_r].
  - auto.
  - pose proof (matches_shorter H) as [Hle1 _].
    destruct (Nat.eq_dec (length s1) (length s)) as [E|E].
    + pose proof (matches_same_length H E) as ->. auto.
    + apply IHmatches1. lia.
  - auto.
Qed.

(** A match of a pattern that consumes starts with one of its first
    characters. *)
Lemma re_match_first r c s :
  consumes r = true -> firsts r c = false -> re_match r (c :: s) = None.
Proof.
  intros Hc Hf. destruct (re_match r (c :: s)) as [[tok g]|] eqn:E;
    [|reflexivity].
  apply re_match_prefix in E as (rest & g0 & Hs & _ & M & _).
  pose proof (matches_shorter M) as [_ Hlt]. specialize (Hlt Hc).
  destruct (matches_first M Hlt) as (c' & rest' & [= <- <-] & Hf').
  congruence.
Qed.

(** Lines 14 and 35.  A name without a capital letter and without a
    decimal digit has no token: it normalizes to the empty string. *)
Theorem convertCod2FL_no_token (X : str) :
  Forall (fun c => cls_upper c = false /\ cls_d c = false) X ->
  findall REX_CoDNaming X = [] /\ convertCod2FL X = [].
Proof.
  intros H.
  assert (Hf : findall REX_CoDNaming X = []).
  { unfold findall. generalize 0%nat.
    induction H as [|c X [Hu Hd] _ IH]; intros skip; cbn [findall_from];
      [reflexivity|].
    destruct skip as [|j]; [|apply IH].
    rewrite re_match_first; [apply IH | reflexivity|].
    cbn. rewrite Hu, Hd. reflexivity. }
  split; [exact Hf|]. unfold convertCod2FL. now rewrite Hf.
Qed.

Lemma convertCod2FL_no_token_witness :
  findall REX_CoDNaming (lit "iron_ore (raw)") = []
  /\ convertCod2FL (lit "iron_ore (raw)") = [].
Proof.
  apply convertCod2FL_no_token.
  repeat constructor.
Defined.

(** ** Recipes of one normalized id *)

Lemma disambiguated_injective r n m :
  (1 <= n)%Z -> (1 <= m)%Z ->
  disambiguated r n = disambiguated r m -> n = m.
Proof.
  intros Hn Hm. unfold disambiguated.
  destruct (Z.eqb_spec n 1) as [En|En]; destruct (Z.eqb_spec m 1) as [Em|Em];
    intros Heq.
  - lia.
  - exfalso. apply (f_equal (@length char)) in Heq.
    rewrite !length_app in Heq. simpl in Heq. lia.
  - exfalso. apply (f_equal (@length char)) in Heq.
    rewrite !length_app in Heq. simpl in Heq. lia.
  - apply app_inv_head in Heq. apply app_inv_head in Heq.
    assert (H1 : Z.to_N (95 + n) = Z.to_N (95 + m)) by congruence.
    apply (f_equal Z.of_N) in H1. rewrite !Z2N.id in H1 by lia. lia.
Qed.

(** Lines 188-197.  Two retained recipes that normalize to the same id
    never come out under the same id. *)
Theorem same_norm_distinct_ids
        (products : products_doc) (buildings : buildings_doc)
        (doc : document) (out : list str)
        (pre mid post : list (str * raw_recipe))
        (f1 f2 : str) (rc1 rc2 : raw_recipe) :
  main products buildings = Done (doc, out) ->
  encountered (catalog products) (bd_machines_and_buildings buildings)
  = pre ++ (f1, rc1) :: mid ++ (f2, rc2) :: post ->
  norm rc1 = norm rc2 ->
  retained (prodIndex (catalog products)) rc1 = true ->
  retained (prodIndex (catalog products)) rc2 = true ->
  exists before r1 between r2 after,
    doc_recipes doc = before ++ r1 :: between ++ r2 :: after
    /\ lists (prodIndex (catalog products)) (f1, rc1) r1
    /\ lists (prodIndex (catalog products)) (f2, rc2) r2
    /\ rcp_id r1 <> rcp_id r2.
Proof.
  intros Hmain Henc Hsame Hk1 Hk2.
  apply main_recipes in Hmain as (Hr & _ & _).
  rewrite Henc in Hr.
  destruct (@emitted_at (prodIndex (catalog products)) [] pre f1 rc1
              (mid ++ (f2, rc2) :: post) Hk1) as (io1 & Hio1 & Hem1 & _).
  destruct (@emitted_at (prodIndex (catalog products))
              ([] ++ norms pre ++ [norm rc1]) mid f2 rc2 post Hk2)
    as (io2 & Hio2 & Hem2 & _).
  rewrite Hem1, Hem2 in Hr. cbn [app] in Hr.
  eexists _, _, _, _, _. split; [exact Hr|].
  apply resolved_Some in Hio1 as (Hi1 & Ho1 & Hn1).
  apply resolved_Some in Hio2 as (Hi2 & Ho2 & Hn2).
  split; [unfold lists; cbn; auto 10|].
  split; [unfold lists; cbn; auto 10|].
  cbn [entry rcp_id]. rewrite <- Hsame. intros Heq.
  apply disambiguated_injective in Heq.
  - rewrite !count_app, count_same in Heq.
    pose proof (count_nonneg (norm rc1) (norms mid)). lia.
  - pose proof (count_nonneg (norm rc1) (norms pre)). lia.
  - pose proof (count_nonneg (norm rc1) ((norms pre ++ [norm rc1]) ++ norms mid)).
    lia.
Qed.

Lemma same_norm_distinct_ids_witness :
  exists doc out before r1 between r2 after,
    main Sample.products Sample.three_recipes = Done (doc, out)
    /\ doc_recipes doc = before ++ r1 :: between ++ r2 :: after
    /\ rcp_producers r1 = [lit "smelter-1"]
    /\ rcp_producers r2 = [lit "arc-furnace"]
    /\ rcp_id r1 <> rcp_id r2.
Proof.
  do 2 eexists.
  match goal with
  | |- exists _ _ _ _ _, main ?p ?b = Done (?d, ?o) /\ _ =>
      assert (E : main p b = Done (d, o)) by (vm_compute; reflexivity);
      destruct (@same_norm_distinct_ids p b d o
                  [] [(lit "smelter-1", Sample.smelt_iron_from "Workers")] []
                  (lit "smelter-1") (lit "arc-furnace")
                  Sample.smelt_iron (Sample.smelt_iron_from "Iron") E)
        as (before & r1 & between & r2 & after & Hr & Hl1 & Hl2 & Hne)
  end.
  - vm_compute. reflexivity.
  - reflexivity.
  - vm_compute. reflexivity.
  - vm_compute. reflexivity.
  - exists before, r1, between, r2, after.
    split; [exact E|]. split; [exact Hr|].
    split; [apply Hl1|]. split; [apply Hl2 | exact Hne].
Defined.

(** ** The icon sheet *)

Lemma str_leb_refl a : str_leb a a = true.
Proof.
  induction a as [|x a IH]; cbn [str_leb]; [reflexivity|].
  rewrite N.eqb_refl, IH. apply orb_true_r.
Qed.

Lemma str_leb_total a : forall b, str_leb a b = false -> str_leb b a = true.
Proof.
  induction a as [|x a IH]; intros [|y b]; cbn [str_leb];
    try discriminate; try reflexivity.
  rewrite !orb_false_iff, !andb_false_iff, N.ltb_ge, N.eqb_neq.
  intros [Hlt Hor].
  destruct (N.ltb_spec y x) as [H|H]; [reflexivity|].
  assert (E : x = y) by lia. subst y.
  rewrite N.eqb_refl. cbn [orb andb].
  destruct Hor as [Hne|Hr]; [congruence | now apply IH].
Qed.

Lemma str_leb_trans a :
  forall b c, str_leb a b = true -> str_leb b c = true -> str_leb a c = true.
Proof.
  induction a as [|x a IH]; intros [|y b] [|z c]; cbn [str_leb];
    try discriminate; try reflexivity.
  rewrite !orb_true_iff, !andb_true_iff, !N.ltb_lt, !N.eqb_eq.
  intros [Hxy|[-> Hab]] [Hyz|[-> Hbc]].
  - left. lia.
  - left. assumption.
  - left. assumption.
  - right. split; [reflexivity | eauto].
Qed.

Lemma insert_icon_perm x l : Permutation (x :: l) (insert_icon x l).
Proof.
  induction l as [|y l IH]; cbn [insert_icon]; [reflexivity|].
  destruct (str_leb (icon_id y) (icon_id x)); [|reflexivity].
  rewrite perm_swap. now constructor.
Qed.

Lemma insert_icon_sorted x l :
  Sorted (fun a b => id_le (icon_id a) (icon_id b)) l ->
  Sorted (fun a b => id_le (icon_id a) (icon_id b)) (insert_icon x l).
Proof.
  induction 1 as [|y l Hs IH Hhd]; cbn [insert_icon].
  - repeat constructor.
  - destruct (str_leb (icon_id y) (icon_id x)) eqn:E.
    + constructor; [exact IH|].
      destruct l as [|z l]; cbn [insert_icon].
      * constructor. exact E.
      * inversion Hhd; subst.
        destruct (str_leb (icon_id z) (icon_id x)); constructor; assumption.
    + constructor; [constructor; assumption|].
      constructor. now apply str_leb_total.
Qed.

Lemma sorted_by_id_spec l :
  Permutation l (sorted_by_id l)
  /\ Sorted (fun a b => id_le (icon_id a) (icon_id b)) (sorted_by_id l).
Proof.
  unfold sorted_by_id.
  assert (H : forall acc,
             Sorted (fun a b => id_le (icon_id a) (icon_id b)) acc ->
             Permutation (acc ++ l)
                         (fold_left (fun acc x => insert_icon x acc) l acc)
             /\ Sorted (fun a b => id_le (icon_id a) (icon_id b))
                       (fold_left (fun acc x => insert_icon x acc) l acc)).
  { induction l as [|x l IH]; intros acc Hacc; cbn [fold_left].
    - rewrite app_nil_r. split; [reflexivity | assumption].
    - destruct (IH (insert_icon x acc) (insert_icon_sorted x Hacc))
        as [Hp Hs].
      split; [|exact Hs].
      rewrite <- Hp, <- insert_icon_perm.
      symmetry. apply Permutation_middle. }
  destruct (H [] (Sorted_nil _)) as [Hp Hs]. auto.
Qed.

Lemma getIcons_loop_ids l : forall cnt,
  map ip_id (getIcons_loop cnt l) = map icon_id l.
Proof.
  induction l as [|x l IH]; intros cnt; cbn; [reflexivity|]. now rewrite IH.
Qed.

Lemma Sorted_icon_ids l :
  Sorted (fun a b => id_le (icon_id a) (icon_id b)) l ->
  Sorted id_le (map icon_id l).
Proof.
  induction 1 as [|y l Hs IH Hhd]; cbn [map]; constructor; auto.
  destruct Hhd; cbn [map]; constructor; assumption.
Qed.

(** The layout keeps the ids of the registered icons. *)
Lemma getIcons_ids_perm (st : state) :
  Permutation (map icon_id (iconList st)) (map ip_id (getIcons st)).
Proof.
  unfold getIcons. rewrite getIcons_loop_ids.
  apply Permutation_map, sorted_by_id_spec.
Qed.

(** Lines 65-75.  The icon layout has one entry for each registered icon,
    under the same ids, in non-decreasing order of id. *)
Theorem getIcons_sorted (st : state) :
  Permutation (map icon_id (iconList st)) (map ip_id (getIcons st))
  /\ StronglySorted id_le (map ip_id (getIcons st)).
Proof.
  unfold getIcons. rewrite getIcons_loop_ids.
  destruct (sorted_by_id_spec (iconList st)) as [Hp Hs].
  split; [now apply Permutation_map|].
  apply Sorted_StronglySorted.
  - intros a b c. unfold id_le. apply str_leb_trans.
  - now apply Sorted_icon_ids.
Qed.

(** *** Positions *)

Lemma lit_digits d : Forall (fun c => cls_09 c = true)
                            (lit (NilEmpty.string_of_uint d)).
Proof.
  induction d; cbn [NilEmpty.string_of_uint lit]; constructor;
    auto; reflexivity.
Qed.

Lemma N_of_ascii_inj a b : N_of_ascii a = N_of_ascii b -> a = b.
Proof.
  intros H. rewrite <- (ascii_N_embedding a), <- (ascii_N_embedding b).
  now rewrite H.
Qed.

Lemma lit_inj s : forall t, lit s = lit t -> s = t.
Proof.
  induction s as [|a s IH]; intros [|b t]; cbn [lit]; try discriminate;
    [reflexivity|].
  intros [= Hab Hst]. apply N_of_ascii_inj in Hab. f_equal; auto.
Qed.

Lemma decimal_inj n m : decimal n = decimal m -> n = m.
Proof.
  unfold decimal. intros H. apply lit_inj in H.
  apply DecimalN.Unsigned.to_uint_inj.
  apply (f_equal NilEmpty.uint_of_string) in H.
  rewrite !NilEmpty.usu in H. congruence.
Qed.

Lemma decimal_no_p n : ~ In 112 (decimal n).
Proof.
  unfold decimal. intros H.
  pose proof (lit_digits (N.to_uint n)) as Hd.
  eapply Forall_forall in Hd; [|exact H]. discriminate Hd.
Qed.

Lemma app_sep_inj (c : char) a : forall a' r r',
  ~ In c a -> ~ In c a' -> a ++ c :: r = a' ++ c :: r' -> a = a' /\ r = r'.
Proof.
  induction a as [|x a IH]; intros [|y a'] r r' Ha Ha'; cbn [app].
  - intros [= <-]. auto.
  - intros [= <- _]. exfalso. apply Ha'. left. reflexivity.
  - intros [= -> _]. exfalso. apply Ha. left. reflexivity.
  - intros [= <- H]. apply IH in H as [-> ->]; auto.
    + intros Hin. apply Ha. right. assumption.
    + intros Hin. apply Ha'. right. assumption.
Qed.

Lemma position_format_inj x y x' y' :
  lit "-" ++ decimal x ++ lit "px -" ++ decimal y ++ lit "px"
  = lit "-" ++ decimal x' ++ lit "px -" ++ decimal y' ++ lit "px" ->
  x = x' /\ y = y'.
Proof.
  change (lit "-") with [45]. change (lit "px -") with [112; 120; 32; 45].
  change (lit "px") with [112; 120]. cbn [app].
  intros [= H].
  apply app_sep_inj in H as [Hx H]; try apply decimal_no_p.
  injection H as H. apply app_inv_tail in H.
  split; now apply decimal_inj.
Qed.

Lemma position_text_inj i j : position_text i = position_text j -> i = j.
Proof.
  unfold position_text. intros H.
  apply position_format_inj in H as [Hx Hy].
  pose proof (N.div_mod' (40 * N.of_nat i) 1216) as Hi.
  pose proof (N.div_mod' (40 * N.of_nat j) 1216) as Hj.
  revert Hx Hy Hi Hj.
  generalize ((40 * N.of_nat i) mod 1216) ((40 * N.of_nat j) mod 1216)
             ((40 * N.of_nat i) / 1216) ((40 * N.of_nat j) / 1216).
  intros. lia.
Qed.

Lemma getIcons_loop_nth l : forall cnt k e,
  nth_error (getIcons_loop cnt l) k = Some e ->
  ip_position e
  = lit "-" ++ decimal ((cnt + 40 * N.of_nat k) mod 1216) ++ lit "px -"
    ++ decimal ((cnt + 40 * N.of_nat k) / 1216 * 64) ++ lit "px"
  /\ ip_color e = lit "#000000".
Proof.
  induction l as [|x l IH]; intros cnt k e; cbn [getIcons_loop].
  - destruct k; discriminate.
  - destruct k as [|k]; cbn [nth_error].
    + intros [= <-]. cbn [ip_position ip_color].
      replace (cnt + 40 * N.of_nat 0) with cnt by lia. auto.
    + intros H. apply IH in H.
      replace (cnt + 40 * N.of_nat (S k)) with (cnt + 40 + 40 * N.of_nat k)
        by lia.
      exact H.
Qed.

(** Lines 70-74.  The entry of rank [k], counting from zero, stands 40 k
    pixels along a sheet 1216 pixels wide, in the row of 64 pixels where
    that falls, and is black; no two entries have the same position. *)
Theorem getIcons_positions (st : state) :
  (forall k e,
      nth_error (getIcons st) k = Some e ->
      ip_position e = position_text k /\ ip_color e = lit "#000000")
  /\ forall i j ei ej,
      nth_error (getIcons st) i = Some ei ->
      nth_error (getIcons st) j = Some ej ->
      ip_position ei = ip_position ej -> i = j.
Proof.
  assert (H : forall k e,
             nth_error (getIcons st) k = Some e ->
             ip_position e = position_text k /\ ip_color e = lit "#000000").
  { intros k e Hk. unfold getIcons in Hk.
    apply getIcons_loop_nth in Hk. exact Hk. }
  split; [exact H|].
  intros i j ei ej Hi Hj Heq.
  apply H in Hi as [Hi _]. apply H in Hj as [Hj _].
  apply position_text_inj. congruence.
Qed.

Lemma getIcons_positions_witness :
  exists st e,
    process Sample.products Sample.buildings = Done st
    /\ nth_error (getIcons st) 1 = Some e
    /\ ip_id e = lit "smelter-1"
    /\ ip_position e = lit "-40px -0px".
Proof.
  do 2 eexists. split; [vm_compute; reflexivity|].
  split; [vm_compute; reflexivity|]. split; [reflexivity|].
  match goal with
  | |- ip_position ?e = _ =>
      destruct (proj1 (getIcons_positions
                         {| ids := []; iconList :=
                              [ {| icon_id := lit "iron";
                                   icon_icon := lit "iron.png" |};
                                {| icon_id := lit "smelter-1";
                                   icon_icon := lit "smelter.png" |} ];
                            prodList := []; prodIndex := []; mnbList := [];
                            recipeIds := []; recipeList := [];
                            stdout := [] |}) 1%nat e) as [Hp _];
        [vm_compute; reflexivity | rewrite Hp; reflexivity]
  end.
Defined.

(** ** The catalog after the products loop *)

Lemma str_eqb_sym a b : str_eqb a b = str_eqb b a.
Proof.
  destruct (str_eqb a b) eqn:E.
  - apply str_eqb_eq in E. subst. symmetry. apply str_eqb_refl.
  - apply str_eqb_neq in E. symmetry. apply str_eqb_neq. congruence.
Qed.

Lemma find_snoc (A : Type) (f : A -> bool) l x :
  find f (l ++ [x])
  = match find f l with
    | Some y => Some y
    | None => if f x then Some x else None
    end.
Proof.
  induction l as [|y l IH]; cbn [find app]; [reflexivity|].
  destruct (f y); auto.
Qed.

Lemma read_product_index item st st' :
  (forall name,
      dict_get (prodIndex st) name
      = option_map prod_id
          (find (fun p => str_eqb (prod_name p) name) (prodList st))) ->
  read_product item st = Ok st' ->
  forall name,
    dict_get (prodIndex st') name
    = option_map prod_id
        (find (fun p => str_eqb (prod_name p) name) (prodList st')).
Proof.
  intros Hinv H. pose proof (read_product_cases item st) as Hc.
  destruct (parse_product item) as [r|].
  - destruct Hc as [Hname Hc]. rewrite Hc in H. clear Hc.
    destruct (ids_mem (prod_id r) st);
      [inversion H; subst; simpl_state; exact Hinv|].
    destruct (dict_mem (prodIndex st) (rp_name item)) eqn:Emem;
      inversion H; subst; simpl_state; intros name; rewrite find_snoc.
    + rewrite Hinv.
      destruct (find (fun p => str_eqb (prod_name p) name) (prodList st))
        as [p|] eqn:Ef; [reflexivity|].
      destruct (str_eqb (prod_name r) name) eqn:En; [|reflexivity].
      apply str_eqb_eq in En. subst name.
      apply dict_mem_true in Emem. rewrite <- Hname, Hinv, Ef in Emem.
      now contradiction Emem.
    + apply dict_mem_false in Emem.
      assert (Ef : find (fun p => str_eqb (prod_name p) (rp_name item))
                        (prodList st) = None).
      { rewrite Hinv in Emem. destruct (find _ (prodList st));
          [discriminate | reflexivity]. }
      destruct (str_eqb (prod_name r) name) eqn:En.
      * apply str_eqb_eq in En. subst name. rewrite Hname.
        rewrite dict_get_set_same, Ef. reflexivity.
      * apply str_eqb_neq in En.
        rewrite dict_get_set_other by congruence. rewrite Hinv.
        destruct (find (fun p => str_eqb (prod_name p) name) (prodList st));
          reflexivity.
  - destruct Hc as (msg & Hc). rewrite Hc in H. inversion H; subst.
    simpl_state. exact Hinv.
Qed.

(** The seeded index gives the id of the seeded product. *)
Lemma initial_index name :
  dict_get (prodIndex initial_state) name
  = option_map prod_id
      (find (fun p => str_eqb (prod_name p) name) (prodList initial_state)).
Proof.
  change (prodIndex initial_state) with [(lit "Workers", lit "worker")].
  change (prodList initial_state)
    with [ {| prod_id := lit "worker"; prod_name := lit "Workers";
              prod_type := lit "virtual" |} ].
  cbn [dict_get find prod_name].
  rewrite (str_eqb_sym (lit "Workers") name).
  destruct (str_eqb name (lit "Workers")); reflexivity.
Qed.

(** Lines 99-101 and 126-134.  Once the products are read, a display name
    resolves to the id of the first product of the list that carries it,
    seeded products included, and a name that no product carries does not
    resolve. *)
Theorem index_first_product (products : products_doc) (name : str) :
  dict_get (prodIndex (catalog products)) name
  = option_map prod_id
      (find (fun p => str_eqb (prod_name p) name)
            (prodList (catalog products))).
Proof.
  revert name.
  apply (for_each_inv read_product
           (fun st => forall name,
                dict_get (prodIndex st) name
                = option_map prod_id
                    (find (fun p => str_eqb (prod_name p) name)
                          (prodList st)))
           read_product_index (pd_products products) initial_state).
  - exact initial_index.
  - apply catalog_ok.
Qed.

Lemma read_products_parsed l :
  forall st st',
    ids st = [] ->
    for_each read_product l st = Ok st' ->
    ids st' = []
    /\ prodList st' = prodList st ++ flat_map parsed l
    /\ (length (stdout st') + length (iconList st')
        = length (stdout st) + length (iconList st) + length l)%nat.
Proof.
  induction l as [|item l IH]; intros st st' Hids H; cbn [for_each] in H.
  - inversion H; subst. cbn [flat_map length].
    rewrite app_nil_r. repeat split; auto; try lia.
  - destruct (read_product item st) as [st1|e] eqn:E1;
      cbn [bind] in H; [|discriminate].
    assert (H1 : ids st1 = []
                 /\ prodList st1 = prodList st ++ parsed item
                 /\ (length (stdout st1) + length (iconList st1)
                     = length (stdout st) + length (iconList st) + 1)%nat).
    { pose proof (read_product_cases item st) as Hc. unfold parsed.
      destruct (parse_product item) as [r|].
      - destruct Hc as [_ Hc]. rewrite Hc in E1. clear Hc.
        unfold ids_mem in E1. rewrite Hids in E1. cbn [existsb] in E1.
        destruct (dict_mem (prodIndex st) (rp_name item));
          inversion E1; subst; simpl_state; rewrite !length_app;
          cbn [length]; repeat split; auto; try lia.
      - destruct Hc as (msg & Hc). rewrite Hc in E1.
        inversion E1; subst; simpl_state. rewrite length_app, app_nil_r.
        cbn [length]. repeat split; auto; try lia. }
    destruct H1 as (Hids1 & Hp1 & Hn1).
    destruct (IH st1 st' Hids1 H) as (Hids' & Hp' & Hn').
    cbn [flat_map length]. rewrite Hp', Hp1, app_assoc.
    repeat split; auto; try lia.
Qed.

(** The product list after the products loop. *)
Lemma catalog_prodList (products : products_doc) :
  prodList (catalog products)
  = default_products ++ flat_map parsed (pd_products products).
Proof.
  apply (@read_products_parsed (pd_products products) initial_state
           (catalog products) eq_refl (catalog_ok products)).
Qed.

(** Lines 108-137.  The product list is the seeded products followed, in
    the order of the document, by every entry whose type and wrapped id have
    the expected shape: an entry is left out for no other reason.  Each
    entry of the document either registers one icon or prints one line. *)
Theorem catalog_products (products : products_doc) :
  prodList (catalog products)
  = default_products ++ flat_map parsed (pd_products products)
  /\ (length (stdout (catalog products))
      + length (iconList (catalog products))
      = length (pd_products products))%nat.
Proof.
  destruct (@read_products_parsed (pd_products products) initial_state
              (catalog products) eq_refl (catalog_ok products))
    as (_ & Hp & Hn).
  split; [exact Hp | exact Hn].
Qed.

(** ** Categories *)

Lemma dict_get_keys (V : Type) (d : dict V) k v :
  dict_get d k = Some v -> In k (keys d).
Proof.
  induction d as [|[k' v'] d IH]; cbn [dict_get keys map fst];
    [discriminate|].
  destruct (str_eqb k k') eqn:E.
  - apply str_eqb_eq in E. subst. left. reflexivity.
  - intros H. right. apply IH. exact H.
Qed.

Lemma keys_dict_get (V : Type) (d : dict V) k :
  In k (keys d) -> dict_get d k <> None.
Proof.
  induction d as [|[k' v'] d IH]; cbn [dict_get keys map fst]; [tauto|].
  intros [<-|Hin].
  - rewrite str_eqb_refl. discriminate.
  - destruct (str_eqb k k'); [discriminate | now apply IH].
Qed.

Lemma category_ids :
  map cat_id getCategories = map lower (keys PRODUCT_TYPES).
Proof. reflexivity. Qed.

Lemma parse_product_type item r :
  parse_product item = Some r ->
  In (prod_type r) (map cat_id getCategories).
Proof.
  unfold parse_product.
  destruct (re_match REX_ProdType (rp_type item)) as [[tok g]|];
    [|discriminate].
  destruct (group 1 g) as [typeStr|]; [|discriminate].
  destruct (dict_mem PRODUCT_TYPES typeStr) eqn:Em; [|discriminate].
  destruct (re_match REX_Product (rp_id item)) as [[tok2 g2]|];
    [|discriminate].
  destruct (group 2 g2) as [bare|]; [|discriminate].
  intros [= <-]. cbn [prod_type]. rewrite category_ids. apply in_map.
  unfold dict_mem in Em.
  destruct (dict_get PRODUCT_TYPES typeStr) eqn:Eg; [|discriminate].
  eapply dict_get_keys; eauto.
Qed.

Lemma catalog_types products :
  Forall (fun p => In (prod_type p) (map cat_id getCategories))
         (prodList (catalog products)).
Proof.
  rewrite (catalog_prodList products). apply Forall_app. split.
  - constructor; [|constructor].
    do 4 right. left. reflexivity.
  - apply Forall_forall. intros p Hin.
    apply in_flat_map in Hin as (item & _ & Hin). unfold parsed in Hin.
    destruct (parse_product item) as [r|] eqn:E; [|contradiction].
    destruct Hin as [<-|[]]. eapply parse_product_type; eauto.
Qed.

Lemma listed_buildings_In st items b :
  In b (listed_buildings st items) ->
  exists item,
    In item items /\ accepted st item = true
    /\ building_of (prodIndex st) item = Some b.
Proof.
  unfold listed_buildings. intros H.
  apply in_flat_map in H as (item & Hin & H).
  destruct (accepted st item) eqn:Ea; [|contradiction].
  destruct (building_of (prodIndex st) item) as [b'|] eqn:Eb;
    [|contradiction].
  destruct H as [<-|[]]. eauto.
Qed.

Lemma building_of_fields prodIndex item b :
  building_of prodIndex item = Some b ->
  bld_id b = convertCod2FL (rb_id item)
  /\ bld_category b = lit "buildings"
  /\ building_consumption prodIndex item
     = Some (consumption (bld_machine b)).
Proof.
  unfold building_of.
  destruct (building_consumption prodIndex item); [|discriminate].
  intros [= <-]. auto.
Qed.

(** Lines 54-62, 85 and 157-160.  The category of every product item is
    the id of one of the categories of the document; the category of every
    building item is "buildings", which is the id of none of them. *)
Theorem item_categories
        (products : products_doc) (buildings : buildings_doc)
        (doc : document) (out : list str) :
  main products buildings = Done (doc, out) ->
  Forall (fun it =>
            match it with
            | ProductItem _ _ c _ => In c (map cat_id (doc_categories doc))
            | BuildingItem b =>
                bld_category b = lit "buildings"
                /\ ~ In (bld_category b) (map cat_id (doc_categories doc))
            end) (doc_items doc).
Proof.
  intros H. pose proof H as Hd. apply main_done in Hd as (st & _ & -> & _).
  apply main_recipes in H as (_ & _ & Hi). cbn [doc_categories output] in *.
  rewrite Hi. apply Forall_app. split.
  - apply Forall_map. apply catalog_types.
  - apply Forall_map. apply Forall_forall. intros b Hb.
    apply listed_buildings_In in Hb as (item & _ & _ & Hb).
    apply building_of_fields in Hb as (_ & -> & _).
    split; [reflexivity|]. vm_compute. intuition discriminate.
Qed.

Lemma item_categories_witness :
  exists doc out,
    main Sample.products Sample.buildings = Done (doc, out)
    /\ Forall (fun it =>
                 match it with
                 | ProductItem _ _ c _ =>
                     In c (map cat_id (doc_categories doc))
                 | BuildingItem b =>
                     bld_category b = lit "buildings"
                     /\ ~ In (bld_category b)
                             (map cat_id (doc_categories doc))
                 end) (doc_items doc).
Proof.
  do 2 eexists.
  match goal with
  | |- main ?p ?b = Done (?d, ?o) /\ _ =>
      assert (E : main p b = Done (d, o)) by (vm_compute; reflexivity)
  end.
  split; [exact E|]. exact (item_categories _ _ E).
Defined.

(** ** Cross-references *)

Lemma keys_dict_set (V : Type) (d : dict V) k v x :
  In x (keys (dict_set d k v)) -> x = k \/ In x (keys d).
Proof.
  induction d as [|[k' v'] d IH]; cbn [dict_set keys map fst].
  - intros [<-|[]]. auto.
  - destruct (str_eqb k k'); cbn [map fst].
    + intros [<-|H]; [right; left; reflexivity | right; right; exact H].
    + intros [<-|H]; [right; left; reflexivity|].
      apply IH in H as [->|H]; [left; reflexivity | right; right; exact H].
Qed.

Lemma convertIngredientList_loop_keys prodIndex l :
  forall ret ret',
    convertIngredientList_loop prodIndex ret l = Ok ret' ->
    forall k, In k (keys ret') ->
              In k (keys ret)
              \/ exists i, In i l /\ dict_get prodIndex (ing_name i) = Some k.
Proof.
  induction l as [|a l IH]; intros ret ret'; cbn [convertIngredientList_loop].
  - intros [= <-] k Hk. auto.
  - destruct (dict_get prodIndex (ing_name a)) as [p|] eqn:E; [|discriminate].
    intros H k Hk. apply (IH _ _ H) in Hk as [Hk|(i & Hi & Hg)].
    + apply keys_dict_set in Hk as [->|Hk]; [|auto].
      right. exists a. split; [left; reflexivity | exact E].
    + right. exists i. split; [right; exact Hi | exact Hg].
Qed.

(** The keys of a resolved list are ids the index gives. *)
Lemma convertIngredientList_keys prodIndex l ret k :
  convertIngredientList prodIndex l = Ok ret ->
  In k (keys ret) ->
  exists name, dict_get prodIndex name = Some k.
Proof.
  intros H Hk.
  destruct (convertIngredientList_loop_keys _ _ _ H k Hk)
    as [[]|(i & _ & Hg)].
  eauto.
Qed.

(** An id the index gives is the id of a listed product. *)
Lemma index_value_listed products name k :
  dict_get (prodIndex (catalog products)) name = Some k ->
  exists p, In p (prodList (catalog products)) /\ prod_id p = k.
Proof.
  rewrite (for_each_inv read_product
             (fun st => forall name,
                  dict_get (prodIndex st) name
                  = option_map prod_id
                      (find (fun p => str_eqb (prod_name p) name)
                            (prodList st)))
             read_product_index (pd_products products) initial_state
             initial_index (catalog_ok products)).
  destruct (find (fun p => str_eqb (prod_name p) name)
                 (prodList (catalog products))) as [p|] eqn:E;
    [|discriminate].
  intros [= <-]. apply find_some in E as [Hin _]. eauto.
Qed.

Lemma product_item_listed products buildings doc out p :
  main products buildings = Done (doc, out) ->
  In p (prodList (catalog products)) ->
  In (ProductItem (prod_id p) (prod_name p) (prod_type p) 0%Z)
     (doc_items doc).
Proof.
  intros H Hin. apply main_recipes in H as (_ & _ & ->).
  apply in_or_app. left.
  apply (in_map (fun x => ProductItem (prod_id x) (prod_name x)
                                      (prod_type x) 0%Z)) in Hin.
  exact Hin.
Qed.

Lemma Forall2_In_r (A B : Type) (R : A -> B -> Prop) l l' y :
  Forall2 R l l' -> In y l' -> exists x, In x l /\ R x y.
Proof.
  induction 1 as [|x y' l l' Hxy _ IH]; intros Hin; [contradiction|].
  destruct Hin as [<-|Hin].
  - exists x. split; [left; reflexivity | assumption].
  - destruct (IH Hin) as (x' & Hx' & HR). exists x'. split; [right|]; auto.
Qed.

Lemma encountered_In st items e :
  In e (encountered st items) ->
  exists item,
    In item items /\ accepted st item = true
    /\ fst e = convertCod2FL (rb_id item) /\ In (snd e) (rb_recipes item).
Proof.
  unfold encountered. intros H.
  apply in_flat_map in H as (item & Hin & H).
  destruct (accepted st item) eqn:Ea; [|contradiction].
  apply in_map_iff in H as (rc & <- & Hrc). eauto.
Qed.

Lemma accepted_listed st items item :
  In item items -> accepted st item = true ->
  (exists b, In b (listed_buildings st items)
             /\ bld_id b = convertCod2FL (rb_id item))
  /\ In (convertCod2FL (rb_id item)) (map icon_id (listed_icons st items)).
Proof.
  intros Hin Ha. split.
  - pose proof Ha as Hb. unfold accepted in Hb.
    apply andb_true_iff in Hb as [_ Hb].
    destruct (building_of (prodIndex st) item) as [b|] eqn:Eb;
      [|discriminate].
    exists b. split.
    + unfold listed_buildings. apply in_flat_map. exists item.
      split; [exact Hin|]. rewrite Ha, Eb. left. reflexivity.
    + now apply building_of_fields in Eb as (-> & _).
  - apply in_map_iff.
    exists {| icon_id := convertCod2FL (rb_id item);
              icon_icon := rb_icon_path item |}.
    split; [reflexivity|].
    unfold listed_icons. apply in_flat_map. exists item.
    split; [exact Hin|]. rewrite Ha. left. reflexivity.
Qed.

(** Lines 38-51, 199-213 and 216-221.  Every key of the input and output
    maps of a recipe of the document is the id of a product item of the
    document; its one producer is the id of a building item of the document,
    and its icon is that id, which has an entry in the icon layout. *)
Theorem recipes_reference_items
        (products : products_doc) (buildings : buildings_doc)
        (doc : document) (out : list str) :
  main products buildings = Done (doc, out) ->
  Forall (fun r =>
            (forall k, In k (keys (rcp_in r) ++ keys (rcp_out r)) ->
                       exists name c,
                         In (ProductItem k name c 0%Z) (doc_items doc))
            /\ (exists b, rcp_producers r = [bld_id b]
                          /\ rcp_icon r = bld_id b
                          /\ In (BuildingItem b) (doc_items doc))
            /\ In (rcp_icon r) (map ip_id (doc_icons doc)))
         (doc_recipes doc).
Proof.
  intros Hmain.
  destruct (main_recipes _ _ Hmain) as (Hrec & _ & Hitems).
  pose proof (emitted_lists (prodIndex (catalog products))
                (encountered (catalog products)
                             (bd_machines_and_buildings buildings)) [])
    as HF.
  rewrite <- Hrec in HF.
  apply Forall_forall. intros r Hr.
  destruct (Forall2_In_r _ HF Hr) as (e & He & Hl).
  apply filter_In in He as [He _].
  apply encountered_In in He as (item & Hitem & Ha & Hf & _).
  destruct Hl as (_ & _ & Hprod & Hicon & Hin & Hout & _).
  destruct (@accepted_listed _ _ _ Hitem Ha) as [(b & Hb & Hbid) Hic].
  split; [|split].
  - intros k Hk. apply in_app_or in Hk.
    assert (Hidx : exists name,
               dict_get (prodIndex (catalog products)) name = Some k).
    { destruct Hk as [Hk|Hk];
        [eapply convertIngredientList_keys; [exact Hin | exact Hk]
        |eapply convertIngredientList_keys; [exact Hout | exact Hk]]. }
    destruct Hidx as (name & Hidx).
    apply index_value_listed in Hidx as (p & Hp & <-).
    exists (prod_name p), (prod_type p).
    eapply product_item_listed; eauto.
  - exists b. rewrite Hprod, Hicon, Hbid, Hf. repeat split.
    rewrite Hitems. apply in_or_app. right. now apply in_map.
  - apply main_done in Hmain as (st & Hp & -> & _).
    cbn [doc_icons output].
    eapply Permutation_in; [apply getIcons_ids_perm|].
    apply process_trace in Hp. rewrite (tr_iconList Hp), map_app.
    apply in_or_app. right. rewrite Hicon, Hf. exact Hic.
Qed.

Lemma recipes_reference_items_witness :
  exists doc out,
    main Sample.products Sample.three_recipes = Done (doc, out)
    /\ length (doc_recipes doc) = 3%nat
    /\ Forall (fun r =>
                 (forall k, In k (keys (rcp_in r) ++ keys (rcp_out r)) ->
                            exists name c,
                              In (ProductItem k name c 0%Z) (doc_items doc))
                 /\ (exists b, rcp_producers r = [bld_id b]
                               /\ rcp_icon r = bld_id b
                               /\ In (BuildingItem b) (doc_items doc))
                 /\ In (rcp_icon r) (map ip_id (doc_icons doc)))
              (doc_recipes doc).
Proof.
  do 2 eexists.
  match goal with
  | |- main ?p ?b = Done (?d, ?o) /\ _ =>
      assert (E : main p b = Done (d, o)) by (vm_compute; reflexivity)
  end.
  split; [exact E|]. split; [reflexivity|].
  exact (recipes_reference_items _ _ E).
Defined.

(** The keys of a consumption: "worker", "electricity" and the id the
    maintenance unit resolves to. *)
Lemma building_consumption_keys prodIndex item r_cons k :
  building_consumption prodIndex item = Some r_cons ->
  In k (keys r_cons) ->
  k = lit "worker" \/ k = lit "electricity"
  \/ dict_get prodIndex (rb_maintenance_cost_units item) = Some k.
Proof.
  unfold building_consumption.
  set (base := if (0 <? rb_electricity_consumed item)%Z then _ else _).
  assert (Hbase : In k (keys base) ->
                  k = lit "worker" \/ k = lit "electricity").
  { unfold base.
    destruct (0 <? rb_electricity_consumed item)%Z, (0 <? rb_workers item)%Z;
      intros H; repeat (apply keys_dict_set in H as [->|H]); auto;
      destruct H. }
  destruct (str_eqb (rb_maintenance_cost_units item) []); cbn [negb].
  - intros [= <-] H. apply Hbase in H. tauto.
  - destruct (dict_get prodIndex (rb_maintenance_cost_units item))
      as [unit|]; [|discriminate].
    intros [= <-] H. apply keys_dict_set in H as [->|H]; [auto|].
    apply Hbase in H. tauto.
Qed.

(** Lines 161-179.  Every key of the consumption of a building item is
    "electricity" or the id of a product item of the document; "worker" is
    always such an id, and "electricity" need not be. *)
Theorem consumption_references_items
        (products : products_doc) (buildings : buildings_doc)
        (doc : document) (out : list str) :
  main products buildings = Done (doc, out) ->
  (exists name c, In (ProductItem (lit "worker") name c 0%Z) (doc_items doc))
  /\ forall b,
      In (BuildingItem b) (doc_items doc) ->
      forall k,
        In k (keys (consumption (bld_machine b))) ->
        k = lit "electricity"
        \/ exists name c, In (ProductItem k name c 0%Z) (doc_items doc).
Proof.
  intros Hmain.
  assert (Hworker : In {| prod_id := lit "worker"; prod_name := lit "Workers";
                          prod_type := lit "virtual" |}
                       (prodList (catalog products))).
  { rewrite (catalog_prodList products).
    apply in_or_app. left. left. reflexivity. }
  split.
  - exists (lit "Workers"), (lit "virtual").
    apply (@product_item_listed _ _ _ _ _ Hmain Hworker).
  - intros b Hb k Hk.
    destruct (main_recipes _ _ Hmain) as (_ & _ & Hitems).
    rewrite Hitems in Hb. apply in_app_or in Hb as [Hb|Hb].
    { apply in_map_iff in Hb as (p & Hp & _). discriminate Hp. }
    apply in_map_iff in Hb as (b' & [= ->] & Hb).
    apply listed_buildings_In in Hb as (item & _ & _ & Hb).
    apply building_of_fields in Hb as (_ & _ & Hc).
    destruct (@building_consumption_keys _ _ _ _ Hc Hk) as [->|[->|Eu]].
    + right. exists (lit "Workers"), (lit "virtual").
      apply (@product_item_listed _ _ _ _ _ Hmain Hworker).
    + auto.
    + right. apply index_value_listed in Eu as (p & Hp & <-).
      exists (prod_name p), (prod_type p).
      apply (@product_item_listed _ _ _ _ _ Hmain Hp).
Qed.

(** The barracks consume "worker", an item, and "electricity", which is
    not one. *)
Lemma consumption_references_items_witness :
  exists doc out,
    main Sample.products Extra.garrison = Done (doc, out)
    /\ (exists name c,
           In (ProductItem (lit "worker") name c 0%Z) (doc_items doc))
    /\ (forall b,
           In (BuildingItem b) (doc_items doc) ->
           forall k,
             In k (keys (consumption (bld_machine b))) ->
             k = lit "electricity"
             \/ exists name c, In (ProductItem k name c 0%Z) (doc_items doc))
    /\ map item_id (doc_items doc)
       = [lit "worker"; lit "iron"; lit "barracks"; lit "smelter-1"].
Proof.
  do 2 eexists.
  match goal with
  | |- main ?p ?b = Done (?d, ?o) /\ _ =>
      assert (E : main p b = Done (d, o)) by (vm_compute; reflexivity)
  end.
  split; [exact E|].
  destruct (consumption_references_items _ _ E) as [Hw Hk].
  split; [exact Hw|]. split; [exact Hk | reflexivity].
Defined.

(** ** What the building loop prints *)

Lemma read_recipe_ids flabID rc st st' :
  read_recipe flabID rc st = Ok st' -> ids st' = ids st.
Proof.
  unfold read_recipe.
  destruct (next_recipe_id _ (recipeIds st)) as [[rID counters]|e];
    [|discriminate].
  cbn [bind]. simpl_state.
  destruct (convertIngredientList (prodIndex st) (rr_inputs rc))
    as [r_in|[m|m]].
  - destruct (convertIngredientList (prodIndex st) (rr_outputs rc))
      as [[|o r_out]|[m|m]]; intros [= <-]; reflexivity.
  - intros [= <-]. reflexivity.
  - discriminate.
Qed.

Lemma read_recipes_stdout flabID rcs :
  forall st st',
    for_each (read_recipe flabID) rcs st = Ok st' ->
    ids st' = ids st /\ prodIndex st' = prodIndex st
    /\ stdout st'
       = stdout st ++ flat_map (recipe_warning (prodIndex st)) rcs.
Proof.
  induction rcs as [|rc rcs IH]; intros st st' H; cbn [for_each] in H.
  - inversion H; subst. cbn [flat_map]. now rewrite app_nil_r.
  - destruct (read_recipe flabID rc st) as [st1|e] eqn:E1;
      cbn [bind] in H; [|discriminate].
    pose proof (read_recipe_ids _ _ _ E1) as Hi1.
    destruct (read_recipe_step _ _ _ E1) as (_ & _ & _ & Hx1 & _).
    pose proof (@read_recipe_stdout _ _ _ _ E1) as Ho1.
    destruct (IH _ _ H) as (Hi & Hx & Ho).
    rewrite Hi, Hx, Ho, Hi1, Hx1, Ho1. cbn [flat_map].
    now rewrite app_assoc.
Qed.

Lemma read_building_stdout item st st' :
  ids st = [] ->
  read_building item st = Ok st' ->
  ids st' = ids st /\ prodIndex st' = prodIndex st
  /\ stdout st' = stdout st ++ building_warnings st item.
Proof.
  intros Hids. unfold read_building, building_warnings, accepted, building_of.
  unfold ids_mem. rewrite Hids. cbn [existsb negb andb].
  destruct (building_consumption (prodIndex st) item) as [r_cons|].
  - intros H. apply read_recipes_stdout in H. simpl_state.
    destruct H as (Hi & Hx & Ho). rewrite Hi. auto.
  - intros [= <-]. simpl_state. auto.
Qed.

Lemma read_buildings_stdout items :
  forall st st',
    ids st = [] ->
    for_each read_building items st = Ok st' ->
    stdout st' = stdout st ++ flat_map (building_warnings st) items.
Proof.
  induction items as [|item items IH]; intros st st' Hids H;
    cbn [for_each] in H.
  - inversion H; subst. cbn [flat_map]. now rewrite app_nil_r.
  - destruct (read_building item st) as [st1|e] eqn:E1;
      cbn [bind] in H; [|discriminate].
    destruct (@read_building_stdout _ _ _ Hids E1) as (Hi1 & Hx1 & Ho1).
    assert (Hids1 : ids st1 = []) by congruence.
    rewrite (IH _ _ Hids1 H), Ho1. cbn [flat_map].
    rewrite <- app_assoc. do 2 f_equal.
    apply flat_map_ext. intros it. unfold building_warnings.
    rewrite (@accepted_ext _ _ it Hi1 Hx1), Hx1. reflexivity.
Qed.

(** Lines 148-213.  The building loop prints, building by building, one
    line about the maintenance unit for a building it skips, and for a
    building it keeps one line for each recipe with an unknown ingredient;
    it never prints that a building id is a duplicate. *)
Theorem building_loop_prints
        (products : products_doc) (buildings : buildings_doc)
        (doc : document) (out : list str) :
  main products buildings = Done (doc, out) ->
  out = stdout (catalog products)
        ++ flat_map (building_warnings (catalog products))
                    (bd_machines_and_buildings buildings).
Proof.
  intros H. apply main_done in H as (st & Hp & _ & ->).
  apply process_done in Hp as [_ Hp].
  apply read_buildings_stdout; [|exact Hp].
  apply (ci_ids (catalog_inv_catalog products)).
Qed.

Lemma building_loop_prints_witness :
  exists doc,
    main Sample.products Extra.garrison
    = Done (doc,
            [ lit "Unknown maintenance unit 'Maintenance I' in smelter-1";
              lit "ValueError: Unknown ingredient: Scrap" ]).
Proof.
  eexists.
  match goal with
  | |- main ?p ?b = Done (?d, ?o) =>
      assert (E : exists out, main p b = Done (d, out))
        by (eexists; vm_compute; reflexivity);
      destruct E as (out & E);
      rewrite E; rewrite (building_loop_prints _ _ E); reflexivity
  end.
Defined.

(** ** The patterns, read without the matcher *)

Lemma take_drop_while p s : take_while p s ++ drop_while p s = s.
Proof.
  induction s as [|c s IH]; cbn; [reflexivity|].
  destruct (p c); cbn; [now rewrite IH | reflexivity].
Qed.

Lemma firstn_take_while p pre s :
  firstn (length (pre ++ s) - length (drop_while p s)) (pre ++ s)
  = pre ++ take_while p s.
Proof.
  rewrite <- (take_drop_while p s) at 1 3.
  rewrite app_assoc. apply firstn_consumed.
Qed.

Lemma rx_Lits (A : Type) l :
  forall s g (k : str -> captures -> option A),
    rx (Lits l) s g k
    = match strip_prefix l s with
      | Some s' => k s' g
      | None => None
      end.
Proof.
  induction l as [|c l IH]; intros s g k; cbn [Lits rx strip_prefix].
  - reflexivity.
  - destruct s as [|x s]; [reflexivity|].
    destruct (N.eqb x c); [apply IH | reflexivity].
Qed.

Lemma strip_prefix_app l : forall s s',
  strip_prefix l s = Some s' -> s = l ++ s'.
Proof.
  induction l as [|c l IH]; intros s s'; cbn [strip_prefix app].
  - now intros [= ->].
  - destruct s as [|x s]; [discriminate|].
    destruct (N.eqb x c) eqn:E; [|discriminate].
    apply N.eqb_eq in E. subst. intros H. f_equal. now apply IH.
Qed.

Lemma star_cls_eval (A : Type) p (k : str -> captures -> option A) :
  forall n s g,
    (length s <= n)%nat ->
    star_rounds (rx (Cls p)) k n s g = star_spec p k s g.
Proof.
  induction n as [|n IH]; intros s g Hn.
  - destruct s; [reflexivity | simpl in Hn; lia].
  - cbn [star_rounds rx]. destruct s as [|c s]; [reflexivity|].
    cbn [star_spec]. destruct (p c); [|reflexivity].
    assert (E : Nat.ltb (length s) (length (c :: s)) = true)
      by (apply Nat.ltb_lt; simpl; lia).
    rewrite E, IH by (simpl in Hn; lia). reflexivity.
Qed.

(** A continuation that always succeeds gets the longest run. *)
Lemma star_spec_total (A : Type) p (F : str -> captures -> A) s g :
  star_spec p (fun s' g' => Some (F s' g')) s g
  = Some (F (drop_while p s) g).
Proof.
  induction s as [|c s IH]; cbn [star_spec drop_while]; [reflexivity|].
  destruct (p c); [now rewrite IH | reflexivity].
Qed.

(** So does a continuation that fails on every character of the class. *)
Lemma star_spec_commit (A : Type) p (k : str -> captures -> option A) s g :
  (forall c s' g', p c = true -> k (c :: s') g' = None) ->
  star_spec p k s g = k (drop_while p s) g.
Proof.
  intros Hk. induction s as [|c s IH]; cbn [star_spec drop_while];
    [reflexivity|].
  destruct (p c) eqn:E; [|reflexivity].
  rewrite IH, (Hk c s g E). destruct (k (drop_while p s) g); reflexivity.
Qed.

Lemma starts_take_while p s :
  starts p s = true -> exists c s', s = c :: s' /\ p c = true
                                    /\ take_while p s = c :: take_while p s'
                                    /\ drop_while p s = drop_while p s'.
Proof.
  destruct s as [|c s]; cbn; [discriminate|].
  intros H. exists c, s. rewrite H. auto.
Qed.

(** The equations of the matcher. *)
Lemma rx_Cls (A : Type) p s g (k : str -> captures -> option A) :
  rx (Cls p) s g k
  = match s with
    | x :: s' => if p x then k s' g else None
    | [] => None
    end.
Proof. reflexivity. Qed.

Lemma rx_Seq (A : Type) r1 r2 s g (k : str -> captures -> option A) :
  rx (Seq r1 r2) s g k = rx r1 s g (fun s' g' => rx r2 s' g' k).
Proof. reflexivity. Qed.

Lemma rx_Alt (A : Type) r1 r2 s g (k : str -> captures -> option A) :
  rx (Alt r1 r2) s g k
  = match rx r1 s g k with Some x => Some x | None => rx r2 s g k end.
Proof. reflexivity. Qed.

Lemma rx_Opt (A : Type) r1 s g (k : str -> captures -> option A) :
  rx (Opt r1) s g k
  = match rx r1 s g k with Some x => Some x | None => k s g end.
Proof. reflexivity. Qed.

Lemma rx_Grp (A : Type) i r1 s g (k : str -> captures -> option A) :
  rx (Grp i r1) s g k
  = rx r1 s g (fun s' g' =>
                 k s' ((i, firstn (length s - length s') s) :: g')).
Proof. reflexivity. Qed.

(** A starred class before a continuation that always succeeds. *)
Lemma rx_Star_Cls_total (A : Type) p (F : str -> captures -> A) s g :
  rx (Star (Cls p)) s g (fun s' g' => Some (F s' g'))
  = Some (F (drop_while p s) g).
Proof.
  cbn [rx]. change (star_rounds _ ?k ?n ?s ?g)
    with (star_rounds (rx (Cls p)) k n s g).
  rewrite star_cls_eval by lia. apply star_spec_total.
Qed.

(** A class, then the same class starred, before such a continuation. *)
Lemma rx_Plus_Cls_total (A : Type) p (F : str -> captures -> A) s g :
  rx (Plus (Cls p)) s g (fun s' g' => Some (F s' g'))
  = if starts p s then Some (F (drop_while p s) g) else None.
Proof.
  unfold Plus. rewrite rx_Seq, rx_Cls.
  destruct s as [|c s]; cbn [starts drop_while]; [reflexivity|].
  destruct (p c); [apply rx_Star_Cls_total | reflexivity].
Qed.

Lemma re_match_CoDNaming s :
  re_match REX_CoDNaming s
  = option_map (fun tok => (tok, [])) (next_token s).
Proof.
  unfold re_match, REX_CoDNaming, next_token.
  change (AtLeast 2 (Cls cls_upper))
    with (Seq (Cls cls_upper) (Plus (Cls cls_upper))).
  destruct s as [|c s]; [reflexivity|].
  rewrite !rx_Alt, !rx_Seq, !rx_Cls.
  rewrite !rx_Plus_Cls_total, rx_Opt, rx_Cls.
  destruct (cls_upper c) eqn:Uc; cbn [andb].
  - destruct (starts cls_lower s) eqn:Ls.
    + cbn [option_map].
      change (c :: s) with ([c] ++ s) at 1 2.
      rewrite firstn_take_while. reflexivity.
    + destruct (starts cls_upper s) eqn:Us.
      * cbn [option_map].
        change (c :: s) with ([c] ++ s) at 1 2.
        rewrite firstn_take_while. reflexivity.
      * destruct (cls_d c); [|reflexivity].
        destruct s as [|d s]; cbn [starts] in *.
        -- reflexivity.
        -- rewrite Us. cbn [option_map]. f_equal. f_equal.
           apply (firstn_consumed [c] (d :: s)).
  - destruct (cls_d c); [|reflexivity].
    destruct s as [|d s]; cbn [starts].
    + reflexivity.
    + destruct (cls_upper d); cbn [option_map firstn]; f_equal; f_equal.
      * apply (firstn_consumed [c; d] s).
      * apply (firstn_consumed [c] (d :: s)).
Qed.

(** Lines 14 and 35.  The pattern of the translator reads a name as the
    explicit tokenizer does: [findall] gives its tokens. *)
Theorem findall_tokenize (X : str) :
  findall REX_CoDNaming X = tokenize_from 0 X
  /\ convertCod2FL X = lower (join (lit "-") (tokenize_from 0 X)).
Proof.
  assert (H : forall s skip,
             findall_from REX_CoDNaming skip s = tokenize_from skip s).
  { induction s as [|c s IH]; intros skip; cbn [findall_from tokenize_from];
      [reflexivity|].
    destruct skip as [|j]; [|apply IH].
    rewrite re_match_CoDNaming.
    destruct (next_token (c :: s)) as [tok|]; cbn [option_map];
      now rewrite IH. }
  unfold convertCod2FL, findall. now rewrite H.
Qed.

Lemma firstn_run p s :
  firstn (length s - length (drop_while p s)) s = take_while p s.
Proof. apply (firstn_take_while p [] s). Qed.

(** A group around a class repeated at least once, before a continuation
    that always succeeds: the group is the longest run. *)
Lemma rx_group_run (A : Type) i p (F : str -> captures -> A) s g :
  rx (Grp i (Plus (Cls p))) s g (fun s' g' => Some (F s' g'))
  = if starts p s
    then Some (F (drop_while p s) ((i, take_while p s) :: g))
    else None.
Proof.
  rewrite rx_Grp.
  rewrite (rx_Plus_Cls_total p
             (fun s' g' => F s' ((i, firstn (length s - length s') s) :: g'))).
  now rewrite firstn_run.
Qed.

Lemma alnum_run_starts s :
  alnum_run s = if starts cls_alnum s then Some (take_while cls_alnum s)
                else None.
Proof.
  unfold alnum_run. destruct s as [|c s]; cbn; [reflexivity|].
  destruct (cls_alnum c); reflexivity.
Qed.

(** Lines 12 and 116-122.  The pattern of the wrapped ids reads an id as
    the explicit procedure does: the id has to start with "Product_"; the
    bare id is the run of letters and digits after a "Virtual_" that such a
    run follows, and else the run after "Product_"; there is no match
    without a run. *)
Theorem wrapped_id_unwrap (idStr : str) : wrapped_id idStr = unwrap idStr.
Proof.
  unfold wrapped_id, unwrap, re_match, REX_Product.
  rewrite rx_Seq, rx_Lits.
  destruct (strip_prefix (lit "Product_") idStr) as [s1|]; [|reflexivity].
  rewrite rx_Seq, rx_Opt, rx_Grp, rx_Lits, (alnum_run_starts s1).
  destruct (strip_prefix (lit "Virtual_") s1) as [s2|].
  - rewrite (alnum_run_starts s2), !rx_group_run.
    destruct (starts cls_alnum s2); [reflexivity|].
    destruct (starts cls_alnum s1); reflexivity.
  - rewrite rx_group_run.
    destruct (starts cls_alnum s1); reflexivity.
Qed.

Lemma rx_Star_Cls_commit (A : Type) p (k : str -> captures -> option A) s g :
  (forall c s' g', p c = true -> k (c :: s') g' = None) ->
  rx (Star (Cls p)) s g k = k (drop_while p s) g.
Proof.
  intros Hk. cbn [rx].
  change (star_rounds _ ?k ?n ?s ?g)
    with (star_rounds (rx (Cls p)) k n s g).
  rewrite star_cls_eval by lia. now apply star_spec_commit.
Qed.

(** Lines 13 and 109-114.  The pattern of the product types reads a type
    string as the explicit procedure does: a capital, the lowercase letters
    and digits after it, at least one, and "ProductProto" right after
    them. *)
Theorem product_type_prefix (typeStr : str) :
  product_type typeStr = type_prefix typeStr.
Proof.
  unfold product_type, type_prefix, re_match, REX_ProdType, Plus.
  rewrite rx_Seq, rx_Grp, !rx_Seq, rx_Cls.
  destruct typeStr as [|c t]; [reflexivity|].
  destruct (cls_upper c); cbn [andb]; [|reflexivity].
  rewrite rx_Seq, rx_Cls. destruct t as [|d t]; cbn [starts]; [reflexivity|].
  destruct (cls_lower09 d) eqn:Ld; [|reflexivity].
  rewrite rx_Star_Cls_commit.
  - rewrite rx_Lits. cbn [drop_while take_while]. rewrite Ld.
    destruct (strip_prefix (lit "ProductProto") (drop_while cls_lower09 t));
      [|reflexivity].
    cbn [group Nat.eqb]. f_equal.
    apply (firstn_take_while cls_lower09 [c; d] t).
  - intros x s' g' Hx. rewrite rx_Lits.
    change (lit "ProductProto") with (80 :: lit "roductProto").
    cbn [strip_prefix].
    destruct (N.eqb x 80) eqn:E; [|reflexivity].
    apply N.eqb_eq in E. subst. discriminate Hx.
Qed.

(** Lines 117-122.  A match of the pattern of the wrapped ids always has
    its second group: [res.group(2)] is never [None], and the products
    loop never raises the TypeError of a [findall] on [None]. *)
Theorem wrapped_id_group :
  (forall idStr m g,
      re_match REX_Product idStr = Some (m, g) ->
      exists bare, group 2 g = Some bare)
  /\ forall l st msg, for_each read_product l st <> Raise (TypeError msg).
Proof.
  split.
  - intros idStr m g H.
    pose proof (re_match_group 2 _ _ sets_REX_Product H) as Hg.
    destruct (group 2 g) as [bare|]; [eauto | contradiction].
  - intros l st msg.
    destruct (read_products_total l st) as (st' & ->). discriminate.
Qed.

Lemma wrapped_id_group_witness :
  exists m g,
    re_match REX_Product (lit "Product_Virtual_Iron9") = Some (m, g)
    /\ exists bare, group 2 g = Some bare.
Proof.
  do 2 eexists.
  match goal with
  | |- re_match ?r ?s = Some (?m, ?g) /\ _ =>
      assert (E : re_match r s = Some (m, g)) by (vm_compute; reflexivity)
  end.
  split; [exact E|]. exact (proj1 wrapped_id_group _ _ _ E).
Defined.
